(** * The timer engine of [agent/components/tools/timer_tool.py]

    A shallow embedding of [TimerTool]: the time-spec parser (with the
    regular expressions it is written with), the catch-up arithmetic, the
    timer dictionary and its persistence, the timer API and the execution
    engine, followed by the properties the specification states about them.
    The code around the tool is embedded as well: the interval text of
    [_format_recurrence_interval], the monitor ([TimerMonitor] with
    [BaseMonitor.wrap_in_xml]), the staff timers ([StaffTimerUtils]) and the
    task list that receives the actions ([TaskTool]).

    Conventions of the embedding.
    - A Python [str] is the list of its code points.  String constants are
      written as in the source and decoded from UTF-8.
    - A naive [datetime] is the number of microseconds since
      0001-01-01 00:00:00; arithmetic that leaves the years 1..9999 raises
      [OverflowError], as [datetime.__add__] does.
    - An epoch timestamp (the float [datetime.timestamp()] returns) is a count
      of microseconds; the arithmetic on timestamps is exact (the rounding of
      binary floating point is not modelled).  [recurrence_interval] stays in
      seconds, as the source stores it.
    - The timer dictionary is an insertion-ordered association list, as a
      Python [dict] is.
    - Exceptions are values of [exn]; a computation that may raise returns a
      [result]. *)

From Stdlib Require Import String Ascii ZArith Bool Lia List.
From Stdlib Require Import Permutation Sorted.
Import ListNotations.
Open Scope Z_scope.

(* ================================================================== *)
(** ** Python strings *)

Definition str := list Z.

Definition byte_codes (s : string) : list Z :=
  map (fun a => Z.of_N (N_of_ascii a)) (list_ascii_of_string s).

(** UTF-8 decoding of the bytes of a literal (well-formed input only). *)
Fixpoint utf8_decode (bs : list Z) : str :=
  match bs with
  | [] => []
  | b :: rest =>
      if b <? 128 then b :: utf8_decode rest
      else if b <? 224 then
        match rest with
        | b1 :: rest1 => ((b - 192) * 64 + (b1 - 128)) :: utf8_decode rest1
        | _ => []
        end
      else if b <? 240 then
        match rest with
        | b1 :: b2 :: rest2 =>
            ((b - 224) * 4096 + (b1 - 128) * 64 + (b2 - 128)) :: utf8_decode rest2
        | _ => []
        end
      else
        match rest with
        | b1 :: b2 :: b3 :: rest3 =>
            ((b - 240) * 262144 + (b1 - 128) * 4096 + (b2 - 128) * 64 + (b3 - 128))
              :: utf8_decode rest3
        | _ => []
        end
  end.

Definition u (s : string) : str := utf8_decode (byte_codes s).

Definition str_eqb (a b : str) : bool :=
  if list_eq_dec Z.eq_dec a b then true else false.

(** [str.lower()] on the alphabets the grammar is written in: ASCII and the
    Cyrillic block (U+0400..U+042F).  Other code points are left as they
    are. *)
Definition lower_char (c : Z) : Z :=
  if (65 <=? c) && (c <=? 90) then c + 32
  else if (1040 <=? c) && (c <=? 1071) then c + 32
  else if (1024 <=? c) && (c <=? 1039) then c + 80
  else c.

Definition lower (s : str) : str := map lower_char s.

Fixpoint startswith (p s : str) : bool :=
  match p, s with
  | [], _ => true
  | _ :: _, [] => false
  | a :: p', b :: s' => (a =? b) && startswith p' s'
  end.

(** [needle in hay]. *)
Fixpoint contains (needle hay : str) : bool :=
  startswith needle hay ||
  match hay with
  | [] => false
  | _ :: hay' => contains needle hay'
  end.

(** [int(s)] for a string of ASCII decimal digits. *)
Definition int_of_digits (s : str) : Z :=
  fold_left (fun acc c => acc * 10 + (c - 48)) s 0.

(** A string is truthy when it is not empty; [None] is falsy. *)
Definition truthy_str (o : option str) : bool :=
  match o with
  | Some (_ :: _) => true
  | _ => false
  end.

(* ================================================================== *)
(** ** Regular expressions

    The fragment of [re] the parser uses, read as a backtracking matcher:
    [rmatch r s g] lists every way [r] can match a prefix of [s], in the
    order the matcher tries them; each entry is the input left over and the
    groups captured.  The match [re] reports is the first entry. *)

(** [\d]: the ASCII digits.  (On [str] patterns Python also takes the
    decimal digits of other scripts, which [int] reads as well; they are not
    modelled.) *)
Definition is_digit (c : Z) : bool := (48 <=? c) && (c <=? 57).

(** [\s] on [str] patterns: the code points for which [str.isspace()]
    holds. *)
Definition is_space (c : Z) : bool :=
  ((9 <=? c) && (c <=? 13)) || ((28 <=? c) && (c <=? 32))
  || (c =? 133) || (c =? 160) || (c =? 5760)
  || ((8192 <=? c) && (c <=? 8202))
  || (c =? 8232) || (c =? 8233) || (c =? 8239) || (c =? 8287) || (c =? 12288).

(** [.] without DOTALL: anything but a line feed. *)
Definition is_dot (c : Z) : bool := negb (c =? 10).

Inductive regex : Type :=
| Lit (c : Z)
| Class (p : Z -> bool)
| Empty
| Cat (r1 r2 : regex)
| Or (r1 r2 : regex)
| Many (r : regex)
| Group (n : nat) (r : regex).

Definition groups := list (nat * str).
Definition thread : Type := str * groups.

(** Greedy repetition: one more round of [step] first, stopping here last.
    A round that consumes nothing is not repeated. *)
Fixpoint many_n (step : str -> groups -> list thread) (n : nat)
                (s : str) (g : groups) : list thread :=
  match n with
  | O => [(s, g)]
  | S n' =>
      flat_map (fun t : thread =>
                  if (length (fst t) <? length s)%nat
                  then many_n step n' (fst t) (snd t) else [])
               (step s g)
      ++ [(s, g)]
  end.

Fixpoint rmatch (r : regex) (s : str) (g : groups) : list thread :=
  match r with
  | Lit c =>
      match s with
      | x :: s' => if x =? c then [(s', g)] else []
      | [] => []
      end
  | Class p =>
      match s with
      | x :: s' => if p x then [(s', g)] else []
      | [] => []
      end
  | Empty => [(s, g)]
  | Cat r1 r2 => flat_map (fun t : thread => rmatch r2 (fst t) (snd t)) (rmatch r1 s g)
  | Or r1 r2 => rmatch r1 s g ++ rmatch r2 s g
  | Many r1 => many_n (rmatch r1) (length s) s g
  | Group n r1 =>
      map (fun t : thread =>
             (fst t, (n, firstn (length s - length (fst t)) s) :: snd t))
          (rmatch r1 s g)
  end.

(** [r+], [r?], a literal word, [(?:a|b|...)]. *)
Definition plus (r : regex) : regex := Cat r (Many r).
Definition opt (r : regex) : regex := Or r Empty.
Definition lits (w : str) : regex := fold_right (fun c r => Cat (Lit c) r) Empty w.
Fixpoint alts (rs : list regex) : regex :=
  match rs with
  | [] => Class (fun _ => false)
  | [r] => r
  | r :: rs' => Or r (alts rs')
  end.

(** [match.group(n)]: [None] when the group took no part in the match. *)
Fixpoint group (n : nat) (g : groups) : option str :=
  match g with
  | [] => None
  | (k, v) :: g' => if Nat.eqb k n then Some v else group n g'
  end.

(** [re.search]: the first match at the leftmost position that has one. *)
Fixpoint search (r : regex) (s : str) : option groups :=
  match rmatch r s [] with
  | t :: _ => Some (snd t)
  | [] =>
      match s with
      | [] => None
      | _ :: s' => search r s'
      end
  end.

(** [re.finditer]: the successive non-overlapping matches, left to right.
    (The patterns below never match the empty string; after an empty match
    the scan moves on by one character.) *)
Fixpoint finditer_n (fuel : nat) (r : regex) (s : str) : list groups :=
  match fuel with
  | O => []
  | S fuel' =>
      match rmatch r s [] with
      | t :: _ =>
          snd t ::
            (if (length (fst t) <? length s)%nat then finditer_n fuel' r (fst t)
             else match s with
                  | [] => []
                  | _ :: s' => finditer_n fuel' r s'
                  end)
      | [] =>
          match s with
          | [] => []
          | _ :: s' => finditer_n fuel' r s'
          end
      end
  end.

Definition finditer (r : regex) (s : str) : list groups :=
  finditer_n (S (length s)) r s.

(* ================================================================== *)
(** ** Exceptions and results *)

(** The exceptions the modelled code can meet.  [BaseException_only] stands
    for the exceptions that do not derive from [Exception] ([SystemExit],
    [KeyboardInterrupt], ...); an [except Exception] clause lets them
    through. *)
Inductive exn : Type :=
| ValueError
| OverflowError
| SyntaxError (line offset : Z)
| OtherException
| BaseException_only.

Definition is_Exception (e : exn) : bool :=
  match e with
  | BaseException_only => false
  | _ => true
  end.

Inductive result (A : Type) : Type :=
| Ret (a : A)
| Raise (e : exn).
Arguments Ret {A} a.
Arguments Raise {A} e.

Definition bind {A B : Type} (m : result A) (k : A -> result B) : result B :=
  match m with
  | Ret a => k a
  | Raise e => Raise e
  end.

Notation "x <- m ;; k" := (bind m (fun x => k))
  (at level 61, m at next level, right associativity).

(* ================================================================== *)
(** ** Naive datetimes *)

Definition datetime := Z.

Definition second_us : Z := 1000000.
Definition day_seconds : Z := 86400.
Definition day_us : Z := day_seconds * second_us.

(** [datetime.max] is 9999-12-31 23:59:59.999999, the last microsecond of
    day 3652059 ([date.max.toordinal()]). *)
Definition datetime_max : datetime := 3652059 * day_us - 1.

Definition in_range (d : Z) : bool := (0 <=? d) && (d <=? datetime_max).

(** [d + timedelta(seconds=n)]. *)
Definition add_seconds (d : datetime) (n : Z) : result datetime :=
  let d' := d + n * second_us in
  if in_range d' then Ret d' else Raise OverflowError.

(** [d + timedelta(days=n)]. *)
Definition add_days (d : datetime) (n : Z) : result datetime :=
  add_seconds d (n * day_seconds).

(** The midnight that starts the day of [d]. *)
Definition midnight (d : datetime) : datetime := d - d mod day_us.

(** [d.replace(hour=h, minute=m, second=0, microsecond=0)]. *)
Definition replace_time (d : datetime) (h m : Z) : result datetime :=
  if negb ((0 <=? h) && (h <=? 23)) then Raise ValueError
  else if negb ((0 <=? m) && (m <=? 59)) then Raise ValueError
  else Ret (midnight d + (h * 3600 + m * 60) * second_us).

(* ================================================================== *)
(** ** The time-spec parser *)

Definition digit : regex := Class is_digit.
Definition space : regex := Class is_space.
Definition dot : regex := Class is_dot.

(** The words of the grammar, as the source spells them. *)
Definition kw_cherez : str := Eval vm_compute in u "через".
Definition kw_kazhd : str := Eval vm_compute in u "кажд".
Definition kw_v : str := Eval vm_compute in u "в".
Definition kw_v_space : str := Eval vm_compute in u "в ".
Definition kw_ezhednevno : str := Eval vm_compute in u "ежедневно".
Definition kw_kazhdyj_den : str := Eval vm_compute in u "каждый день".

Definition endings_kazhd : list str :=
  Eval vm_compute in [u "ые"; u "ый"; u "ое"; u "ая"].

Definition words_seconds : list str := Eval vm_compute in [u "секунд"; u "сек"].
Definition words_minutes : list str := Eval vm_compute in [u "минут"; u "мин"].
Definition words_hours : list str := Eval vm_compute in [u "час"; u "часов"; u "ч"].
Definition words_days : list str :=
  Eval vm_compute in [u "день"; u "дня"; u "дней"; u "д"].
Definition words_weeks : list str :=
  Eval vm_compute in [u "недел"; u "неделя"; u "недель"].
Definition words_months : list str :=
  Eval vm_compute in [u "месяц"; u "месяца"; u "месяцев"].
Definition words_years : list str := Eval vm_compute in [u "год"; u "года"; u "лет"].

(** The pattern [через\s+(.{0,})]: the keyword, white space, and as group 1
    the rest of the line (the source writes the group with a star). *)
Definition re_relative : regex :=
  Cat (lits kw_cherez) (Cat (plus space) (Group 1 (Many dot))).

(** The pattern [кажд(?:ые|ый|ое|ая)\s+(.{0,})], likewise. *)
Definition re_recurring : regex :=
  Cat (lits kw_kazhd)
      (Cat (alts (map lits endings_kazhd))
           (Cat (plus space) (Group 1 (Many dot)))).

(** The pattern [в\s+(\d{1,2})(?::(\d{2}))?]. *)
Definition re_absolute : regex :=
  Cat (lits kw_v)
      (Cat (plus space)
           (Cat (Group 1 (Cat digit (opt digit)))
                (opt (Cat (Lit 58) (Group 2 (Cat digit digit)))))).

(** The pattern [(\d+)\s{0,}(?:w1|w2|...)] of one unit of time (the source
    writes the white space with a star). *)
Definition unit_pattern (words : list str) : regex :=
  Cat (Group 1 (plus digit)) (Cat (Many space) (alts (map lits words))).

Definition time_patterns : list (regex * Z) :=
  [ (unit_pattern words_seconds, 1);
    (unit_pattern words_minutes, 60);
    (unit_pattern words_hours, 3600);
    (unit_pattern words_days, 86400);
    (unit_pattern words_weeks, 604800);
    (unit_pattern words_months, 2592000);
    (unit_pattern words_years, 31536000) ].

(** [int(match.group(n))]; the group always took part where this is used. *)
Definition int_group (n : nat) (m : groups) : Z :=
  match group n m with
  | Some d => int_of_digits d
  | None => 0
  end.

(** The two nested [for] loops that accumulate [seconds]. *)
Definition count_seconds (time_part : str) : Z :=
  fold_left
    (fun seconds (pm : regex * Z) =>
       fold_left (fun seconds m => seconds + int_group 1 m * snd pm)
                 (finditer (fst pm) time_part) seconds)
    time_patterns 0.

(** What a parser returns: [(next_run, is_recurring, recurrence_interval)]. *)
Definition parsed : Type := option datetime * bool * option Z.

Definition parse_failure : parsed := (None, false, None).

Definition time_part_after (r : regex) (time_spec : str) : str :=
  match search r (lower time_spec) with
  | Some m => match group 1 m with Some g => g | None => [] end
  | None => time_spec
  end.

Definition _parse_relative_time (time_spec : str) (now : datetime) : result parsed :=
  let time_part := time_part_after re_relative time_spec in
  let seconds := count_seconds time_part in
  if seconds =? 0 then Ret parse_failure
  else
    next_run <- add_seconds now seconds ;;
    Ret (Some next_run, false, None).

Definition _parse_recurring_time (time_spec : str) (now : datetime) : result parsed :=
  let time_part := time_part_after re_recurring time_spec in
  let seconds := count_seconds time_part in
  if seconds =? 0 then Ret parse_failure
  else
    next_run <- add_seconds now seconds ;;
    Ret (Some next_run, true, Some seconds).

Definition _parse_absolute_time (time_spec : str) (now : datetime) : result parsed :=
  match search re_absolute (lower time_spec) with
  | None => Ret parse_failure
  | Some m =>
      let hour := int_group 1 m in
      let minute := if truthy_str (group 2 m) then int_group 2 m else 0 in
      target_time <- replace_time now hour minute ;;
      target_time <- (if target_time <=? now then add_days target_time 1
                      else Ret target_time) ;;
      let is_recurring := contains kw_ezhednevno (lower time_spec)
                          || contains kw_kazhdyj_den (lower time_spec) in
      let recurrence_interval := if is_recurring then Some 86400 else None in
      Ret (Some target_time, is_recurring, recurrence_interval)
  end.

(** The [for parser in [...]: try: ... except: continue] of the fallback. *)
Fixpoint try_parsers (parsers : list (str -> datetime -> result parsed))
                     (time_spec : str) (now : datetime) : result parsed :=
  match parsers with
  | [] => Ret parse_failure
  | parser :: rest =>
      match parser time_spec now with
      | Ret (Some next_run, is_recurring, interval) =>
          Ret (Some next_run, is_recurring, interval)
      | _ => try_parsers rest time_spec now
      end
  end.

Definition _parse_time_spec (time_spec : str) (now : datetime) : result parsed :=
  if contains kw_cherez (lower time_spec) then _parse_relative_time time_spec now
  else if contains kw_kazhd (lower time_spec) then _parse_recurring_time time_spec now
  else if contains kw_v_space (lower time_spec) then _parse_absolute_time time_spec now
  else try_parsers [_parse_relative_time; _parse_recurring_time; _parse_absolute_time]
                   time_spec now.

(* ================================================================== *)
(** ** Timers and the timer dictionary *)

Inductive status : Type := active | cancelled | completed.

Definition status_eqb (a b : status) : bool :=
  match a, b with
  | active, active | cancelled, cancelled | completed, completed => true
  | _, _ => false
  end.

(** One timer, with the keys of the source's dictionary.  [next_run] and
    [created_at] are epoch timestamps, [recurrence_interval] is in seconds. *)
Record timer : Type := mk_timer {
  timer_id : str;
  name : str;
  time_spec : str;
  next_run : Z;
  is_recurring : bool;
  recurrence_interval : option Z;
  action : option str;
  procedure : option str;
  created_at : Z;
  timer_status : status
}.

Definition set_name (v : str) (t : timer) : timer :=
  mk_timer (timer_id t) v (time_spec t) (next_run t) (is_recurring t)
           (recurrence_interval t) (action t) (procedure t) (created_at t)
           (timer_status t).
Definition set_action (v : option str) (t : timer) : timer :=
  mk_timer (timer_id t) (name t) (time_spec t) (next_run t) (is_recurring t)
           (recurrence_interval t) v (procedure t) (created_at t) (timer_status t).
Definition set_procedure (v : option str) (t : timer) : timer :=
  mk_timer (timer_id t) (name t) (time_spec t) (next_run t) (is_recurring t)
           (recurrence_interval t) (action t) v (created_at t) (timer_status t).
Definition set_next_run (v : Z) (t : timer) : timer :=
  mk_timer (timer_id t) (name t) (time_spec t) v (is_recurring t)
           (recurrence_interval t) (action t) (procedure t) (created_at t)
           (timer_status t).
Definition set_status (v : status) (t : timer) : timer :=
  mk_timer (timer_id t) (name t) (time_spec t) (next_run t) (is_recurring t)
           (recurrence_interval t) (action t) (procedure t) (created_at t) v.
(** The four assignments that follow a successful re-parse in [edit_timer]. *)
Definition set_schedule (spec : str) (nr : Z) (rec : bool) (ivl : option Z)
                        (t : timer) : timer :=
  mk_timer (timer_id t) (name t) spec nr rec ivl (action t) (procedure t)
           (created_at t) (timer_status t).

(** [self.timers]: keys in insertion order, each key once. *)
Definition dict : Type := list (str * timer).

Fixpoint dict_get (k : str) (d : dict) : option timer :=
  match d with
  | [] => None
  | (k', v) :: d' => if str_eqb k' k then Some v else dict_get k d'
  end.

(** [d[k] = v]: an existing key keeps its place, a new key goes last. *)
Fixpoint dict_set (k : str) (v : timer) (d : dict) : dict :=
  match d with
  | [] => [(k, v)]
  | (k', v') :: d' =>
      if str_eqb k' k then (k', v) :: d' else (k', v') :: dict_set k v d'
  end.

(** An assignment to a field of the record stored under [k].  The source
    holds a reference to the record and assigns through it; the entry of the
    dictionary changes at once. *)
Fixpoint dict_update (k : str) (f : timer -> timer) (d : dict) : dict :=
  match d with
  | [] => []
  | (k', v) :: d' =>
      if str_eqb k' k then (k', f v) :: d' else (k', v) :: dict_update k f d'
  end.

Definition dict_keys (d : dict) : list str := map fst d.

(** Truth of [timer["recurrence_interval"]]: present and not zero. *)
Definition truthy_interval (o : option Z) : bool :=
  match o with
  | Some i => negb (i =? 0)
  | None => false
  end.

Definition interval_us (o : option Z) : Z :=
  match o with
  | Some i => i * second_us
  | None => 0
  end.

(* ================================================================== *)
(** ** The catch-up arithmetic *)

(** The body of [_update_missed_recurring_timers] for one stale timer:
    [missed_intervals = int((now - next_run) // interval) + 1] and
    [new_next_run = next_run + missed_intervals * interval]; all three
    arguments in the same unit of time. *)
Definition catch_up (next_run interval now : Z) : Z :=
  let missed_intervals := (now - next_run) / interval + 1 in
  next_run + missed_intervals * interval.

(** The rescheduling at the end of [_execute_timer]: the next occurrence is
    one interval on; when that is already past, [missed_intervals] is
    counted from it and added to the stored [next_run]. *)
Definition reschedule (timer_next_run interval now : Z) : Z :=
  let next_run := timer_next_run + interval in
  if next_run <? now then
    let missed_intervals := (now - next_run) / interval + 1 in
    timer_next_run + missed_intervals * interval
  else next_run.

Definition update_missed_timer (now : Z) (t : timer) : timer :=
  if negb (status_eqb (timer_status t) active) || negb (is_recurring t) then t
  else if (next_run t <? now) && truthy_interval (recurrence_interval t) then
    set_next_run (catch_up (next_run t) (interval_us (recurrence_interval t)) now) t
  else t.

Definition _update_missed_recurring_timers (now : Z) (d : dict) : dict :=
  map (fun kv : str * timer => (fst kv, update_missed_timer now (snd kv))) d.

(* ================================================================== *)
(** ** The tool: its state and what it reads from outside *)

(** The agent as far as the engine touches it: whether [agent.toolset] has
    a [task_tool], the descriptions handed to [create_task], and the
    messages put in the inbox.  A task or a message is kept as the pair of
    the timer's name and its action, the two values its text is built from. *)
Record agent_state : Type := mk_agent {
  has_task_tool : bool;
  tasks : list (str * str);
  inbox : list (str * str)
}.

(** [self.timers], the value stored in Redis under ["agent:timers"] ([None]
    when the key is absent), and [self.agent]. *)
Record state : Type := mk_state {
  timers : dict;
  redis : option dict;
  agent : option agent_state
}.

Definition with_timers (d : dict) (st : state) : state :=
  mk_state d (redis st) (agent st).

(** What one call reads from its environment: the clock, the identifier
    [str(uuid.uuid4())[:8]] would produce, whether Redis answers, and how the
    procedure and the call to the task sink (or inbox) end ([None]: they
    return; [Some e]: they raise [e]).  Successive readings of the clock
    within one call are identified. *)
Record env : Type := mk_env {
  now : datetime;
  uuid4 : str;
  redis_up : bool;
  procedure_raises : option exn;
  sink_raises : option exn
}.

(** One entry of the listing [list_timers] prints. *)
Record row : Type := mk_row {
  row_id : str;
  row_name : str;
  row_recurring : bool;
  row_next_run : datetime;
  row_time_left : option (Z * Z * Z * Z);
  row_has_action : bool;
  row_has_procedure : bool
}.

(** The result strings, by the message and the values interpolated in it. *)
Inductive reply : Type :=
| ParseFailed (time_spec : str)
| CreatedRecurring (name id : str) (next_run : datetime) (interval : option Z)
| CreatedOneShot (name id : str) (next_run : datetime)
| CreateFailed (e : exn)
| NoActiveTimers
| ActiveTimers (n : nat) (rows : list row)
| NotFound (id : str)
| TimerCancelled (name id : str)
| Details (t : timer) (next_run created : datetime)
| ProcedureInvalid (e : exn)
| TimerUpdated (name id : str).

(** [try: body except Exception as e: handler(e)] around a computation on the
    state: an exception that derives from [Exception] is handled in the state
    the body left, any other goes on. *)
Definition try_except {A : Type} (body : result A * state) (handler : exn -> A)
  : result A * state :=
  match body with
  | (Raise e, st) => if is_Exception e then (Ret (handler e), st) else (Raise e, st)
  | r => r
  end.

Definition timer_prefix : str := Eval vm_compute in u "Timer-".

Section TimerTool.

(** [datetime.timestamp()] and [datetime.fromtimestamp()] for the local time
    zone, and [ast.parse] as the position of the first syntax error, if
    any. *)
Variable timestamp : datetime -> Z.
Variable fromtimestamp : Z -> datetime.
Variable ast_parse : str -> option (Z * Z).

Definition _validate_python_code (code : str) : result unit :=
  match ast_parse code with
  | None => Ret tt
  | Some (line_no, offset) => Raise (SyntaxError line_no offset)
  end.

Definition _save_timer_to_redis (e : env) (t : timer) (st : state) : state :=
  let d := dict_set (timer_id t) t (timers st) in
  mk_state d (if redis_up e then Some d else redis st) (agent st).

(** Saving the record now stored under [k]. *)
Definition save_entry (e : env) (k : str) (st : state) : state :=
  match dict_get k (timers st) with
  | Some t => _save_timer_to_redis e t st
  | None => st
  end.

Definition default_name (timer_id : str) : str := timer_prefix ++ timer_id.

(** The arguments [name], [action] and [procedure] are written [name_],
    [action_] and [procedure_] (and [time_spec_] in [edit_timer]) to keep
    them apart from the fields of a timer. *)
Definition create_timer (e : env) (time_spec_ : str)
                        (name_ action_ procedure_ : option str)
                        (st : state) : result reply * state :=
  try_except
    (match (if truthy_str procedure_
            then _validate_python_code (match procedure_ with Some p => p | None => [] end)
            else Ret tt) with
     | Raise ex => (Raise ex, st)
     | Ret _ =>
         let id := uuid4 e in
         let nm := if truthy_str name_
                   then match name_ with Some n => n | None => [] end
                   else default_name id in
         match _parse_time_spec time_spec_ (now e) with
         | Raise ex => (Raise ex, st)
         | Ret (None, _, _) => (Ret (ParseFailed time_spec_), st)
         | Ret (Some next_run, is_recurring, recurrence_interval) =>
             let t := mk_timer id nm time_spec_ (timestamp next_run)
                               is_recurring recurrence_interval action_ procedure_
                               (timestamp (now e)) active in
             let st := with_timers (dict_set id t (timers st)) st in
             let st := _save_timer_to_redis e t st in
             (Ret (if is_recurring
                   then CreatedRecurring nm id next_run recurrence_interval
                   else CreatedOneShot nm id next_run), st)
         end
     end)
    CreateFailed.

(** The remaining time shown by [list_timers]: [None] when the timer is
    overdue, else days, hours, minutes and seconds. *)
Definition time_left (next_run now : datetime) : option (Z * Z * Z * Z) :=
  let delta := next_run - now in
  if delta <? 0 then None
  else
    let days := delta / day_us in
    let secs := (delta mod day_us) / second_us in
    let hours := secs / 3600 in
    let remainder := secs mod 3600 in
    Some (days, hours, remainder / 60, remainder mod 60).

Definition is_active (kv : str * timer) : bool :=
  status_eqb (timer_status (snd kv)) active.

Definition list_row (e : env) (kv : str * timer) : row :=
  let t := snd kv in
  let next_run := fromtimestamp (next_run t) in
  mk_row (fst kv) (name t) (is_recurring t) next_run (time_left next_run (now e))
         (truthy_str (action t)) (truthy_str (procedure t)).

Definition list_timers (e : env) (st : state) : result reply * state :=
  let active_timers := filter is_active (timers st) in
  match active_timers with
  | [] => (Ret NoActiveTimers, st)
  | _ => (Ret (ActiveTimers (length active_timers) (map (list_row e) active_timers)), st)
  end.

(** [cancel_timer] tests no status.  (Its last step clears the entry of
    [timer_threads], a table nothing else reads; it is left out.) *)
Definition cancel_timer (e : env) (id : str) (st : state) : result reply * state :=
  match dict_get id (timers st) with
  | None => (Ret (NotFound id), st)
  | Some t =>
      let st := with_timers (dict_update id (set_status cancelled) (timers st)) st in
      let st := save_entry e id st in
      (Ret (TimerCancelled (name t) id), st)
  end.

Definition get_timer_details (id : str) (st : state) : result reply * state :=
  match dict_get id (timers st) with
  | None => (Ret (NotFound id), st)
  | Some t => (Ret (Details t (fromtimestamp (next_run t)) (fromtimestamp (created_at t))), st)
  end.

(** The assignments of [edit_timer] that follow the validation of the
    procedure: name, action, then the schedule. *)
Definition edit_fields (e : env) (id : str) (time_spec_ name_ action_ : option str)
                       (st : state) : result reply * state :=
  let st := match name_ with
            | Some n => with_timers (dict_update id (set_name n) (timers st)) st
            | None => st
            end in
  let st := match action_ with
            | Some a => with_timers (dict_update id (set_action (Some a)) (timers st)) st
            | None => st
            end in
  let finish (st : state) : result reply * state :=
    let st := save_entry e id st in
    (Ret (TimerUpdated (match dict_get id (timers st) with
                        | Some t => name t
                        | None => []
                        end) id), st) in
  match time_spec_ with
  | None => finish st
  | Some spec =>
      match _parse_time_spec spec (now e) with
      | Raise ex => (Raise ex, st)
      | Ret (None, _, _) => (Ret (ParseFailed spec), st)
      | Ret (Some next_run, is_recurring, recurrence_interval) =>
          finish (with_timers
                    (dict_update id
                       (set_schedule spec (timestamp next_run) is_recurring
                                     recurrence_interval)
                       (timers st)) st)
      end
  end.

Definition edit_timer (e : env) (id : str)
                      (time_spec_ name_ action_ procedure_ : option str)
                      (st : state) : result reply * state :=
  match dict_get id (timers st) with
  | None => (Ret (NotFound id), st)
  | Some _ =>
      match procedure_ with
      | Some p =>
          match _validate_python_code p with
          | Raise ex =>
              if is_Exception ex then (Ret (ProcedureInvalid ex), st) else (Raise ex, st)
          | Ret _ =>
              edit_fields e id time_spec_ name_ action_
                (with_timers (dict_update id (set_procedure (Some p)) (timers st)) st)
          end
      | None => edit_fields e id time_spec_ name_ action_ st
      end
  end.

(** Step 2 of a firing: [exec] of the procedure inside its own
    [try ... except Exception].  What the procedure does to the rest of the
    process is outside the model; only how it ends is read from [e]. *)
Definition run_procedure (e : env) (t : timer) (st : state) : result unit * state :=
  if truthy_str (procedure t) then
    try_except
      (match procedure_raises e with
       | None => (Ret tt, st)
       | Some ex => (Raise ex, st)
       end)
      (fun _ => tt)
  else (Ret tt, st).

(** Step 3: the action goes to [task_tool.create_task] when the toolset has
    one, else to the inbox; also inside its own [try ... except Exception]. *)
Definition run_action (e : env) (t : timer) (st : state) : result unit * state :=
  match action t, agent st with
  | Some (c :: a), Some ag =>
      try_except
        (match sink_raises e with
         | Some ex => (Raise ex, st)
         | None =>
             let ag' :=
               if has_task_tool ag
               then mk_agent (has_task_tool ag) (tasks ag ++ [(name t, c :: a)]) (inbox ag)
               else mk_agent (has_task_tool ag) (tasks ag) (inbox ag ++ [(name t, c :: a)]) in
             (Ret tt, mk_state (timers st) (redis st) (Some ag'))
         end)
        (fun _ => tt)
  | _, _ => (Ret tt, st)
  end.

(** Step 4: a recurring timer gets its next occurrence, any other timer is
    marked completed; the record is saved either way. *)
Definition finish_firing (e : env) (id : str) (t : timer) (st : state) : state :=
  if is_recurring t && truthy_interval (recurrence_interval t) then
    let next := reschedule (next_run t) (interval_us (recurrence_interval t))
                           (timestamp (now e)) in
    save_entry e id (with_timers (dict_update id (set_next_run next) (timers st)) st)
  else
    save_entry e id (with_timers (dict_update id (set_status completed) (timers st)) st).

Definition _execute_timer (e : env) (id : str) (st : state) : result unit * state :=
  try_except
    (match dict_get id (timers st) with
     | None => (Ret tt, st)
     | Some t =>
         if negb (status_eqb (timer_status t) active) then (Ret tt, st)
         else
           match run_procedure e t st with
           | (Raise ex, st1) => (Raise ex, st1)
           | (Ret _, st1) =>
               match run_action e t st1 with
               | (Raise ex, st2) => (Raise ex, st2)
               | (Ret _, st2) => (Ret tt, finish_firing e id t st2)
               end
           end
     end)
    (fun _ => tt).

(** One pass of [_timer_check_loop]: the timers it starts a thread for. *)
Definition is_due (now_ts : Z) (kv : str * timer) : bool :=
  is_active kv && (next_run (snd kv) <=? now_ts).

Definition dispatched (e : env) (st : state) : list str :=
  dict_keys (filter (is_due (timestamp (now e))) (timers st)).

(** The pass with its firings run to the end one after the other, in the
    order they were started. *)
Definition tick (e : env) (st : state) : state :=
  fold_left (fun st id => snd (_execute_timer e id st)) (dispatched e st) st.

(** [_load_timers_from_redis], at start-up. *)
Definition _load_timers_from_redis (e : env) (st : state) : state :=
  if redis_up e then
    match redis st with
    | Some d => with_timers (_update_missed_recurring_timers (timestamp (now e)) d) st
    | None => with_timers [] st
    end
  else with_timers [] st.

(** The operations of the API and of the engine, and their runs. *)
Inductive op : Type :=
| Create (time_spec_ : str) (name_ action_ procedure_ : option str)
| Edit (id : str) (time_spec_ name_ action_ procedure_ : option str)
| Cancel (id : str)
| ListTimers
| Describe (id : str)
| Fire (id : str)
| Tick.

Definition run_op (e : env) (o : op) (st : state) : state :=
  match o with
  | Create ts n a p => snd (create_timer e ts n a p st)
  | Edit id ts n a p => snd (edit_timer e id ts n a p st)
  | Cancel id => snd (cancel_timer e id st)
  | ListTimers => snd (list_timers e st)
  | Describe id => snd (get_timer_details id st)
  | Fire id => snd (_execute_timer e id st)
  | Tick => tick e st
  end.

Definition run (trace : list (env * op)) (st : state) : state :=
  fold_left (fun st eo => run_op (fst eo) (snd eo) st) trace st.

End TimerTool.

(* ================================================================== *)
(** ** Time specs as the specification describes them

    The specification speaks of a keyword followed by quantity-unit tokens.
    The definitions of this part follow its words; the properties below
    compare them with the parser. *)

Inductive unit_of_time : Type :=
| Seconds | Minutes | Hours | Days | Weeks | Months | Years.

Definition unit_eqb (a b : unit_of_time) : bool :=
  match a, b with
  | Seconds, Seconds | Minutes, Minutes | Hours, Hours | Days, Days
  | Weeks, Weeks | Months, Months | Years, Years => true
  | _, _ => false
  end.

Definition all_units : list unit_of_time :=
  [Seconds; Minutes; Hours; Days; Weeks; Months; Years].

(** The spellings a unit is recognised by, and its length in seconds (a
    month is 30 days, a year 365). *)
Definition unit_words (x : unit_of_time) : list str :=
  match x with
  | Seconds => words_seconds
  | Minutes => words_minutes
  | Hours => words_hours
  | Days => words_days
  | Weeks => words_weeks
  | Months => words_months
  | Years => words_years
  end.

Definition unit_seconds (x : unit_of_time) : Z :=
  match x with
  | Seconds => 1
  | Minutes => 60
  | Hours => 3600
  | Days => 86400
  | Weeks => 604800
  | Months => 2592000
  | Years => 31536000
  end.

(** A character that is no digit and does not end the line. *)
Definition plain (c : Z) : bool := negb (is_digit c) && is_dot c.

(** One token: the digits of the quantity, optional white space, one of the
    spellings of the unit, and whatever follows up to the next quantity (an
    inflection, a separator, other words). *)
Record token : Type := mk_token {
  tk_quantity : str;
  tk_gap : str;
  tk_unit : unit_of_time;
  tk_word : str;
  tk_tail : str
}.

Definition token_ok (t : token) : bool :=
  match tk_quantity t with [] => false | _ :: _ => true end
  && forallb is_digit (tk_quantity t)
  && forallb (fun c => is_space c && is_dot c) (tk_gap t)
  && existsb (str_eqb (tk_word t)) (unit_words (tk_unit t))
  && forallb plain (tk_tail t).

Definition token_text (t : token) : str :=
  tk_quantity t ++ tk_gap t ++ tk_word t ++ tk_tail t.

Definition tokens_text (toks : list token) : str := concat (map token_text toks).

(** The quantity of a token converted to seconds, and the sum over a spec. *)
Definition token_seconds (t : token) : Z :=
  int_of_digits (tk_quantity t) * unit_seconds (tk_unit t).

Definition total_seconds (toks : list token) : Z :=
  fold_right (fun t acc => token_seconds t + acc) 0 toks.


(** A recurring spec: one of the four forms of the keyword, white space,
    then the tokens. *)
Definition recurring_text (ending ws filler : str) (toks : list token) : str :=
  kw_kazhd ++ ending ++ ws ++ filler ++ tokens_text toks.

(** An absolute spec: the keyword, white space, one or two digits of the
    hour and, optionally, a colon and two digits of the minutes. *)
Definition absolute_text (ws hh : str) (mm : option str) : str :=
  kw_v ++ ws ++ hh ++ match mm with Some m => 58 :: m | None => [] end.

(** The minutes, when given, are two digits. *)
Definition minutes_ok (mm : option str) : bool :=
  match mm with
  | Some m => Nat.eqb (length m) 2 && forallb is_digit m
  | None => true
  end.

(** A text without digits. *)
Definition no_digit (s : str) : bool := forallb (fun c => negb (is_digit c)) s.

(** Today at [h]:[m]:00. *)
Definition today_at (now : datetime) (h m : Z) : datetime :=
  midnight now + (h * 3600 + m * 60) * second_us.

(* ================================================================== *)
(** ** Readings of the store used in the statements *)

Definition status_of (id : str) (st : state) : option status :=
  option_map timer_status (dict_get id (timers st)).

Definition next_run_of (id : str) (st : state) : option Z :=
  option_map next_run (dict_get id (timers st)).

(** The rows of a listing are in ascending order of [next_run]. *)
Fixpoint sorted_rows (rows : list row) : bool :=
  match rows with
  | a :: (b :: _) as rest => (row_next_run a <=? row_next_run b) && sorted_rows rest
  | _ => true
  end.

(** A well-formed store: each key once, each record stored under its own
    [id], and a recurring record has an interval that is not zero (what
    [create_timer] and [edit_timer] write). *)
Definition record_ok (kv : str * timer) : Prop :=
  timer_id (snd kv) = fst kv
  /\ (is_recurring (snd kv) = true ->
      truthy_interval (recurrence_interval (snd kv)) = true).

Definition store_ok (st : state) : Prop :=
  NoDup (dict_keys (timers st)) /\ Forall record_ok (timers st).

(** [create_timer] draws an identifier that is not in use. *)
Definition fresh_op (e : env) (o : op) (st : state) : Prop :=
  match o with
  | Create _ _ _ _ => dict_get (uuid4 e) (timers st) = None
  | _ => True
  end.

(** How one operation may change the status of the timer [id], from
    [before] to [after] ([None]: no such timer). *)
Definition transition_ok (e : env) (o : op) (id : str)
                         (before : option timer) (after : option status) : Prop :=
  match before with
  | None =>
      after = None
      \/ (after = Some active /\ uuid4 e = id
          /\ exists ts n a p, o = Create ts n a p)
  | Some t =>
      match timer_status t with
      | cancelled => after = Some cancelled
      | completed =>
          after = Some completed \/ (after = Some cancelled /\ o = Cancel id)
      | active =>
          after = Some active
          \/ (after = Some cancelled /\ o = Cancel id)
          \/ (after = Some completed /\ is_recurring t = false
              /\ (o = Fire id \/ o = Tick))
      end
  end.


Section Runs.

Variable timestamp : datetime -> Z.
Variable fromtimestamp : Z -> datetime.
Variable ast_parse : str -> option (Z * Z).

(** Every [create_timer] of the run draws an identifier that is not in use
    when it is called. *)
Fixpoint fresh_ids (trace : list (env * op)) (st : state) : Prop :=
  match trace with
  | [] => True
  | eo :: rest =>
      fresh_op (fst eo) (snd eo) st
      /\ fresh_ids rest (run_op timestamp fromtimestamp ast_parse (fst eo) (snd eo) st)
  end.

End Runs.

(** The conversions of a process whose local time zone is UTC (the epoch is
    day 719163 of the calendar), and a stand-in for the Python parser that
    rejects one program. *)
Definition epoch_us : Z := 719162 * day_us.
Definition utc_timestamp (d : datetime) : Z := d - epoch_us.
Definition utc_fromtimestamp (t : Z) : datetime := t + epoch_us.
Definition bad_program : str := Eval vm_compute in u "def".
Definition toy_ast_parse (code : str) : option (Z * Z) :=
  if str_eqb code bad_program then Some (1, 4) else None.

(** Sample data of the examples. *)
Definition noon : datetime := 739000 * day_us + 12 * 3600 * second_us.




Definition spec_daily_1530 : str := Eval vm_compute in u "в 15:30 ежедневно".
Definition spec_25_00 : str := Eval vm_compute in u "в 25:00".
Definition spec_nonsense : str := Eval vm_compute in u "nonsense".
Definition spec_in_5_min : str := Eval vm_compute in u "через 5 минут".
Definition spec_every_10s : str := Eval vm_compute in u "каждые 10 секунд".

Definition id_a : str := Eval vm_compute in u "a1b2c3d4".
Definition id_b : str := Eval vm_compute in u "e5f6a7b8".

Definition env_at (t : datetime) (id : str) : env := mk_env t id true None None.

Definition empty_state : state := mk_state [] None (Some (mk_agent true [] [])).

Definition spec_in_1_min : str := Eval vm_compute in u "через 1 минуту".
Definition spec_9_every_day : str := Eval vm_compute in u "в 9:00 каждый день".
Definition name_report : str := Eval vm_compute in u "report".
Definition name_renamed : str := Eval vm_compute in u "renamed".
Definition action_ping : str := Eval vm_compute in u "ping".
Definition code_pass : str := Eval vm_compute in u "pass".

(** A store with one recurring timer, created at noon to run every 10
    seconds; and the clock 35 seconds later, when its first occurrence is 25
    seconds late. *)
Definition every_10s_state : state :=
  snd (create_timer utc_timestamp toy_ast_parse (env_at noon id_a)
                    spec_every_10s None (Some action_ping) (Some code_pass) empty_state).
Definition late_env : env := env_at (noon + 35 * second_us) id_b.

(** A firing on time with a procedure and a task sink that both raise, and
    one whose procedure ends the interpreter ([SystemExit] does not derive
    from [Exception]). *)
Definition exiting_env : env :=
  mk_env (noon + 10 * second_us) id_b true (Some BaseException_only) None.


(** A store with one one-shot timer named "report", due in 5 minutes. *)
Definition one_shot_state : state :=
  snd (create_timer utc_timestamp toy_ast_parse (env_at noon id_a)
                    spec_in_5_min (Some name_report) (Some action_ping) None empty_state).

(** The same store after a second timer, due in 1 minute, was created. *)
Definition two_timers_state : state :=
  snd (create_timer utc_timestamp toy_ast_parse (env_at noon id_b)
                    spec_in_1_min None None None one_shot_state).


(** A recurring timer found stale at start-up: due at second 0, every 10
    seconds, with the clock at second 25. *)
Definition stale_timer : timer :=
  mk_timer id_a name_report spec_every_10s 0 true (Some 10) None None 0 active.

(* ================================================================== *)
(** ** Auxiliary functions of the proofs *)

(** The longest prefix of [s] whose characters satisfy [p], and what is left
    after it. *)
Fixpoint take_while (p : Z -> bool) (s : str) : str :=
  match s with
  | x :: s' => if p x then x :: take_while p s' else []
  | [] => []
  end.

Fixpoint skip_while (p : Z -> bool) (s : str) : str :=
  match s with
  | x :: s' => if p x then skip_while p s' else s
  | [] => []
  end.

(** The first character satisfies [p]. *)
Definition headp (p : Z -> bool) (s : str) : bool :=
  match s with
  | x :: _ => p x
  | [] => false
  end.

(** The threads of a greedy repetition of one character class: the longest
    run first, then the shorter ones. *)
Fixpoint class_threads (p : Z -> bool) (s : str) (g : groups) : list thread :=
  match s with
  | x :: s' => if p x then class_threads p s' g ++ [(s, g)] else [(s, g)]
  | [] => [([], g)]
  end.

(** The first alternative of [words] that [s] starts with, as what is left of
    [s] after it. *)
Fixpoint first_word (words : list str) (s : str) : option str :=
  match words with
  | [] => None
  | w :: words' =>
      if startswith w s then Some (skipn (length w) s) else first_word words' s
  end.

(** Two words differ at a position both have. *)
Fixpoint clash (a b : str) : bool :=
  match a, b with
  | x :: a', y :: b' => negb (x =? y) || clash a' b'
  | _, _ => false
  end.

(** A regex that cannot start with a character of [p]. *)
Definition refuses (p : Z -> bool) (r : regex) : Prop :=
  forall s g, headp p s = true -> rmatch r s g = [].

(** Words that start with a character outside [p]. *)
Definition words_avoid (p : Z -> bool) (words : list str) : bool :=
  forallb (fun w => negb (headp p w) && match w with [] => false | _ => true end) words.

Definition units_clash (x y : unit_of_time) : bool :=
  forallb (fun w => forallb (fun w' => clash w w') (unit_words y)) (unit_words x).

Definition quantities_of (x : unit_of_time) (toks : list token) : list groups :=
  map (fun t => [(1%nat, tk_quantity t)])
      (filter (fun t => unit_eqb (tk_unit t) x) toks).

Definition unit_total (x : unit_of_time) (toks : list token) : Z :=
  fold_right (fun t acc => (if unit_eqb (tk_unit t) x then token_seconds t else 0) + acc)
             0 toks.

(** The hour and the optional minutes of the absolute pattern. *)
Definition re_hour_minutes : regex :=
  Cat (Group 1 (Cat digit (opt digit)))
      (opt (Cat (Lit 58) (Group 2 (Cat digit digit)))).

Definition minutes_text (mm : option str) : str :=
  match mm with Some m => 58 :: m | None => [] end.

(** Records that differ only in what an operation may rewrite keep the shape
    the store requires. *)
Definition keeps_record (f : timer -> timer) : Prop :=
  forall k t, record_ok (k, t) -> record_ok (k, f t).

(** Each record of [d'] comes from the record of [d] under the same key, and
    is related to it by [R]. *)
Definition evolves (R : timer -> timer -> Prop) (d d' : dict) : Prop :=
  forall q, match dict_get q d, dict_get q d' with
            | None, None => True
            | Some t, Some t' => R t t'
            | _, _ => False
            end.

(** What a firing may do to a record. *)
Definition fire_rel (t t' : timer) : Prop :=
  is_recurring t' = is_recurring t
  /\ (timer_status t' = timer_status t
      \/ (timer_status t = active /\ timer_status t' = completed
          /\ is_recurring t = false)).

Definition same_status (t t' : timer) : Prop := timer_status t' = timer_status t.

(** What [edit_timer] may have done to the state it started from. *)
Definition edited (st st' : state) : Prop :=
  store_ok st' /\ evolves same_status (timers st) (timers st').

(* ================================================================== *)
(** ** Further readings used in the statements *)

(** How start-up may change a record, with the clock at [now]: only
    [next_run] may differ; a record that is not both active and recurring is
    kept as it is; an active recurring record with a positive interval ends
    at or after [now], on its own grid and not before where it was. *)
Definition caught_up (now : Z) (t t' : timer) : Prop :=
  t' = set_next_run (next_run t') t
  /\ (timer_status t <> active \/ is_recurring t = false -> t' = t)
  /\ (forall i, timer_status t = active -> is_recurring t = true ->
                recurrence_interval t = Some i -> 0 < i ->
                now <= next_run t' /\ next_run t <= next_run t'
                /\ (next_run t' - next_run t) mod (i * second_us) = 0).

(** The reply reports a created timer. *)
Definition created (r : result reply) : bool :=
  match r with
  | Ret (CreatedRecurring _ _ _ _) | Ret (CreatedOneShot _ _ _) => true
  | _ => false
  end.

(** What [_save_timer_to_redis] leaves in Redis after a state [st]. *)
Definition persisted (e : env) (st st' : state) : Prop :=
  redis st' = if redis_up e then Some (timers st') else redis st.




(* ================================================================== *)
(** ** [_format_recurrence_interval] *)

(** [str(n)] for an integer: its decimal digits, after a minus sign when it
    is negative. *)
Fixpoint digits_n (fuel : nat) (n : Z) (acc : str) : str :=
  match fuel with
  | O => acc
  | S fuel' =>
      let acc' := (48 + n mod 10) :: acc in
      if n <? 10 then acc' else digits_n fuel' (n / 10) acc'
  end.

Definition str_of_Z (n : Z) : str :=
  if n <? 0 then 45 :: digits_n (S (Z.to_nat (- n))) (- n) []
  else digits_n (S (Z.to_nat n)) n [].

Definition txt_unknown_interval : str := Eval vm_compute in u "неизвестный интервал".
Definition txt_kazhdye : str := Eval vm_compute in u "каждые ".
Definition txt_sekund : str := Eval vm_compute in u " секунд".
Definition txt_minut : str := Eval vm_compute in u " минут".
Definition txt_chas : str := Eval vm_compute in u " час".
Definition txt_u : str := Eval vm_compute in u "у".
Definition txt_y : str := Eval vm_compute in u "ы".
Definition txt_latin_a : str := Eval vm_compute in u "a".
Definition txt_ov : str := Eval vm_compute in u "ов".
Definition txt_den : str := Eval vm_compute in u "день".
Definition txt_dnya : str := Eval vm_compute in u "дня".
Definition txt_dnej : str := Eval vm_compute in u "дней".
Definition txt_nedelyu : str := Eval vm_compute in u "неделю".
Definition txt_nedeli : str := Eval vm_compute in u "недели".
Definition txt_nedel : str := Eval vm_compute in u "недель".
Definition txt_mesyac : str := Eval vm_compute in u "месяц".
Definition txt_mesyaca : str := Eval vm_compute in u "месяца".
Definition txt_mesyacev : str := Eval vm_compute in u "месяцев".
Definition txt_god : str := Eval vm_compute in u "год".
Definition txt_goda : str := Eval vm_compute in u "года".
Definition txt_let : str := Eval vm_compute in u "лет".

(** The interval of a recurring timer in words, as [create_timer] and
    [get_timer_details] show it.  (The suffix of 2 to 4 hours is the Latin
    letter the source has.) *)
Definition _format_recurrence_interval (seconds : option Z) : str :=
  match seconds with
  | None => txt_unknown_interval
  | Some seconds =>
      if seconds <? 60 then txt_kazhdye ++ str_of_Z seconds ++ txt_sekund
      else if seconds <? 3600 then
        let minutes := seconds / 60 in
        txt_kazhdye ++ str_of_Z minutes ++ txt_minut
          ++ (if minutes =? 1 then txt_u else if minutes <? 5 then txt_y else [])
      else if seconds <? 86400 then
        let hours := seconds / 3600 in
        txt_kazhdye ++ str_of_Z hours ++ txt_chas
          ++ (if (1 <? hours) && (hours <? 5) then txt_latin_a
              else if 5 <=? hours then txt_ov else [])
      else if seconds <? 604800 then
        let days := seconds / 86400 in
        txt_kazhdye ++ str_of_Z days ++ [32]
          ++ (if days =? 1 then txt_den else if days <? 5 then txt_dnya else txt_dnej)
      else if seconds <? 2592000 then
        let weeks := seconds / 604800 in
        txt_kazhdye ++ str_of_Z weeks ++ [32]
          ++ (if weeks =? 1 then txt_nedelyu
              else if weeks <? 5 then txt_nedeli else txt_nedel)
      else if seconds <? 31536000 then
        let months := seconds / 2592000 in
        txt_kazhdye ++ str_of_Z months ++ [32]
          ++ (if months =? 1 then txt_mesyac
              else if months <? 5 then txt_mesyaca else txt_mesyacev)
      else
        let years := seconds / 31536000 in
        txt_kazhdye ++ str_of_Z years ++ [32]
          ++ (if years =? 1 then txt_god else if years <? 5 then txt_goda else txt_let)
  end.

(** The unit an interval is shown in: the largest one that fits. *)
Definition shown_unit (seconds : Z) : unit_of_time :=
  if seconds <? 60 then Seconds
  else if seconds <? 3600 then Minutes
  else if seconds <? 86400 then Hours
  else if seconds <? 604800 then Days
  else if seconds <? 2592000 then Weeks
  else if seconds <? 31536000 then Months
  else Years.

(** The interval that is shown: whole units, rounded down. *)
Definition shown_seconds (seconds : Z) : Z :=
  seconds / unit_seconds (shown_unit seconds) * unit_seconds (shown_unit seconds).

(** *** Readings of the parser used in the statements *)

(** A match of a unit pattern captures a run of digits as group 1. *)
Definition quantity_match (m : groups) : Prop :=
  exists q, m = [(1%nat, q)] /\ forallb is_digit q = true.

(** What a successful parse promises: [next_run] is strictly after [now]; a
    recurring result has a positive interval and its first occurrence is at
    most one interval away; a one-shot result has no interval. *)
Definition schedule_ok (now : datetime) (r : result parsed) : Prop :=
  match r with
  | Ret (Some next_run, true, Some i) =>
      now < next_run /\ 0 < i /\ next_run - now <= i * second_us
  | Ret (Some next_run, false, None) => now < next_run
  | Ret (Some _, _, _) => False
  | Ret (None, _, _) => True
  | Raise _ => True
  end.

(* ================================================================== *)
(** ** [TimerMonitor]

    The monitor of [components/monitoring/timer_monitor.py], which reads the
    dictionary of the timer tool, with [BaseMonitor.wrap_in_xml]. *)

Definition txt_no_active_timers : str := Eval vm_compute in u "Нет активных таймеров.".
Definition txt_no_active : str := Eval vm_compute in u "Нет активных таймеров".
Definition txt_now : str := Eval vm_compute in u "сейчас".
Definition txt_days_sign : str := Eval vm_compute in u "д".
Definition txt_hours_sign : str := Eval vm_compute in u "ч".
Definition txt_minutes_sign : str := Eval vm_compute in u "м".
Definition txt_seconds_sign : str := Eval vm_compute in u "с".
Definition txt_recurring_sign : str := Eval vm_compute in u "🔄".
Definition txt_one_shot_sign : str := Eval vm_compute in u "⏱️".
Definition txt_action_sign : str := Eval vm_compute in u "💬".
Definition txt_procedure_sign : str := Eval vm_compute in u "🔧".
Definition txt_and_more : str := Eval vm_compute in u "... и еще ".
Definition txt_more_timers : str := Eval vm_compute in u " таймеров".
Definition txt_amp : str := Eval vm_compute in u "&amp;".
Definition txt_gt : str := Eval vm_compute in u "&gt;".
Definition txt_lt : str := Eval vm_compute in u "&lt;".
Definition txt_timers : str := Eval vm_compute in u "timers".
Definition txt_source : str := Eval vm_compute in u "source".
Definition txt_timer_manager : str := Eval vm_compute in u "timer_manager".

(** [sep.join(parts)]. *)
Fixpoint join (sep : str) (parts : list str) : str :=
  match parts with
  | [] => []
  | [p] => p
  | p :: rest => p ++ sep ++ join sep rest
  end.

(** [sorted(items, key=lambda x: x[1]["next_run"])].  [sorted] is stable, so
    its result is the one of inserting each item, from the last to the
    first, before the first item that does not run earlier. *)
Fixpoint insert_by_next_run (kv : str * timer) (l : list (str * timer))
  : list (str * timer) :=
  match l with
  | [] => [kv]
  | kv' :: l' =>
      if next_run (snd kv) <=? next_run (snd kv') then kv :: l
      else kv' :: insert_by_next_run kv l'
  end.

Definition sorted_by_next_run (l : list (str * timer)) : list (str * timer) :=
  fold_right insert_by_next_run [] l.

(** [sorted_timers[:5]]: the timers the monitor shows. *)
Definition shown_timers (st : state) : list (str * timer) :=
  firstn 5 (sorted_by_next_run (filter is_active (timers st))).

(** The last line, when more than five timers are active. *)
Definition more_line (n : Z) : str := txt_and_more ++ str_of_Z n ++ txt_more_timers.

(** [time_left_str]: "сейчас" for an overdue timer, else the parts that are
    not leading zeros. *)
Definition time_left_str (next_run now : datetime) : str :=
  match time_left next_run now with
  | None => txt_now
  | Some (days, hours, minutes, seconds) =>
      join [32]
        ((if 0 <? days then [str_of_Z days ++ txt_days_sign] else [])
         ++ (if (0 <? hours) || (0 <? days)
             then [str_of_Z hours ++ txt_hours_sign] else [])
         ++ (if (0 <? minutes) || (0 <? hours) || (0 <? days)
             then [str_of_Z minutes ++ txt_minutes_sign] else [])
         ++ [str_of_Z seconds ++ txt_seconds_sign])
  end.

(** [xml.sax.saxutils.escape]: the three replacements it makes one after the
    other, which together replace each character once. *)
Definition escape_char (c : Z) : str :=
  if c =? 38 then txt_amp
  else if c =? 62 then txt_gt
  else if c =? 60 then txt_lt
  else [c].

Definition escape (s : str) : str := flat_map escape_char s.

(** [BaseMonitor.wrap_in_xml]: the content is escaped unless it has both a
    "<" and a ">". *)
Definition wrap_in_xml (tag content : str) (attributes : list (str * str)) : str :=
  let content :=
    if negb (contains [60] content) || negb (contains [62] content)
    then escape content else content in
  let attr_str :=
    match attributes with
    | [] => []
    | _ => [32] ++ join [32] (map (fun kv => fst kv ++ [61; 34] ++ snd kv ++ [34])
                                  attributes)
    end in
  [60] ++ tag ++ attr_str ++ [62] ++ content ++ [60; 47] ++ tag ++ [62].

Section TimerMonitor.

(** [datetime.fromtimestamp] and [strftime('%Y-%m-%d %H:%M:%S')]. *)
Variable fromtimestamp : Z -> datetime.
Variable strftime : datetime -> str.

Definition monitor_line (e : env) (kv : str * timer) : str :=
  let t := snd kv in
  let next_run := fromtimestamp (next_run t) in
  (if is_recurring t then txt_recurring_sign else txt_one_shot_sign)
    ++ [32] ++ name t ++ [32; 40] ++ fst kv ++ [41; 58; 32] ++ strftime next_run
    ++ [32; 40] ++ time_left_str next_run (now e) ++ [41; 32]
    ++ (if truthy_str (action t) then txt_action_sign else [])
    ++ (if truthy_str (procedure t) then txt_procedure_sign else []).

Definition get_raw_data (e : env) (st : state) : str :=
  let active_timers := filter is_active (timers st) in
  match active_timers with
  | [] => txt_no_active_timers
  | _ =>
      let result := map (monitor_line e) (shown_timers st) in
      let result :=
        if (5 <? length active_timers)%nat
        then result ++ [more_line (Z.of_nat (length active_timers) - 5)]
        else result in
      join [10] result
  end.

Definition render (e : env) (st : state) : str :=
  let content := get_raw_data e st in
  if contains txt_no_active content then []
  else wrap_in_xml txt_timers ([10] ++ content ++ [10])
                   [(txt_source, txt_timer_manager)].

End TimerMonitor.

(** *** Readings of the monitor used in the statements *)

(** [a] does not run after [b]; and the timers that run at [k]. *)
Definition next_run_le (a b : str * timer) : Prop :=
  next_run (snd a) <= next_run (snd b).

Definition runs_at (k : Z) (kv : str * timer) : bool := next_run (snd kv) =? k.

(** A store with one timer whose name is the phrase the monitor prints when
    nothing is active, and a [strftime] that prints nothing. *)
Definition hidden_state : state :=
  snd (create_timer utc_timestamp toy_ast_parse (env_at noon id_a)
                    spec_in_5_min (Some txt_no_active) None None empty_state).

Definition no_strftime (d : datetime) : str := [].

(* ================================================================== *)
(** ** [StaffTimerUtils]

    The callers of [create_timer] in
    [components/tools/staff/staff_timer_utils.py]. *)

(** A staff record: the entries of the dictionary that are read, [None] for
    a key that is absent. *)
Record staff : Type := mk_staff {
  full_name : option str;
  telegram_username : option str;
  task_planning_at : option str;
  task_reporting_at : option str
}.

Definition txt_staff_default : str := Eval vm_compute in u "Сотрудник".
Definition txt_None : str := Eval vm_compute in u "None".
Definition txt_task_planning : str := Eval vm_compute in u "Task Planning - ".
Definition txt_task_reporting : str := Eval vm_compute in u "Task Reporting - ".
Definition txt_task_planning_at : str := Eval vm_compute in u "task_planning_at".
Definition txt_task_reporting_at : str := Eval vm_compute in u "task_reporting_at".
Definition txt_daily : str := Eval vm_compute in u " ежедневно".
Definition txt_sync_name : str := Eval vm_compute in u "Синхронизация задач с Redis".
Definition txt_sync_spec : str := Eval vm_compute in u "каждые 30 минут".
Definition txt_sync_action : str :=
  Eval vm_compute in
    u "Синхронизировать задачи сотрудников с Redis. Используй staff_tool.sync_sheet_tasks_with_redis() для обновления данных в Redis.".

Definition txt_morning : str :=
  Eval vm_compute in u "Отправить утреннее сообщение сотруднику ".
Definition txt_evening : str :=
  Eval vm_compute in u "Отправить вечернее сообщение сотруднику ".
Definition txt_open : str := Eval vm_compute in u " (".
Definition txt_step_1 : str :=
  Eval vm_compute in u "). 1. Используй send_telegram_message_to('".
Definition txt_planning_step_2 : str :=
  Eval vm_compute in
    u "', сообщение). 2. Используй read_sheet('ВСЕЗАДАЧИ') для получения всех задач и фильтруй по имени сотрудника '".
Definition txt_planning_step_3 : str :=
  Eval vm_compute in u "'. 3. В сообщении обратись к сотруднику по имени '".
Definition txt_planning_steps_4_5 : str :=
  Eval vm_compute in
    u "'. 4. Попроси прокомментировать (аудио не более одной минуты) задачи текущего периода и сегодняшние действия. 5. Укажи общую сумму задач и количество выполненных задач, если доступно.".
Definition txt_reporting_step_2 : str :=
  Eval vm_compute in u "', сообщение). 2. В сообщении обратись к сотруднику по имени '".
Definition txt_reporting_step_3 : str :=
  Eval vm_compute in
    u "'. 3. Попроси прокомментировать (аудио не более одной минуты) сегодняшние действия и проговорить задачи в целом, включая их корректировки по результатам сегодняшнего дня.".

(** [s.split()]: the maximal runs of characters that are not white space. *)
Fixpoint split_from (cur : str) (s : str) : list str :=
  match s with
  | [] => match cur with [] => [] | _ => [rev cur] end
  | c :: s' =>
      if is_space c then
        match cur with
        | [] => split_from [] s'
        | _ => rev cur :: split_from [] s'
        end
      else split_from (c :: cur) s'
  end.

Definition split (s : str) : list str := split_from [] s.

(** [staff.get('full_name', 'Сотрудник')], and a value as an f-string
    prints it. *)
Definition staff_name_of (s : staff) : str :=
  match full_name s with Some n => n | None => txt_staff_default end.

Definition shown (o : option str) : str :=
  match o with Some v => v | None => txt_None end.

(** The second word of the name, or the whole name when it has one word. *)
Definition first_name_of (staff_name : str) : str :=
  match split staff_name with
  | _ :: second :: _ => second
  | _ => staff_name
  end.

Definition create_planning_action (s : staff) : str :=
  let staff_name := staff_name_of s in
  txt_morning ++ staff_name ++ txt_open ++ shown (telegram_username s)
    ++ txt_step_1 ++ shown (telegram_username s)
    ++ txt_planning_step_2 ++ staff_name
    ++ txt_planning_step_3 ++ first_name_of staff_name
    ++ txt_planning_steps_4_5.

Definition create_reporting_action (s : staff) : str :=
  let staff_name := staff_name_of s in
  txt_evening ++ staff_name ++ txt_open ++ shown (telegram_username s)
    ++ txt_step_1 ++ shown (telegram_username s)
    ++ txt_reporting_step_2 ++ first_name_of staff_name
    ++ txt_reporting_step_3.

(** What the set-up functions return: their own messages, or the message of
    [create_timer]. *)
Inductive staff_reply : Type :=
| ToolNotAvailable
| MissingFields (field staff_name : str)
| ToolReply (r : reply)
| SetupFailed (e : exn).

Section StaffTimerUtils.

Variable timestamp : datetime -> Z.
Variable ast_parse : str -> option (Z * Z).

(** [result = timer_tool.create_timer(...)] inside the [try ... except
    Exception] of a set-up function. *)
Definition create_for_staff (e : env) (time_spec_ timer_name action_ : str) (st : state)
  : result staff_reply * option state :=
  match create_timer timestamp ast_parse e time_spec_ (Some timer_name) (Some action_)
                     None st with
  | (Ret r, st') => (Ret (ToolReply r), Some st')
  | (Raise ex, st') =>
      if is_Exception ex then (Ret (SetupFailed ex), Some st')
      else (Raise ex, Some st')
  end.

(** [timer_tool] is [None] when there is no tool. *)
Definition setup_task_planning_timer (e : env) (s : staff) (timer_tool : option state)
  : result staff_reply * option state :=
  match timer_tool with
  | None => (Ret ToolNotAvailable, None)
  | Some st =>
      let staff_name := staff_name_of s in
      let planning_time := task_planning_at s in
      if negb (truthy_str (telegram_username s)) || negb (truthy_str planning_time)
      then (Ret (MissingFields txt_task_planning_at staff_name), Some st)
      else
        let timer_name := txt_task_planning ++ staff_name in
        let time_spec_ := kw_v_space ++ shown planning_time ++ txt_daily in
        create_for_staff e time_spec_ timer_name (create_planning_action s) st
  end.

Definition setup_task_reporting_timer (e : env) (s : staff) (timer_tool : option state)
  : result staff_reply * option state :=
  match timer_tool with
  | None => (Ret ToolNotAvailable, None)
  | Some st =>
      let staff_name := staff_name_of s in
      let reporting_time := task_reporting_at s in
      if negb (truthy_str (telegram_username s)) || negb (truthy_str reporting_time)
      then (Ret (MissingFields txt_task_reporting_at staff_name), Some st)
      else
        let timer_name := txt_task_reporting ++ staff_name in
        let time_spec_ := kw_v_space ++ shown reporting_time ++ txt_daily in
        create_for_staff e time_spec_ timer_name (create_reporting_action s) st
  end.

Definition setup_task_sync_timer (e : env) (timer_tool : option state)
  : result staff_reply * option state :=
  match timer_tool with
  | None => (Ret ToolNotAvailable, None)
  | Some st => create_for_staff e txt_sync_spec txt_sync_name txt_sync_action st
  end.

End StaffTimerUtils.

(** *** Readings of the staff timers used in the statements *)

(** Today at the hour and minute written [hh] and [mm], or tomorrow at that
    time when today's is not after [now]. *)
Definition next_at (now : datetime) (hh : str) (mm : option str) : datetime :=
  let today := today_at now (int_of_digits hh)
                        (match mm with Some m => int_of_digits m | None => 0 end) in
  if today <=? now then today + day_us else today.

(** The conditions on a time of day [hh] or [hh]:[mm]. *)
Definition time_of_day_ok (hh : str) (mm : option str) : bool :=
  (Nat.eqb (length hh) 1 || Nat.eqb (length hh) 2)
  && forallb is_digit hh && minutes_ok mm
  && (int_of_digits hh <=? 23)
  && (match mm with Some m => int_of_digits m | None => 0 end <=? 59).

(** A staff member with a planning time and a reporting time. *)
Definition staff_ivanov : staff :=
  Eval vm_compute in
    mk_staff (Some (u "Иванов Иван Петрович")) (Some (u "@ivanov"))
             (Some (u "9:30")) (Some (u "18:00")).

(** The timer a set-up function stores for a time of day. *)
Definition daily_timer (timestamp : datetime -> Z) (e : env) (title action_ : str)
                       (s : staff) (hh : str) (mm : option str) : timer :=
  mk_timer (uuid4 e) (title ++ staff_name_of s)
           (kw_v_space ++ (hh ++ minutes_text mm) ++ txt_daily)
           (timestamp (next_at (now e) hh mm)) true (Some 86400)
           (Some action_) None (timestamp (now e)) active.

(** The state after [create_timer] stored [t] under a new identifier. *)
Definition with_new_timer (e : env) (t : timer) (st : state) : state :=
  mk_state (timers st ++ [(uuid4 e, t)])
           (if redis_up e then Some (timers st ++ [(uuid4 e, t)]) else redis st)
           (agent st).

(* ================================================================== *)
(** ** [TaskTool]

    The task list of [components/tools/task_tool.py], to which a firing hands
    the action of a timer.  Its state is what it keeps in Redis: the counter
    ["task_id_counter"], one hash ["task:<id>"] per task and the sorted set
    ["tasks"]. *)

(** The values the tool writes in the field ["status"]. *)
Inductive task_status : Type :=
| task_pending | task_finished | task_canceled | task_timeout.

Definition task_status_eqb (a b : task_status) : bool :=
  match a, b with
  | task_pending, task_pending | task_finished, task_finished
  | task_canceled, task_canceled | task_timeout, task_timeout => true
  | _, _ => false
  end.

(** The fields of a hash; the three dates are absent until they are set. *)
Record task : Type := mk_task {
  task_id : Z;
  task_description : str;
  task_state : task_status;
  task_created_at : datetime;
  task_finished_at : option datetime;
  task_canceled_at : option datetime;
  task_timeout_at : option datetime
}.

(** The hashes by task identifier, and the members of the sorted set with
    their scores, in the order of [ZRANGE]. *)
Record task_store : Type := mk_task_store {
  task_id_counter : Z;
  task_hashes : list (Z * task);
  task_set : list (Z * Z)
}.

Fixpoint hash_get (k : Z) (h : list (Z * task)) : option task :=
  match h with
  | [] => None
  | (k', t) :: h' => if k' =? k then Some t else hash_get k h'
  end.

(** [HSET] of some fields of the hash [k], which is created when absent:
    [f] gives the new hash from the old one, if any. *)
Fixpoint hash_set (k : Z) (f : option task -> task) (h : list (Z * task))
  : list (Z * task) :=
  match h with
  | [] => [(k, f None)]
  | (k', t) :: h' =>
      if k' =? k then (k', f (Some t)) :: h' else (k', t) :: hash_set k f h'
  end.

(** The order of a sorted set: by score, members of equal score by their
    bytes, here the decimal digits of the identifier. *)
Fixpoint str_ltb (a b : str) : bool :=
  match a, b with
  | _, [] => false
  | [], _ :: _ => true
  | x :: a', y :: b' => (x <? y) || ((x =? y) && str_ltb a' b')
  end.

Definition zset_before (x y : Z * Z) : bool :=
  (snd x <? snd y)
  || ((snd x =? snd y) && str_ltb (str_of_Z (fst x)) (str_of_Z (fst y))).

Fixpoint zinsert (x : Z * Z) (l : list (Z * Z)) : list (Z * Z) :=
  match l with
  | [] => [x]
  | y :: l' => if zset_before x y then x :: l else y :: zinsert x l'
  end.

Definition zadd (member score : Z) (l : list (Z * Z)) : list (Z * Z) :=
  zinsert (member, score) (filter (fun y => negb (fst y =? member)) l).

Definition zrange (l : list (Z * Z)) : list Z := map fst l.

(** The result strings, by the message and the values interpolated in it. *)
Inductive task_reply : Type :=
| TaskCreated (id : Z)
| TaskNotFound (id : Z)
| TaskAlreadyFinished (id : Z)
| TaskCanceledNotFinished (id : Z)
| TaskFinished (id : Z)
| TaskAlreadyCanceled (id : Z)
| TaskFinishedNotCanceled (id : Z)
| TaskCanceled (id : Z)
| CurrentTasks (rows : list (Z * str * datetime))
| NoPendingTasks
| TimeoutsUpdated (n : Z)
| NoTimeouts
| TaskFailed (e : exn).

(** The fields [create_task] writes, over what the hash held. *)
Definition new_task (id : Z) (description : str) (created_at : datetime)
                    (old : option task) : task :=
  match old with
  | Some t => mk_task id description task_pending created_at
                      (task_finished_at t) (task_canceled_at t) (task_timeout_at t)
  | None => mk_task id description task_pending created_at None None None
  end.

(** [HSET] of fields of a hash that exists (the callers have tested it). *)
Fixpoint hash_update (k : Z) (f : task -> task) (h : list (Z * task))
  : list (Z * task) :=
  match h with
  | [] => []
  | (k', t) :: h' =>
      if k' =? k then (k', f t) :: h' else (k', t) :: hash_update k f h'
  end.

Definition set_finished (at_ : datetime) (t : task) : task :=
  mk_task (task_id t) (task_description t) task_finished (task_created_at t)
          (Some at_) (task_canceled_at t) (task_timeout_at t).

Definition set_canceled (at_ : datetime) (t : task) : task :=
  mk_task (task_id t) (task_description t) task_canceled (task_created_at t)
          (task_finished_at t) (Some at_) (task_timeout_at t).

Definition set_timeout (at_ : datetime) (t : task) : task :=
  mk_task (task_id t) (task_description t) task_timeout (task_created_at t)
          (task_finished_at t) (task_canceled_at t) (Some at_).

Definition with_hashes (h : list (Z * task)) (s : task_store) : task_store :=
  mk_task_store (task_id_counter s) h (task_set s).

Section TaskTool.

Variable timestamp : datetime -> Z.

(** Every method runs inside [try ... except Exception]; when Redis does not
    answer, its first command raises and the method returns the failure
    message.  (A connection lost between two commands of one call is not
    modelled.) *)
Definition create_task (e : env) (description : str) (s : task_store)
  : task_reply * task_store :=
  if redis_up e then
    let task_id := task_id_counter s + 1 in
    let created_at := now e in
    (TaskCreated task_id,
     mk_task_store task_id
                   (hash_set task_id (new_task task_id description created_at)
                             (task_hashes s))
                   (zadd task_id (timestamp created_at) (task_set s)))
  else (TaskFailed OtherException, s).

Definition finish_task (e : env) (task_id : Z) (s : task_store)
  : task_reply * task_store :=
  if redis_up e then
    match hash_get task_id (task_hashes s) with
    | None => (TaskNotFound task_id, s)
    | Some t =>
        match task_state t with
        | task_finished => (TaskAlreadyFinished task_id, s)
        | task_canceled => (TaskCanceledNotFinished task_id, s)
        | _ => (TaskFinished task_id,
                with_hashes (hash_update task_id (set_finished (now e)) (task_hashes s)) s)
        end
    end
  else (TaskFailed OtherException, s).

Definition cancel_task (e : env) (task_id : Z) (s : task_store)
  : task_reply * task_store :=
  if redis_up e then
    match hash_get task_id (task_hashes s) with
    | None => (TaskNotFound task_id, s)
    | Some t =>
        match task_state t with
        | task_canceled => (TaskAlreadyCanceled task_id, s)
        | task_finished => (TaskFinishedNotCanceled task_id, s)
        | _ => (TaskCanceled task_id,
                with_hashes (hash_update task_id (set_canceled (now e)) (task_hashes s)) s)
        end
    end
  else (TaskFailed OtherException, s).

(** The loop of [show_pending_tasks]: the test of [n] comes after a task was
    added. *)
Fixpoint collect_pending (n : Z) (h : list (Z * task)) (task_ids : list Z)
                         (pending_tasks : list (Z * str * datetime))
  : list (Z * str * datetime) :=
  match task_ids with
  | [] => pending_tasks
  | id :: rest =>
      match hash_get id h with
      | Some t =>
          if task_status_eqb (task_state t) task_pending then
            let pending_tasks :=
              pending_tasks ++ [(task_id t, task_description t, task_created_at t)] in
            if n <=? Z.of_nat (length pending_tasks) then pending_tasks
            else collect_pending n h rest pending_tasks
          else collect_pending n h rest pending_tasks
      | None => collect_pending n h rest pending_tasks
      end
  end.

Definition show_pending_tasks (e : env) (n : Z) (s : task_store)
  : task_reply * task_store :=
  if redis_up e then
    match collect_pending n (task_hashes s) (zrange (task_set s)) [] with
    | [] => (NoPendingTasks, s)
    | pending_tasks => (CurrentTasks pending_tasks, s)
    end
  else (TaskFailed OtherException, s).

(** One iteration of the loop of [check_timeouts], on the hashes and the
    count of updated tasks. *)
Definition check_one (current_time : datetime) (timeout_minutes : Z)
                     (acc : list (Z * task) * Z) (id : Z) : list (Z * task) * Z :=
  match hash_get id (fst acc) with
  | Some t =>
      if task_status_eqb (task_state t) task_pending
         && (timeout_minutes * 60 * second_us <? current_time - task_created_at t)
      then (hash_update id (set_timeout current_time) (fst acc), snd acc + 1)
      else acc
  | None => acc
  end.

Definition check_timeouts (e : env) (timeout_minutes : Z) (s : task_store)
  : task_reply * task_store :=
  if redis_up e then
    let r := fold_left (check_one (now e) timeout_minutes) (zrange (task_set s))
                       (task_hashes s, 0) in
    (if 0 <? snd r then TimeoutsUpdated (snd r) else NoTimeouts,
     with_hashes (fst r) s)
  else (TaskFailed OtherException, s).

(** The calls of the tool, and their runs. *)
Inductive task_op : Type :=
| CreateTask (description : str)
| FinishTask (id : Z)
| CancelTask (id : Z)
| ShowPendingTasks (n : Z)
| CheckTimeouts (timeout_minutes : Z).

Definition task_run_op (e : env) (o : task_op) (s : task_store) : task_store :=
  match o with
  | CreateTask d => snd (create_task e d s)
  | FinishTask id => snd (finish_task e id s)
  | CancelTask id => snd (cancel_task e id s)
  | ShowPendingTasks n => snd (show_pending_tasks e n s)
  | CheckTimeouts m => snd (check_timeouts e m s)
  end.

Definition task_run (trace : list (env * task_op)) (s : task_store) : task_store :=
  fold_left (fun s eo => task_run_op (fst eo) (snd eo) s) trace s.

End TaskTool.

(** *** Readings of the task list used in the statements *)

(** The status of a task, if it exists. *)
Definition task_status_of (id : Z) (s : task_store) : option task_status :=
  option_map task_state (hash_get id (task_hashes s)).

(** The identifiers in use do not exceed the counter. *)
Definition tasks_ok (s : task_store) : Prop :=
  Forall (fun kv => fst kv <= task_id_counter s) (task_hashes s).

(** How one call may change the status of the task [id]. *)
Definition task_transition_ok (e : env) (o : task_op) (id : Z) (s : task_store)
                              (before after : option task_status) : Prop :=
  match before with
  | None =>
      after = None
      \/ (after = Some task_pending /\ id = task_id_counter s + 1
          /\ exists d, o = CreateTask d)
  | Some task_finished => after = Some task_finished
  | Some task_canceled => after = Some task_canceled
  | Some task_timeout =>
      after = Some task_timeout
      \/ (after = Some task_finished /\ o = FinishTask id)
      \/ (after = Some task_canceled /\ o = CancelTask id)
  | Some task_pending =>
      after = Some task_pending
      \/ (after = Some task_finished /\ o = FinishTask id)
      \/ (after = Some task_canceled /\ o = CancelTask id)
      \/ (after = Some task_timeout /\ exists m, o = CheckTimeouts m)
  end.

(** The pending tasks in the order of the sorted set, as
    [show_pending_tasks] lists them. *)
Definition pending_rows (s : task_store) : list (Z * str * datetime) :=
  flat_map (fun id => match hash_get id (task_hashes s) with
                      | Some t => if task_status_eqb (task_state t) task_pending
                                  then [(task_id t, task_description t, task_created_at t)]
                                  else []
                      | None => []
                      end)
           (zrange (task_set s)).

(** An empty task list, and one with two tasks created a minute apart. *)
Definition no_tasks : task_store := mk_task_store 0 [] [].

Definition two_tasks : task_store :=
  snd (create_task utc_timestamp (env_at (noon + 60 * second_us) id_a) action_ping
         (snd (create_task utc_timestamp (env_at noon id_a) name_report no_tasks))).

(** A change of status that keeps it or turns pending into timeout. *)
Definition kept_or_timed_out (before after : option task_status) : Prop :=
  after = before \/ (before = Some task_pending /\ after = Some task_timeout).

(* ================================================================== *)
(** * Properties *)

(** ** The catch-up arithmetic *)

Lemma catch_up_future (last interval now : Z) :
  0 < interval -> now < catch_up last interval now.
Proof.
  intros Hi. unfold catch_up.
  pose proof (Z.div_mod (now - last) interval ltac:(lia)) as Hdm.
  pose proof (Z.mod_pos_bound (now - last) interval Hi) as Hb.
  nia.
Qed.

Lemma catch_up_on_grid (last interval now : Z) :
  (catch_up last interval now - last) mod interval = 0.
Proof.
  unfold catch_up.
  replace (last + ((now - last) / interval + 1) * interval - last)
    with (((now - last) / interval + 1) * interval) by lia.
  apply Z_mod_mult.
Qed.

(** In its catch-up branch the engine's rescheduling lands on the last grid
    point that is not after [now]. *)
Lemma reschedule_late (t interval now : Z) :
  0 < interval -> t + interval < now ->
  reschedule t interval now = t + ((now - t) / interval) * interval.
Proof.
  intros Hi Hlate. unfold reschedule.
  destruct (Z.ltb_spec (t + interval) now) as [_ | H]; [| lia].
  replace (now - (t + interval)) with ((now - t) + (-1) * interval) by lia.
  rewrite Z.div_add by lia. lia.
Qed.

(** A firing that is more than one interval late is rescheduled to an
    instant that is not after [now]. *)
Lemma reschedule_late_not_future (t interval now : Z) :
  0 < interval -> t + interval < now -> reschedule t interval now <= now.
Proof.
  intros Hi Hlate. rewrite reschedule_late by assumption.
  pose proof (Z.div_mod (now - t) interval ltac:(lia)) as Hdm.
  pose proof (Z.mod_pos_bound (now - t) interval Hi) as Hb.
  nia.
Qed.

Lemma update_missed_timer_stale (now i : Z) (t : timer) :
  timer_status t = active -> is_recurring t = true ->
  recurrence_interval t = Some i -> i <> 0 -> next_run t < now ->
  update_missed_timer now t = set_next_run (catch_up (next_run t) (i * second_us) now) t.
Proof.
  intros Hs Hr Hi Hnz Hlt. unfold update_missed_timer.
  rewrite Hs, Hr, Hi. simpl.
  destruct (Z.ltb_spec (next_run t) now); [| lia].
  destruct (Z.eqb_spec i 0); [lia |]. reflexivity.
Qed.

Lemma update_missed_timer_fresh (now : Z) (t : timer) :
  now <= next_run t -> update_missed_timer now t = t.
Proof.
  intros H. unfold update_missed_timer.
  destruct (negb (status_eqb (timer_status t) active) || negb (is_recurring t));
    [reflexivity |].
  destruct (Z.ltb_spec (next_run t) now); [lia | reflexivity].
Qed.

(** C2. For a stale recurring active timer ([next_run < now]) with a
    positive interval, the start-up resolver sets
    [next_run := next_run + (floor((now - next_run) / interval) + 1) * interval];
    the new value is strictly after [now], it differs from the old one by an
    exact multiple of the interval, and resolving again at the same [now]
    changes nothing. *)
Theorem startup_catch_up_resolves_once (now i : Z) (t : timer) :
  timer_status t = active -> is_recurring t = true ->
  recurrence_interval t = Some i -> 0 < i -> next_run t < now ->
  let t' := update_missed_timer now t in
  let interval := i * second_us in
  next_run t' = next_run t + ((now - next_run t) / interval + 1) * interval
  /\ now < next_run t'
  /\ (next_run t' - next_run t) mod interval = 0
  /\ update_missed_timer now t' = t'.
Proof.
  intros Hs Hr Hi Hpos Hlt t' interval.
  assert (Ht' : t' = set_next_run (catch_up (next_run t) interval now) t).
  { apply update_missed_timer_stale; auto; lia. }
  assert (Hivl : 0 < interval) by (unfold interval, second_us; lia).
  rewrite Ht'. cbn [next_run set_next_run].
  split; [reflexivity |].
  split; [apply catch_up_future; assumption |].
  split; [apply catch_up_on_grid |].
  apply update_missed_timer_fresh. cbn [next_run set_next_run].
  pose proof (catch_up_future (next_run t) interval now Hivl). lia.
Qed.

(** ** The regular expressions *)

(** *** Greedy repetition of a character class *)

Lemma many_n_class (p : Z -> bool) (g : groups) :
  forall (s : str) (n : nat), (length s <= n)%nat ->
  many_n (rmatch (Class p)) n s g = class_threads p s g.
Proof.
  induction s as [| x s IH]; intros n Hn.
  - destruct n; reflexivity.
  - destruct n as [| n]; [simpl in Hn; lia |].
    cbn [many_n rmatch class_threads].
    destruct (p x); [| reflexivity].
    cbn [flat_map fst snd].
    replace (length s <? length (x :: s))%nat with true
      by (symmetry; apply Nat.ltb_lt; simpl; lia).
    rewrite IH by (simpl in Hn; lia).
    rewrite app_nil_r. reflexivity.
Qed.

Lemma rmatch_Cat (r1 r2 : regex) (s : str) (g : groups) :
  rmatch (Cat r1 r2) s g
  = flat_map (fun t : thread => rmatch r2 (fst t) (snd t)) (rmatch r1 s g).
Proof. reflexivity. Qed.

Lemma rmatch_Or (r1 r2 : regex) (s : str) (g : groups) :
  rmatch (Or r1 r2) s g = rmatch r1 s g ++ rmatch r2 s g.
Proof. reflexivity. Qed.

Lemma rmatch_Group (n : nat) (r : regex) (s : str) (g : groups) :
  rmatch (Group n r) s g
  = map (fun t : thread => (fst t, (n, firstn (length s - length (fst t)) s) :: snd t))
        (rmatch r s g).
Proof. reflexivity. Qed.

Lemma rmatch_Class (p : Z -> bool) (s : str) (g : groups) :
  rmatch (Class p) s g
  = match s with x :: s' => if p x then [(s', g)] else [] | [] => [] end.
Proof. reflexivity. Qed.

Lemma rmatch_many_class (p : Z -> bool) (s : str) (g : groups) :
  rmatch (Many (Class p)) s g = class_threads p s g.
Proof. change (many_n (rmatch (Class p)) (length s) s g = class_threads p s g).
  apply many_n_class. lia. Qed.

(** The threads after the first stop inside the run, before a character of
    the class. *)
Lemma class_threads_shape (p : Z -> bool) (g : groups) (s : str) :
  exists tl, class_threads p s g = (skip_while p s, g) :: tl
             /\ Forall (fun t : thread => headp p (fst t) = true /\ snd t = g) tl.
Proof.
  induction s as [| x s [tl [Heq Htl]]].
  - exists []. split; [reflexivity | constructor].
  - simpl. destruct (p x) eqn:Hp.
    + exists (tl ++ [(x :: s, g)]). rewrite Heq. split; [reflexivity |].
      apply Forall_app. split; [assumption |].
      constructor; [| constructor]. simpl. auto.
    + exists []. split; [reflexivity | constructor].
Qed.

Lemma flat_map_dead {A B : Type} (f : A -> list B) (l : list A) :
  Forall (fun a => f a = []) l -> flat_map f l = [].
Proof.
  induction 1 as [| a l Ha _ IH]; simpl; [reflexivity |].
  rewrite Ha, IH. reflexivity.
Qed.

Lemma flat_map_class_threads (p : Z -> bool) (r : regex) (s : str) (g : groups) :
  refuses p r ->
  flat_map (fun t : thread => rmatch r (fst t) (snd t)) (class_threads p s g)
  = rmatch r (skip_while p s) g.
Proof.
  intros Hr. destruct (class_threads_shape p g s) as [tl [Heq Htl]].
  rewrite Heq. cbn [flat_map fst snd].
  rewrite flat_map_dead; [apply app_nil_r |].
  eapply Forall_impl; [| exact Htl].
  intros t [Hh _]. apply Hr. exact Hh.
Qed.

Lemma rmatch_many_then (p : Z -> bool) (r : regex) (s : str) (g : groups) :
  refuses p r ->
  rmatch (Cat (Many (Class p)) r) s g = rmatch r (skip_while p s) g.
Proof.
  intros Hr. rewrite rmatch_Cat, rmatch_many_class.
  apply flat_map_class_threads. exact Hr.
Qed.

Lemma firstn_take_while (p : Z -> bool) (s : str) :
  firstn (length s - length (skip_while p s)) s = take_while p s.
Proof.
  induction s as [| x s IH]; [reflexivity |].
  simpl skip_while. simpl take_while. destruct (p x).
  - assert (length (skip_while p s) <= length s)%nat.
    { clear. induction s as [| y s IH]; simpl; [lia |]. destruct (p y); simpl; lia. }
    replace (length (x :: s) - length (skip_while p s))%nat
      with (S (length s - length (skip_while p s)))
      by (change (length (x :: s)) with (S (length s)); lia).
    simpl. rewrite IH. reflexivity.
  - rewrite Nat.sub_diag. reflexivity.
Qed.

Lemma rmatch_group_plus_then (p : Z -> bool) (n : nat) (r : regex) (s : str) (g : groups) :
  refuses p r ->
  rmatch (Cat (Group n (plus (Class p))) r) s g
  = if headp p s then rmatch r (skip_while p s) ((n, take_while p s) :: g) else [].
Proof.
  intros Hr. unfold plus.
  rewrite rmatch_Cat, rmatch_Group, rmatch_Cat, rmatch_Class.
  destruct s as [| x s]; [reflexivity |].
  cbn [headp]. destruct (p x) eqn:Hp; [| reflexivity].
  cbn [flat_map]. rewrite app_nil_r. cbn [fst snd].
  rewrite rmatch_many_class.
  destruct (class_threads_shape p g s) as [tl [Heq Htl]].
  rewrite Heq. cbn [map flat_map fst snd].
  rewrite flat_map_dead.
  - rewrite app_nil_r.
    pose proof (firstn_take_while p (x :: s)) as Hf.
    simpl skip_while in Hf. simpl take_while in Hf. rewrite Hp in Hf.
    rewrite Hf. simpl. rewrite Hp. reflexivity.
  - apply Forall_map. eapply Forall_impl; [| exact Htl].
    intros t [Hh _]. cbn [fst snd]. apply Hr. exact Hh.
Qed.

Lemma rmatch_lits (w : str) :
  forall (s : str) (g : groups),
  rmatch (lits w) s g = if startswith w s then [(skipn (length w) s, g)] else [].
Proof.
  induction w as [| c w IH]; intros s g; [reflexivity |].
  change (lits (c :: w)) with (Cat (Lit c) (lits w)).
  rewrite rmatch_Cat. destruct s as [| x s]; [reflexivity |].
  cbn [rmatch startswith]. rewrite (Z.eqb_sym x c).
  destruct (c =? x); [| reflexivity].
  cbn [flat_map fst snd andb]. rewrite IH, app_nil_r. reflexivity.
Qed.

Lemma rmatch_alts_none (words : list str) (s : str) (g : groups) :
  first_word words s = None -> rmatch (alts (map lits words)) s g = [].
Proof.
  induction words as [| w words IH]; intros H.
  - destruct s; reflexivity.
  - simpl in H. destruct (startswith w s) eqn:Hw; [discriminate |].
    destruct words as [| w' words].
    + simpl. rewrite rmatch_lits, Hw. reflexivity.
    + change (alts (map lits (w :: w' :: words)))
        with (Or (lits w) (alts (map lits (w' :: words)))).
      rewrite rmatch_Or, rmatch_lits, Hw, IH by assumption. reflexivity.
Qed.

Lemma rmatch_alts_some (words : list str) (s rest : str) (g : groups) :
  first_word words s = Some rest ->
  exists tl, rmatch (alts (map lits words)) s g = (rest, g) :: tl.
Proof.
  induction words as [| w words IH]; intros H; [discriminate |].
  simpl in H. destruct words as [| w' words].
  - simpl. rewrite rmatch_lits.
    destruct (startswith w s); [| discriminate].
    injection H as <-. eexists. reflexivity.
  - change (alts (map lits (w :: w' :: words)))
      with (Or (lits w) (alts (map lits (w' :: words)))).
    rewrite rmatch_Or, rmatch_lits.
    destruct (startswith w s).
    + injection H as <-. eexists. reflexivity.
    + destruct (IH H) as [tl Htl]. rewrite Htl. eexists. reflexivity.
Qed.

Lemma startswith_head (p : Z -> bool) (w s : str) :
  headp p w = false -> w <> [] -> headp p s = true -> startswith w s = false.
Proof.
  destruct w as [| c w]; [congruence |]. destruct s as [| x s]; [reflexivity |].
  simpl. intros Hc _ Hx. destruct (Z.eqb_spec c x); [congruence | reflexivity].
Qed.

Lemma first_word_avoid (p : Z -> bool) (words : list str) (s : str) :
  words_avoid p words = true -> headp p s = true -> first_word words s = None.
Proof.
  induction words as [| w words IH]; intros Hw Hs; [reflexivity |].
  simpl in Hw. apply andb_prop in Hw as [Hw Hws]. apply andb_prop in Hw as [Hh Hne].
  simpl. rewrite (startswith_head p); auto.
  - now apply negb_true_iff.
  - destruct w; [discriminate | congruence].
Qed.

Lemma refuses_alts (p : Z -> bool) (words : list str) :
  words_avoid p words = true -> refuses p (alts (map lits words)).
Proof.
  intros Hw s g Hs. apply rmatch_alts_none. now apply (first_word_avoid p).
Qed.

Lemma is_space_not_digit (c : Z) : is_digit c = true -> is_space c = false.
Proof.
  unfold is_digit, is_space. intros H.
  apply andb_prop in H as [H1 H2]. apply Z.leb_le in H1, H2.
  repeat match goal with
         | |- context [?a <=? ?b] => destruct (Z.leb_spec a b); try lia
         | |- context [?a =? ?b] => destruct (Z.eqb_spec a b); try lia
         end; reflexivity.
Qed.

Lemma skip_while_head (p : Z -> bool) (s : str) :
  headp p s = false -> skip_while p s = s.
Proof. destruct s as [| x s]; simpl; [reflexivity |]. now intros ->. Qed.

Lemma refuses_spaces_alts (words : list str) :
  words_avoid is_digit words = true -> words_avoid is_space words = true ->
  refuses is_digit (Cat (Many space) (alts (map lits words))).
Proof.
  intros Hd Hs s g Hh. unfold space.
  rewrite rmatch_many_then by now apply refuses_alts.
  rewrite skip_while_head.
  - now apply (refuses_alts is_digit).
  - destruct s as [| x s]; [reflexivity |]. simpl in *. now apply is_space_not_digit.
Qed.

(** The unit patterns never backtrack: the quantity is the whole run of
    digits, the white space the whole run of white space. *)
Lemma rmatch_unit_pattern (words : list str) (s : str) :
  words_avoid is_digit words = true -> words_avoid is_space words = true ->
  rmatch (unit_pattern words) s []
  = if headp is_digit s
    then rmatch (alts (map lits words)) (skip_while is_space (skip_while is_digit s))
                [(1%nat, take_while is_digit s)]
    else [].
Proof.
  intros Hd Hs. unfold unit_pattern, digit.
  rewrite rmatch_group_plus_then by now apply refuses_spaces_alts.
  destruct (headp is_digit s); [| reflexivity].
  unfold space. rewrite rmatch_many_then by now apply refuses_alts.
  reflexivity.
Qed.

(** *** [re.finditer] *)

Lemma finditer_n_fuel (r : regex) :
  forall (f1 f2 : nat) (s : str),
  (length s < f1)%nat -> (length s < f2)%nat -> finditer_n f1 r s = finditer_n f2 r s.
Proof.
  induction f1 as [| f1 IH]; intros f2 s H1 H2; [lia |].
  destruct f2 as [| f2]; [lia |]. simpl.
  destruct (rmatch r s []) as [| t tl].
  - destruct s as [| x s]; [reflexivity |]. apply IH; simpl in *; lia.
  - f_equal. destruct (Nat.ltb_spec (length (fst t)) (length s)).
    + apply IH; lia.
    + destruct s as [| x s]; [reflexivity |]. apply IH; simpl in *; lia.
Qed.

Lemma finditer_n_S (fuel : nat) (r : regex) (s : str) :
  finditer_n (S fuel) r s
  = match rmatch r s [] with
    | t :: _ =>
        snd t ::
          (if (length (fst t) <? length s)%nat then finditer_n fuel r (fst t)
           else match s with
                | [] => []
                | _ :: s' => finditer_n fuel r s'
                end)
    | [] =>
        match s with
        | [] => []
        | _ :: s' => finditer_n fuel r s'
        end
    end.
Proof. reflexivity. Qed.

Lemma finditer_skip (r : regex) (c : Z) (s : str) :
  rmatch r (c :: s) [] = [] -> finditer r (c :: s) = finditer r s.
Proof.
  intros H. unfold finditer. rewrite finditer_n_S, H.
  apply finditer_n_fuel; simpl; lia.
Qed.

Lemma finditer_hit (r : regex) (s : str) (t : thread) (tl : list thread) :
  rmatch r s [] = t :: tl -> (length (fst t) < length s)%nat ->
  finditer r s = snd t :: finditer r (fst t).
Proof.
  intros H Hlt. unfold finditer. rewrite finditer_n_S, H.
  apply Nat.ltb_lt in Hlt as Hb. rewrite Hb. f_equal.
  apply finditer_n_fuel; lia.
Qed.

Lemma finditer_nil (r : regex) : rmatch r [] [] = [] -> finditer r [] = [].
Proof. intros H. unfold finditer. rewrite finditer_n_S, H. reflexivity. Qed.

(** *** Runs of characters *)

Lemma take_skip_app (p : Z -> bool) (q s : str) :
  forallb p q = true -> headp p s = false ->
  take_while p (q ++ s) = q /\ skip_while p (q ++ s) = s.
Proof.
  intros Hq Hs. induction q as [| x q IH]; simpl.
  - destruct s as [| y s]; [split; reflexivity |]. simpl in Hs |- *. rewrite Hs.
    split; reflexivity.
  - simpl in Hq. apply andb_prop in Hq as [Hx Hq]. rewrite Hx.
    destruct (IH Hq) as [-> ->]. split; reflexivity.
Qed.

Lemma skip_while_app_stop (p : Z -> bool) (a b : str) :
  headp p b = false -> skip_while p (a ++ b) = skip_while p a ++ b.
Proof.
  intros Hb. induction a as [| x a IH]; simpl.
  - apply skip_while_head. exact Hb.
  - destruct (p x); [exact IH | reflexivity].
Qed.

Lemma take_while_all (p : Z -> bool) (s : str) :
  forallb p s = true -> take_while p s = s.
Proof.
  induction s as [| x s IH]; simpl; [reflexivity |].
  intros H. apply andb_prop in H as [-> H]. now rewrite IH.
Qed.

Lemma forallb_skip_while (p q : Z -> bool) (s : str) :
  forallb q s = true -> forallb q (skip_while p s) = true.
Proof.
  induction s as [| x s IH]; simpl; [reflexivity |].
  intros H. apply andb_prop in H as [Hx H].
  destruct (p x); [auto | simpl; now rewrite Hx, H].
Qed.

Lemma forallb_skipn (q : Z -> bool) (n : nat) (s : str) :
  forallb q s = true -> forallb q (skipn n s) = true.
Proof.
  revert s. induction n as [| n IH]; intros s H; [exact H |].
  destruct s as [| x s]; [reflexivity |]. simpl in H. apply andb_prop in H as [_ H].
  simpl. auto.
Qed.

Lemma plain_not_digit (c : Z) : plain c = true -> is_digit c = false.
Proof. unfold plain. intros H. apply andb_prop in H as [H _]. now apply negb_true_iff. Qed.

Lemma plain_is_dot (c : Z) : plain c = true -> is_dot c = true.
Proof. unfold plain. intros H. now apply andb_prop in H as [_ H]. Qed.

Lemma digit_is_dot (c : Z) : is_digit c = true -> is_dot c = true.
Proof.
  unfold is_digit, is_dot. intros H. apply andb_prop in H as [H1 H2].
  apply Z.leb_le in H1. destruct (Z.eqb_spec c 10); [lia | reflexivity].
Qed.

(** *** The spellings of the units *)

Lemma unit_words_avoid_digit (x : unit_of_time) :
  words_avoid is_digit (unit_words x) = true.
Proof. destruct x; reflexivity. Qed.

Lemma unit_words_avoid_space (x : unit_of_time) :
  words_avoid is_space (unit_words x) = true.
Proof. destruct x; reflexivity. Qed.

Lemma unit_words_plain (x : unit_of_time) :
  forallb (forallb plain) (unit_words x) = true.
Proof. destruct x; reflexivity. Qed.

Lemma units_clash_distinct (x y : unit_of_time) :
  unit_eqb y x = false -> units_clash x y = true.
Proof. destruct x, y; intros H; try discriminate H; reflexivity. Qed.

Lemma clash_startswith (w w' z : str) :
  clash w w' = true -> startswith w (w' ++ z) = false.
Proof.
  revert w'. induction w as [| c w IH]; intros w' H; [discriminate |].
  destruct w' as [| y w']; [discriminate |]. simpl in *.
  destruct (Z.eqb_spec c y); simpl in *; [| reflexivity]. auto.
Qed.

Lemma str_eqb_eq (a b : str) : str_eqb a b = true -> a = b.
Proof. unfold str_eqb. destruct (list_eq_dec Z.eq_dec a b); [auto | discriminate]. Qed.

Lemma str_eqb_refl (a : str) : str_eqb a a = true.
Proof. unfold str_eqb. destruct (list_eq_dec Z.eq_dec a a); [reflexivity | congruence]. Qed.

Lemma first_word_clash (words : list str) (w' z : str) :
  forallb (fun w => clash w w') words = true -> first_word words (w' ++ z) = None.
Proof.
  induction words as [| w words IH]; intros H; [reflexivity |].
  simpl in H. apply andb_prop in H as [Hc H].
  simpl. rewrite clash_startswith by assumption. auto.
Qed.

Lemma first_word_other_unit (x y : unit_of_time) (w' z : str) :
  unit_eqb y x = false -> existsb (str_eqb w') (unit_words y) = true ->
  first_word (unit_words x) (w' ++ z) = None.
Proof.
  intros Hxy Hw. apply first_word_clash.
  pose proof (units_clash_distinct x y Hxy) as Hc. unfold units_clash in Hc.
  apply existsb_exists in Hw as [w0 [Hin Heq]]. apply str_eqb_eq in Heq. subst w0.
  rewrite forallb_forall in Hc |- *. intros w Hw.
  specialize (Hc w Hw). rewrite forallb_forall in Hc. now apply Hc.
Qed.

Lemma startswith_self (w z : str) : startswith w (w ++ z) = true.
Proof. induction w as [| c w IH]; simpl; [reflexivity |]. now rewrite Z.eqb_refl. Qed.

Lemma first_word_found (words : list str) (s : str) :
  (exists w, In w words /\ startswith w s = true) ->
  exists w0, In w0 words /\ startswith w0 s = true
             /\ first_word words s = Some (skipn (length w0) s).
Proof.
  induction words as [| w words IH]; intros [w1 [Hin Hst]]; [destruct Hin |].
  simpl. destruct (startswith w s) eqn:Hw.
  - exists w. auto.
  - destruct Hin as [-> | Hin]; [congruence |].
    destruct IH as [w0 [Hin0 [Hst0 Hf]]]; [eauto |]. exists w0. auto.
Qed.

(** A word without digits that matches at the start of [a ++ rest] ends
    inside [a] when [rest] is empty or starts with a digit. *)
Lemma startswith_within (w a rest : str) :
  forallb plain w = true -> startswith w (a ++ rest) = true ->
  (rest = [] \/ headp is_digit rest = true) -> (length w <= length a)%nat.
Proof.
  revert a. induction w as [| c w IH]; intros a Hw Hst Hrest; [simpl; lia |].
  simpl in Hw. apply andb_prop in Hw as [Hc Hw].
  destruct a as [| y a].
  - exfalso. simpl in Hst. destruct rest as [| y rest]; [discriminate |].
    simpl in Hst. apply andb_prop in Hst as [Heq _]. apply Z.eqb_eq in Heq. subst y.
    destruct Hrest as [Hr | Hr]; [discriminate |]. simpl in Hr.
    apply plain_not_digit in Hc. congruence.
  - simpl in Hst. apply andb_prop in Hst as [_ Hst]. simpl.
    specialize (IH a Hw Hst Hrest). lia.
Qed.

(** *** Scanning a sequence of tokens *)

Lemma plain_no_digit (s : str) : forallb plain s = true -> no_digit s = true.
Proof.
  unfold no_digit. induction s as [| x s IH]; simpl; [reflexivity |].
  intros H. apply andb_prop in H as [Hx H]. rewrite (plain_not_digit x Hx). simpl. auto.
Qed.

Lemma rmatch_unit_pattern_no_digit (x : unit_of_time) (s : str) :
  headp is_digit s = false -> rmatch (unit_pattern (unit_words x)) s [] = [].
Proof.
  intros H. rewrite rmatch_unit_pattern, H;
    auto using unit_words_avoid_digit, unit_words_avoid_space.
Qed.

Lemma finditer_junk (x : unit_of_time) (j s : str) :
  no_digit j = true ->
  finditer (unit_pattern (unit_words x)) (j ++ s)
  = finditer (unit_pattern (unit_words x)) s.
Proof.
  induction j as [| c j IH]; intros H; [reflexivity |].
  simpl in H. apply andb_prop in H as [Hc H].
  simpl. rewrite finditer_skip; [auto |].
  apply rmatch_unit_pattern_no_digit. simpl. now apply negb_true_iff.
Qed.

Lemma token_ok_parts (t : token) :
  token_ok t = true ->
  tk_quantity t <> [] /\ forallb is_digit (tk_quantity t) = true
  /\ forallb (fun c => is_space c && is_dot c) (tk_gap t) = true
  /\ existsb (str_eqb (tk_word t)) (unit_words (tk_unit t)) = true
  /\ forallb plain (tk_tail t) = true.
Proof.
  unfold token_ok. intros H.
  repeat (apply andb_prop in H as [H ?]).
  repeat split; auto. destruct (tk_quantity t); [discriminate | congruence].
Qed.

Lemma tokens_text_head (toks : list token) :
  forallb token_ok toks = true ->
  tokens_text toks = [] \/ headp is_digit (tokens_text toks) = true.
Proof.
  destruct toks as [| t toks]; [now left |]. intros H. right.
  simpl in H. apply andb_prop in H as [H _].
  apply token_ok_parts in H as [Hne [Hd _]].
  unfold tokens_text, token_text. simpl.
  destruct (tk_quantity t) as [| d q]; [congruence |].
  simpl in *. now apply andb_prop in Hd as [-> _].
Qed.

Lemma unit_word_in (t : token) :
  existsb (str_eqb (tk_word t)) (unit_words (tk_unit t)) = true ->
  In (tk_word t) (unit_words (tk_unit t)) /\ forallb plain (tk_word t) = true
  /\ headp is_digit (tk_word t) = false /\ headp is_space (tk_word t) = false
  /\ tk_word t <> [].
Proof.
  intros H. apply existsb_exists in H as [w [Hin Heq]]. apply str_eqb_eq in Heq.
  subst w. split; [assumption |].
  pose proof (unit_words_plain (tk_unit t)) as Hp.
  pose proof (unit_words_avoid_digit (tk_unit t)) as Hd.
  pose proof (unit_words_avoid_space (tk_unit t)) as Hs.
  unfold words_avoid in Hd, Hs. rewrite forallb_forall in Hp, Hd, Hs.
  specialize (Hp _ Hin). specialize (Hd _ Hin). specialize (Hs _ Hin).
  apply andb_prop in Hd as [Hd Hne]. apply andb_prop in Hs as [Hs _].
  apply negb_true_iff in Hd, Hs.
  repeat split; auto. destruct (tk_word t); [discriminate | congruence].
Qed.

Lemma headp_app (p : Z -> bool) (a b : str) :
  a <> [] -> headp p (a ++ b) = headp p a.
Proof. destruct a; [congruence | reflexivity]. Qed.

Lemma gap_then_word_head (p : Z -> bool) (gap w z : str) :
  forallb (fun c => negb (p c)) gap = true -> headp p w = false -> w <> [] ->
  headp p (gap ++ w ++ z) = false.
Proof.
  intros Hg Hw Hne. destruct gap as [| c gap].
  - simpl. now rewrite headp_app.
  - simpl in *. apply andb_prop in Hg as [Hc _]. now apply negb_true_iff.
Qed.

Lemma gap_no_digit (gap : str) :
  forallb (fun c => is_space c && is_dot c) gap = true ->
  forallb (fun c => negb (is_digit c)) gap = true /\ forallb is_space gap = true.
Proof.
  induction gap as [| c gap IH]; simpl; [auto |].
  intros H. apply andb_prop in H as [Hc H]. apply andb_prop in Hc as [Hs _].
  destruct (IH H) as [-> ->]. rewrite Hs.
  destruct (is_digit c) eqn:Hd; [| auto].
  apply is_space_not_digit in Hd. congruence.
Qed.

(** Where a token starts, the pattern of its own unit matches it and leaves
    text without digits before the rest. *)
Lemma rmatch_token_own (t : token) (rest : str) :
  token_ok t = true -> (rest = [] \/ headp is_digit rest = true) ->
  exists j tl,
    rmatch (unit_pattern (unit_words (tk_unit t))) (token_text t ++ rest) []
    = (j ++ rest, [(1%nat, tk_quantity t)]) :: tl
    /\ forallb plain j = true
    /\ (length (j ++ rest) < length (token_text t ++ rest))%nat.
Proof.
  intros Hok Hrest. apply token_ok_parts in Hok as (Hne & Hq & Hgap & Hw & Htail).
  apply unit_word_in in Hw as (Hin & Hwp & Hwd & Hws & Hwne).
  destruct (gap_no_digit _ Hgap) as [Hgd Hgs].
  unfold token_text. repeat rewrite <- app_assoc.
  rewrite rmatch_unit_pattern
    by auto using unit_words_avoid_digit, unit_words_avoid_space.
  assert (Hhead : headp is_digit (tk_quantity t ++ tk_gap t ++ tk_word t ++ tk_tail t ++ rest) = true).
  { destruct (tk_quantity t) as [| d q]; [congruence |]. simpl in *.
    now apply andb_prop in Hq as [-> _]. }
  rewrite Hhead.
  destruct (take_skip_app is_digit (tk_quantity t)
              (tk_gap t ++ tk_word t ++ tk_tail t ++ rest) Hq) as [Htk Hsk].
  { now apply gap_then_word_head. }
  rewrite Htk, Hsk.
  destruct (take_skip_app is_space (tk_gap t) (tk_word t ++ tk_tail t ++ rest) Hgs) as [_ Hsk2].
  { now rewrite headp_app. }
  rewrite Hsk2.
  destruct (first_word_found (unit_words (tk_unit t)) (tk_word t ++ tk_tail t ++ rest))
    as (w0 & Hin0 & Hst0 & Hfw).
  { exists (tk_word t). split; [assumption | apply startswith_self]. }
  assert (Hw0 : forallb plain w0 = true /\ w0 <> []).
  { pose proof (unit_words_plain (tk_unit t)) as Hp.
    pose proof (unit_words_avoid_digit (tk_unit t)) as Hd.
    unfold words_avoid in Hd. rewrite forallb_forall in Hp, Hd.
    split; [now apply Hp |]. specialize (Hd _ Hin0).
    apply andb_prop in Hd as [_ Hd]. destruct w0; [discriminate | congruence]. }
  destruct Hw0 as [Hw0p Hw0ne].
  assert (Hlen : (length w0 <= length (tk_word t ++ tk_tail t))%nat).
  { apply (startswith_within w0 _ rest); auto. now rewrite <- app_assoc. }
  destruct (rmatch_alts_some _ _ _ [(1%nat, tk_quantity t)] Hfw) as [tl Htl].
  exists (skipn (length w0) (tk_word t ++ tk_tail t)), tl.
  split; [| split].
  - rewrite Htl. f_equal. f_equal.
    rewrite (app_assoc (tk_word t)), skipn_app.
    replace (length w0 - length (tk_word t ++ tk_tail t))%nat with 0%nat by lia.
    reflexivity.
  - apply forallb_skipn. rewrite forallb_app. now rewrite Hwp, Htail.
  - rewrite !length_app, length_skipn, !length_app.
    assert (0 < length w0)%nat by (destruct w0; [congruence | simpl; lia]).
    rewrite length_app in Hlen.
    assert (0 < length (tk_quantity t))%nat
      by (destruct (tk_quantity t); [congruence | simpl; lia]).
    lia.
Qed.

(** The pattern of another unit matches nowhere in the token. *)
Lemma finditer_token_other (x : unit_of_time) (t : token) (rest : str) :
  token_ok t = true -> unit_eqb (tk_unit t) x = false ->
  finditer (unit_pattern (unit_words x)) (token_text t ++ rest)
  = finditer (unit_pattern (unit_words x)) rest.
Proof.
  intros Hok Hx. apply token_ok_parts in Hok as (Hne & Hq & Hgap & Hw & Htail).
  pose proof (first_word_other_unit x (tk_unit t) (tk_word t) (tk_tail t ++ rest) Hx Hw) as Hfw.
  apply unit_word_in in Hw as (Hin & Hwp & Hwd & Hws & Hwne).
  destruct (gap_no_digit _ Hgap) as [Hgd Hgs].
  unfold token_text. repeat rewrite <- app_assoc.
  clear Hne. induction (tk_quantity t) as [| d q IH].
  - simpl. rewrite (app_assoc (tk_gap t)), (app_assoc (tk_gap t ++ tk_word t)).
    apply finditer_junk. unfold no_digit. rewrite !forallb_app.
    rewrite Hgd. fold (no_digit (tk_word t)). fold (no_digit (tk_tail t)).
    now rewrite !plain_no_digit.
  - simpl in Hq. apply andb_prop in Hq as [Hd Hq].
    rewrite <- app_comm_cons. rewrite finditer_skip; [auto |].
    rewrite rmatch_unit_pattern
      by auto using unit_words_avoid_digit, unit_words_avoid_space.
    cbn [headp]. rewrite Hd.
    destruct (take_skip_app is_digit (d :: q)
                (tk_gap t ++ tk_word t ++ tk_tail t ++ rest)) as [_ Hsk].
    { simpl. now rewrite Hd, Hq. }
    { now apply gap_then_word_head. }
    rewrite app_comm_cons, Hsk.
    destruct (take_skip_app is_space (tk_gap t) (tk_word t ++ tk_tail t ++ rest) Hgs) as [_ Hsk2].
    { now rewrite headp_app. }
    rewrite Hsk2. now apply rmatch_alts_none.
Qed.

Lemma finditer_tokens (x : unit_of_time) (toks : list token) :
  forallb token_ok toks = true ->
  forall j, forallb plain j = true ->
  finditer (unit_pattern (unit_words x)) (j ++ tokens_text toks) = quantities_of x toks.
Proof.
  induction toks as [| t toks IH]; intros Hok j Hj.
  - rewrite finditer_junk by now apply plain_no_digit.
    apply finditer_nil. now apply rmatch_unit_pattern_no_digit.
  - rewrite finditer_junk by now apply plain_no_digit.
    simpl in Hok. apply andb_prop in Hok as [Ht Hok].
    change (tokens_text (t :: toks)) with (token_text t ++ tokens_text toks).
    unfold quantities_of. simpl filter.
    destruct (unit_eqb (tk_unit t) x) eqn:Hx.
    + assert (tk_unit t = x) as <- by (destruct (tk_unit t), x; congruence || discriminate).
      destruct (rmatch_token_own t (tokens_text toks) Ht (tokens_text_head toks Hok))
        as (j' & tl & Hm & Hj' & Hlen).
      rewrite (finditer_hit _ _ _ _ Hm) by exact Hlen.
      cbn [fst snd map]. f_equal. now apply IH.
    + rewrite finditer_token_other by assumption.
      apply (IH Hok []). reflexivity.
Qed.

(** *** The sum *)

Lemma fold_quantities (x : unit_of_time) (toks : list token) (acc : Z) :
  fold_left (fun seconds m => seconds + int_group 1 m * unit_seconds x)
            (quantities_of x toks) acc
  = acc + unit_total x toks.
Proof.
  revert acc. unfold quantities_of.
  induction toks as [| t toks IH]; intros acc; simpl; [lia |].
  destruct (unit_eqb (tk_unit t) x) eqn:Hx; simpl.
  - rewrite IH. unfold int_group, token_seconds. simpl.
    assert (tk_unit t = x) as -> by (destruct (tk_unit t), x; congruence || discriminate).
    lia.
  - rewrite IH. lia.
Qed.

Lemma unit_totals_sum (toks : list token) :
  unit_total Seconds toks + unit_total Minutes toks + unit_total Hours toks
  + unit_total Days toks + unit_total Weeks toks + unit_total Months toks
  + unit_total Years toks = total_seconds toks.
Proof.
  induction toks as [| t toks IH]; [reflexivity |].
  simpl. rewrite <- IH. destruct (tk_unit t); simpl; lia.
Qed.

(** The parser's count over a sequence of tokens is the sum the
    specification speaks of. *)
Lemma count_seconds_tokens (j : str) (toks : list token) :
  forallb plain j = true -> forallb token_ok toks = true ->
  count_seconds (j ++ tokens_text toks) = total_seconds toks.
Proof.
  intros Hj Hok. unfold count_seconds, time_patterns. cbn [fold_left fst snd].
  change words_seconds with (unit_words Seconds).
  change words_minutes with (unit_words Minutes).
  change words_hours with (unit_words Hours).
  change words_days with (unit_words Days).
  change words_weeks with (unit_words Weeks).
  change words_months with (unit_words Months).
  change words_years with (unit_words Years).
  rewrite !finditer_tokens by assumption.
  change 1 with (unit_seconds Seconds) at 1.
  change 60 with (unit_seconds Minutes).
  change 3600 with (unit_seconds Hours).
  change 86400 with (unit_seconds Days).
  change 604800 with (unit_seconds Weeks).
  change 2592000 with (unit_seconds Months).
  change 31536000 with (unit_seconds Years).
  rewrite !fold_quantities. rewrite <- unit_totals_sum. lia.
Qed.

(** *** The keyword patterns *)

Lemma search_hit (r : regex) (s : str) (t : thread) (tl : list thread) :
  rmatch r s [] = t :: tl -> search r s = Some (snd t).
Proof. intros H. destruct s; simpl; rewrite H; reflexivity. Qed.

Lemma search_skip (r : regex) (c : Z) (s : str) :
  rmatch r (c :: s) [] = [] -> search r (c :: s) = search r s.
Proof. intros H. simpl. rewrite H. reflexivity. Qed.

Lemma rmatch_keyword_other (k : Z) (kw : str) (r : regex) (c : Z) (s : str) (g : groups) :
  c <> k -> rmatch (Cat (lits (k :: kw)) r) (c :: s) g = [].
Proof.
  intros Hc. rewrite rmatch_Cat, rmatch_lits. simpl.
  destruct (Z.eqb_spec k c); [congruence | reflexivity].
Qed.

Lemma search_skip_prefix (k : Z) (kw : str) (r : regex) (pre s : str) :
  forallb (fun c => negb (c =? k)) pre = true ->
  search (Cat (lits (k :: kw)) r) (pre ++ s) = search (Cat (lits (k :: kw)) r) s.
Proof.
  induction pre as [| c pre IH]; intros H; [reflexivity |].
  simpl in H. apply andb_prop in H as [Hc H].
  rewrite <- app_comm_cons, search_skip; [auto |].
  apply rmatch_keyword_other. apply negb_true_iff in Hc. now apply Z.eqb_neq.
Qed.

Lemma skipn_exact {A : Type} (a b : list A) : skipn (length a) (a ++ b) = b.
Proof. induction a; simpl; auto. Qed.

Lemma rmatch_keyword (kw : str) (r : regex) (s : str) (g : groups) :
  rmatch (Cat (lits kw) r) (kw ++ s) g = rmatch r s g.
Proof.
  rewrite rmatch_Cat, rmatch_lits, startswith_self, skipn_exact.
  simpl. apply app_nil_r.
Qed.

(** White space, then the rest of the line as group 1: the white space is
    taken whole, and so is the line. *)
Lemma rmatch_rest_of_line (s : str) (g : groups) :
  headp is_space s = true ->
  exists tl,
    rmatch (Cat (plus space) (Group 1 (Many dot))) s g
    = (skip_while is_dot (skip_while is_space s),
       (1%nat, take_while is_dot (skip_while is_space s)) :: g) :: tl.
Proof.
  intros Hs. destruct s as [| x s]; [discriminate |]. simpl in Hs.
  unfold plus, space, dot.
  rewrite rmatch_Cat, rmatch_Cat, rmatch_Class, Hs.
  cbn [flat_map fst snd]. rewrite app_nil_r, rmatch_many_class.
  destruct (class_threads_shape is_space g s) as [tl [-> _]].
  cbn [flat_map fst snd].
  rewrite rmatch_Group, rmatch_many_class.
  destruct (class_threads_shape is_dot g (skip_while is_space s)) as [tl' [-> _]].
  cbn [map fst snd]. rewrite firstn_take_while.
  simpl skip_while. rewrite Hs. eexists. reflexivity.
Qed.

Lemma tokens_text_dot (toks : list token) :
  forallb token_ok toks = true -> forallb is_dot (tokens_text toks) = true.
Proof.
  induction toks as [| t toks IH]; intros H; [reflexivity |].
  simpl in H. apply andb_prop in H as [Ht H].
  change (tokens_text (t :: toks)) with (token_text t ++ tokens_text toks).
  rewrite forallb_app, IH by assumption. rewrite andb_true_r.
  apply token_ok_parts in Ht as (_ & Hq & Hgap & Hw & Htail).
  apply unit_word_in in Hw as (_ & Hwp & _).
  unfold token_text. rewrite !forallb_app.
  repeat (apply andb_true_intro; split).
  - rewrite forallb_forall in Hq |- *. intros c Hc. apply digit_is_dot. auto.
  - rewrite forallb_forall in Hgap |- *. intros c Hc.
    specialize (Hgap c Hc). now apply andb_prop in Hgap as [_ ?].
  - rewrite forallb_forall in Hwp |- *. intros c Hc. apply plain_is_dot. auto.
  - rewrite forallb_forall in Htail |- *. intros c Hc. apply plain_is_dot. auto.
Qed.

(** What is left for the units after the keyword and its white space. *)
Lemma rest_of_line_tokens (ws filler : str) (toks : list token) :
  forallb is_space ws = true -> forallb plain filler = true ->
  forallb token_ok toks = true ->
  take_while is_dot (skip_while is_space (ws ++ filler ++ tokens_text toks))
  = skip_while is_space filler ++ tokens_text toks.
Proof.
  intros Hws Hf Hok.
  assert (Hhd : headp is_space (tokens_text toks) = false).
  { destruct (tokens_text_head toks Hok) as [-> | H]; [reflexivity |].
    destruct (tokens_text toks) as [| c s]; [reflexivity |].
    simpl in *. now apply is_space_not_digit. }
  assert (Hsw : skip_while is_space (ws ++ filler ++ tokens_text toks)
                = skip_while is_space filler ++ tokens_text toks).
  { rewrite <- (skip_while_app_stop is_space filler) by assumption.
    induction ws as [| c ws IH]; [reflexivity |].
    simpl in Hws. apply andb_prop in Hws as [Hc Hws]. simpl. rewrite Hc. auto. }
  rewrite Hsw. apply take_while_all. rewrite forallb_app.
  rewrite tokens_text_dot by assumption. rewrite andb_true_r.
  apply forallb_skip_while.
  rewrite forallb_forall in Hf |- *. intros c Hc. apply plain_is_dot. auto.
Qed.

Lemma headp_spaces (ws s : str) :
  ws <> [] -> forallb is_space ws = true -> headp is_space (ws ++ s) = true.
Proof.
  destruct ws as [| c ws]; [congruence |]. simpl. intros _ H.
  now apply andb_prop in H as [-> _].
Qed.


Lemma rmatch_ending (ending : str) (r : regex) (s : str) (g : groups) :
  In ending endings_kazhd ->
  exists tl, rmatch (Cat (alts (map lits endings_kazhd)) r) (ending ++ s) g
             = rmatch r s g ++ tl.
Proof.
  intros Hin. rewrite rmatch_Cat.
  assert (Hfw : first_word endings_kazhd (ending ++ s) = Some s).
  { unfold endings_kazhd in *. simpl in Hin.
    destruct Hin as [<- | [<- | [<- | [<- | []]]]]; reflexivity. }
  destruct (rmatch_alts_some _ _ _ g Hfw) as [tl ->].
  cbn [flat_map fst snd]. eexists. reflexivity.
Qed.

Lemma time_part_recurring (spec pre ending ws filler : str) (toks : list token) :
  lower spec = pre ++ recurring_text ending ws filler toks ->
  forallb (fun c => negb (c =? 1082)) pre = true ->
  In ending endings_kazhd ->
  ws <> [] -> forallb is_space ws = true ->
  forallb plain filler = true -> forallb token_ok toks = true ->
  time_part_after re_recurring spec = skip_while is_space filler ++ tokens_text toks.
Proof.
  intros Hl Hpre Hend Hne Hws Hf Hok. unfold time_part_after. rewrite Hl.
  unfold re_recurring, recurring_text.
  change kw_kazhd with (1082 :: tl kw_kazhd) at 1.
  rewrite search_skip_prefix by assumption.
  change (1082 :: tl kw_kazhd) with kw_kazhd.
  destruct (rmatch_rest_of_line (ws ++ filler ++ tokens_text toks) [])
    as [tl Htl]; [now apply headp_spaces |].
  destruct (rmatch_ending ending (Cat (plus space) (Group 1 (Many dot)))
              (ws ++ filler ++ tokens_text toks) [] Hend) as [tl' Htl'].
  erewrite search_hit by (rewrite rmatch_keyword, Htl', Htl; reflexivity).
  cbn [snd group Nat.eqb]. now apply rest_of_line_tokens.
Qed.

(** *** The absolute pattern *)

Lemma rmatch_hour_minutes_no_digit (s : str) (g : groups) :
  headp is_digit s = false -> rmatch re_hour_minutes s g = [].
Proof.
  intros H. unfold re_hour_minutes, digit.
  rewrite rmatch_Cat, rmatch_Group, rmatch_Cat, rmatch_Class.
  destruct s as [| x s]; [reflexivity |]. simpl in H. rewrite H. reflexivity.
Qed.

Lemma refuses_space_hour_minutes : refuses is_space re_hour_minutes.
Proof.
  intros s g H. apply rmatch_hour_minutes_no_digit.
  destruct s as [| x s]; [reflexivity |]. simpl in *.
  destruct (is_digit x) eqn:Hd; [| reflexivity].
  apply is_space_not_digit in Hd. congruence.
Qed.

Lemma rmatch_plus_then (p : Z -> bool) (r : regex) (s : str) (g : groups) :
  refuses p r ->
  rmatch (Cat (plus (Class p)) r) s g
  = if headp p s then rmatch r (skip_while p s) g else [].
Proof.
  intros Hr. unfold plus. rewrite rmatch_Cat, rmatch_Cat, rmatch_Class.
  destruct s as [| x s]; [reflexivity |].
  cbn [headp]. destruct (p x) eqn:Hp; [| reflexivity].
  cbn [flat_map fst snd]. rewrite app_nil_r, rmatch_many_class.
  rewrite flat_map_class_threads by assumption.
  simpl. now rewrite Hp.
Qed.

Lemma rmatch_absolute (s : str) :
  rmatch re_absolute s []
  = match s with
    | c :: s' =>
        if (c =? 1074) && headp is_space s'
        then rmatch re_hour_minutes (skip_while is_space s') []
        else []
    | [] => []
    end.
Proof.
  unfold re_absolute. fold re_hour_minutes.
  rewrite rmatch_Cat, rmatch_lits.
  destruct s as [| c s]; [reflexivity |].
  unfold kw_v. cbn [startswith length skipn]. rewrite (Z.eqb_sym 1074 c).
  destruct (c =? 1074); [| reflexivity].
  cbn [andb flat_map fst snd]. rewrite app_nil_r.
  unfold space. rewrite rmatch_plus_then by apply refuses_space_hour_minutes.
  reflexivity.
Qed.

Lemma no_digit_before_keyword (p z : str) :
  no_digit p = true -> headp is_digit (skip_while is_space (p ++ 1074 :: z)) = false.
Proof.
  induction p as [| c p IH]; intros H.
  - reflexivity.
  - simpl in H. apply andb_prop in H as [Hc H]. apply negb_true_iff in Hc.
    simpl. destruct (is_space c); [auto | simpl; exact Hc].
Qed.

Lemma search_absolute_skip_prefix (pre z : str) :
  no_digit pre = true ->
  search re_absolute (pre ++ 1074 :: z) = search re_absolute (1074 :: z).
Proof.
  induction pre as [| c pre IH]; intros H; [reflexivity |].
  simpl in H. apply andb_prop in H as [Hc H].
  rewrite <- app_comm_cons, search_skip; [auto |].
  rewrite rmatch_absolute.
  destruct ((c =? 1074) && headp is_space (pre ++ 1074 :: z)); [| reflexivity].
  apply rmatch_hour_minutes_no_digit. now apply no_digit_before_keyword.
Qed.

Lemma firstn_prefix {A : Type} (a b : list A) :
  firstn (length (a ++ b) - length b) (a ++ b) = a.
Proof.
  rewrite length_app. replace (length a + length b - length b)%nat with (length a) by lia.
  rewrite firstn_app, Nat.sub_diag, firstn_all. simpl. apply app_nil_r.
Qed.

Lemma rmatch_Group_hd (n : nat) (r : regex) (a b : str) (g g' : groups)
      (tl : list thread) :
  rmatch r (a ++ b) g = (b, g') :: tl ->
  exists tl', rmatch (Group n r) (a ++ b) g = (b, (n, a) :: g') :: tl'.
Proof.
  intros H. rewrite rmatch_Group, H. cbn [map fst snd].
  rewrite firstn_prefix. eexists. reflexivity.
Qed.

Lemma rmatch_hour (hh rest : str) (g : groups) :
  (length hh = 1 \/ length hh = 2)%nat -> forallb is_digit hh = true ->
  (length hh = 1%nat -> headp is_digit rest = false) ->
  exists tl, rmatch (Group 1 (Cat digit (opt digit))) (hh ++ rest) g
             = (rest, (1%nat, hh) :: g) :: tl.
Proof.
  intros Hlen Hd Hrest.
  destruct hh as [| d1 [| d2 [| d3 hh]]]; simpl in Hlen; try lia.
  - simpl in Hd. rewrite andb_true_r in Hd.
    eapply (rmatch_Group_hd 1 _ [d1] rest). unfold digit, opt.
    change ([d1] ++ rest) with (d1 :: rest).
    rewrite rmatch_Cat, rmatch_Class, Hd.
    cbn [flat_map fst snd]. rewrite rmatch_Or, rmatch_Class.
    specialize (Hrest eq_refl). destruct rest as [| y rest].
    + reflexivity.
    + simpl in Hrest. rewrite Hrest. reflexivity.
  - simpl in Hd. apply andb_prop in Hd as [Hd1 Hd2]. rewrite andb_true_r in Hd2.
    eapply (rmatch_Group_hd 1 _ [d1; d2] rest). unfold digit, opt.
    change ([d1; d2] ++ rest) with (d1 :: d2 :: rest).
    rewrite rmatch_Cat, rmatch_Class, Hd1.
    cbn [flat_map fst snd]. rewrite rmatch_Or, rmatch_Class, Hd2. reflexivity.
Qed.

Lemma rmatch_minutes (mm rest : str) (g : groups) :
  length mm = 2%nat -> forallb is_digit mm = true ->
  exists tl, rmatch (opt (Cat (Lit 58) (Group 2 (Cat digit digit)))) (58 :: mm ++ rest) g
             = (rest, (2%nat, mm) :: g) :: tl.
Proof.
  intros Hlen Hd. destruct mm as [| m1 [| m2 [| m3 mm]]]; simpl in Hlen; try lia.
  simpl in Hd. apply andb_prop in Hd as [Hd1 Hd2]. rewrite andb_true_r in Hd2.
  unfold opt. rewrite rmatch_Or, rmatch_Cat.
  change (rmatch (Lit 58) (58 :: [m1; m2] ++ rest) g) with [([m1; m2] ++ rest, g)].
  cbn [flat_map fst snd].
  destruct (rmatch_Group_hd 2 (Cat digit digit) [m1; m2] rest g g []) as [tl' ->].
  { unfold digit. change ([m1; m2] ++ rest) with (m1 :: m2 :: rest).
    rewrite rmatch_Cat, rmatch_Class, Hd1.
    cbn [flat_map fst snd]. rewrite rmatch_Class, Hd2. reflexivity. }
  eexists. reflexivity.
Qed.

Lemma rmatch_no_minutes (rest : str) (g : groups) :
  headp (fun c => c =? 58) rest = false ->
  rmatch (opt (Cat (Lit 58) (Group 2 (Cat digit digit)))) rest g = [(rest, g)].
Proof.
  intros H. unfold opt. rewrite rmatch_Or, rmatch_Cat.
  destruct rest as [| y rest]; [reflexivity |]. simpl in H.
  cbn [rmatch]. rewrite H. reflexivity.
Qed.

Lemma search_absolute_text (pre ws hh : str) (mm : option str) (suf : str) :
  no_digit pre = true -> ws <> [] -> forallb is_space ws = true ->
  (length hh = 1 \/ length hh = 2)%nat -> forallb is_digit hh = true ->
  minutes_ok mm = true ->
  headp (fun c => is_digit c || (c =? 58)) suf = false ->
  exists m, search re_absolute (pre ++ absolute_text ws hh mm ++ suf) = Some m
            /\ group 1 m = Some hh /\ group 2 m = mm.
Proof.
  intros Hpre Hne Hws Hlen Hd Hmm Hsuf.
  unfold absolute_text, kw_v. fold (minutes_text mm).
  repeat rewrite <- app_assoc. simpl app.
  rewrite search_absolute_skip_prefix by assumption.
  assert (Hsuf' : headp is_digit suf = false /\ headp (fun c => c =? 58) suf = false).
  { destruct suf as [| y suf]; [auto |]. simpl in *. now apply orb_false_elim in Hsuf. }
  destruct Hsuf' as [Hsd Hsc].
  assert (Hhh : hh <> []) by (destruct hh; [simpl in Hlen; lia | congruence]).
  assert (Hm : exists tl, rmatch re_absolute (1074 :: ws ++ hh ++ minutes_text mm ++ suf) []
                          = (suf, match mm with
                                  | Some m => [(2%nat, m); (1%nat, hh)]
                                  | None => [(1%nat, hh)]
                                  end) :: tl).
  { rewrite rmatch_absolute, Z.eqb_refl, headp_spaces by assumption.
    cbn [andb].
    destruct (take_skip_app is_space ws (hh ++ minutes_text mm ++ suf) Hws) as [_ ->].
    { rewrite headp_app by assumption. destruct hh as [| d hh]; [congruence |].
      simpl in *. apply andb_prop in Hd as [Hd _].
      now apply is_space_not_digit. }
    unfold re_hour_minutes. rewrite rmatch_Cat.
    destruct (rmatch_hour hh (minutes_text mm ++ suf) [] Hlen Hd) as [tl ->].
    { intros _. destruct mm as [m |]; [reflexivity | exact Hsd]. }
    cbn [flat_map fst snd].
    destruct mm as [m |].
    - simpl in Hmm. apply andb_prop in Hmm as [Hl Hdm]. apply Nat.eqb_eq in Hl.
      change (minutes_text (Some m) ++ suf) with (58 :: m ++ suf).
      destruct (rmatch_minutes m suf [(1%nat, hh)] Hl Hdm) as [tl' ->].
      eexists. reflexivity.
    - change (minutes_text None ++ suf) with suf.
      rewrite rmatch_no_minutes by assumption.
      eexists. reflexivity. }
  destruct Hm as [tl Hm].
  eexists. split; [eapply search_hit; exact Hm |].
  cbn [snd]. destruct mm; split; reflexivity.
Qed.

(** ** The time-spec parser *)

Lemma contains_app (kw pre s : str) : contains kw (pre ++ kw ++ s) = true.
Proof.
  induction pre as [| c pre IH].
  - destruct (kw ++ s) eqn:E; simpl; rewrite <- E, startswith_self; reflexivity.
  - simpl. rewrite IH. apply orb_true_r.
Qed.


Lemma parse_recurring_of_count (spec : str) (now : datetime) :
  (count_seconds (time_part_after re_recurring spec) = 0 ->
   _parse_recurring_time spec now = Ret (None, false, None))
  /\ (count_seconds (time_part_after re_recurring spec) <> 0 ->
      in_range (now + count_seconds (time_part_after re_recurring spec) * second_us) = true ->
      _parse_recurring_time spec now
      = Ret (Some (now + count_seconds (time_part_after re_recurring spec) * second_us),
             true, Some (count_seconds (time_part_after re_recurring spec)))).
Proof.
  unfold _parse_recurring_time, add_seconds, parse_failure. split.
  - intros ->. reflexivity.
  - intros Hnz Hr. destruct (Z.eqb_spec (count_seconds (time_part_after re_recurring spec)) 0);
      [contradiction |].
    rewrite Hr. reflexivity.
Qed.



Lemma int_of_digits_nonneg (s : str) :
  forallb is_digit s = true -> 0 <= int_of_digits s.
Proof.
  unfold int_of_digits.
  assert (H : forall acc, 0 <= acc -> forallb is_digit s = true ->
                          0 <= fold_left (fun a c => a * 10 + (c - 48)) s acc).
  { induction s as [| c s IH]; intros acc Hacc Hd; [exact Hacc |].
    simpl in Hd. apply andb_prop in Hd as [Hc Hd]. simpl. apply IH; [| exact Hd].
    unfold is_digit in Hc. apply andb_prop in Hc as [H1 H2].
    apply Z.leb_le in H1, H2. lia. }
  apply H. lia.
Qed.

Lemma replace_time_ok (now h m : Z) :
  0 <= h <= 23 -> 0 <= m <= 59 -> replace_time now h m = Ret (today_at now h m).
Proof.
  intros Hh Hm. unfold replace_time, today_at.
  destruct (Z.leb_spec 0 h), (Z.leb_spec h 23); try lia.
  destruct (Z.leb_spec 0 m), (Z.leb_spec m 59); try lia.
  reflexivity.
Qed.







(** ** The timer dictionary *)

Lemma str_eqb_true_iff (a b : str) : str_eqb a b = true <-> a = b.
Proof. split; [apply str_eqb_eq | intros ->; apply str_eqb_refl]. Qed.

Lemma str_eqb_false_iff (a b : str) : str_eqb a b = false <-> a <> b.
Proof.
  unfold str_eqb. destruct (list_eq_dec Z.eq_dec a b); split; congruence.
Qed.

Lemma dict_get_update (k q : str) (f : timer -> timer) (d : dict) :
  dict_get q (dict_update k f d)
  = if str_eqb k q then option_map f (dict_get q d) else dict_get q d.
Proof.
  induction d as [| [k' v] d IH]; simpl.
  - destruct (str_eqb k q); reflexivity.
  - destruct (str_eqb k' k) eqn:Hk; simpl.
    + apply str_eqb_eq in Hk. subst k'.
      destruct (str_eqb k q); reflexivity.
    + destruct (str_eqb k' q) eqn:Hq.
      * apply str_eqb_eq in Hq. subst k'. now rewrite (proj2 (str_eqb_false_iff k q)) by
          (intros ->; now rewrite str_eqb_refl in Hk).
      * exact IH.
Qed.

Lemma dict_get_set (k q : str) (v : timer) (d : dict) :
  dict_get q (dict_set k v d) = if str_eqb k q then Some v else dict_get q d.
Proof.
  induction d as [| [k' v'] d IH]; simpl.
  - reflexivity.
  - destruct (str_eqb k' k) eqn:Hk; simpl.
    + apply str_eqb_eq in Hk. subst k'. destruct (str_eqb k q); reflexivity.
    + destruct (str_eqb k' q) eqn:Hq.
      * apply str_eqb_eq in Hq. subst k'. now rewrite (proj2 (str_eqb_false_iff k q)) by
          (intros ->; now rewrite str_eqb_refl in Hk).
      * exact IH.
Qed.

Lemma dict_keys_update (k : str) (f : timer -> timer) (d : dict) :
  dict_keys (dict_update k f d) = dict_keys d.
Proof.
  induction d as [| [k' v] d IH]; simpl; [reflexivity |].
  destruct (str_eqb k' k); simpl; [reflexivity | now rewrite IH].
Qed.

Lemma dict_set_stored (k : str) (t : timer) (d : dict) :
  dict_get k d = Some t -> dict_set k t d = d.
Proof.
  induction d as [| [k' v] d IH]; simpl; [discriminate |].
  destruct (str_eqb k' k); [now intros [= ->] | intros H; now rewrite IH].
Qed.

Lemma dict_set_new (k : str) (t : timer) (d : dict) :
  dict_get k d = None -> dict_set k t d = d ++ [(k, t)].
Proof.
  induction d as [| [k' v] d IH]; simpl; [reflexivity |].
  destruct (str_eqb k' k); [discriminate | intros H; now rewrite IH].
Qed.

Lemma dict_get_in (k : str) (t : timer) (d : dict) :
  dict_get k d = Some t -> In (k, t) d.
Proof.
  induction d as [| [k' v] d IH]; simpl; [discriminate |].
  destruct (str_eqb k' k) eqn:Hk.
  - apply str_eqb_eq in Hk. subst k'. intros [= ->]. now left.
  - intros H. right. auto.
Qed.

Lemma dict_get_none_keys (k : str) (d : dict) :
  dict_get k d = None -> ~ In k (dict_keys d).
Proof.
  induction d as [| [k' v] d IH]; simpl; [tauto |].
  destruct (str_eqb k' k) eqn:Hk; [discriminate |].
  intros H [-> | Hin]; [now rewrite str_eqb_refl in Hk | now apply IH].
Qed.

Lemma Forall_record_update (k : str) (f : timer -> timer) (d : dict) :
  keeps_record f -> Forall record_ok d -> Forall record_ok (dict_update k f d).
Proof.
  intros Hf. induction 1 as [| [k' v] d Hk Hd IH]; simpl; [constructor |].
  destruct (str_eqb k' k); constructor; auto.
Qed.

Lemma keeps_set_name (v : str) : keeps_record (set_name v).
Proof. intros k t H. exact H. Qed.

Lemma keeps_set_action (v : option str) : keeps_record (set_action v).
Proof. intros k t H. exact H. Qed.

Lemma keeps_set_procedure (v : option str) : keeps_record (set_procedure v).
Proof. intros k t H. exact H. Qed.

Lemma keeps_set_next_run (v : Z) : keeps_record (set_next_run v).
Proof. intros k t H. exact H. Qed.

Lemma keeps_set_status (v : status) : keeps_record (set_status v).
Proof. intros k t H. exact H. Qed.

Lemma keeps_set_schedule (spec : str) (nr : Z) (rec : bool) (ivl : option Z) :
  (rec = true -> truthy_interval ivl = true) ->
  keeps_record (set_schedule spec nr rec ivl).
Proof. intros H k t [Hid _]. split; [exact Hid | exact H]. Qed.

Lemma store_ok_update (k : str) (f : timer -> timer) (st : state) :
  keeps_record f -> store_ok st ->
  store_ok (with_timers (dict_update k f (timers st)) st).
Proof.
  intros Hf [Hnd Hall]. split; simpl.
  - now rewrite dict_keys_update.
  - now apply Forall_record_update.
Qed.

Lemma stored_id (k : str) (t : timer) (st : state) :
  store_ok st -> dict_get k (timers st) = Some t -> timer_id t = k.
Proof.
  intros [_ Hall] H. apply dict_get_in in H.
  rewrite Forall_forall in Hall. now destruct (Hall _ H).
Qed.

Lemma stored_recurring (k : str) (t : timer) (st : state) :
  store_ok st -> dict_get k (timers st) = Some t ->
  is_recurring t = true -> truthy_interval (recurrence_interval t) = true.
Proof.
  intros [_ Hall] H. apply dict_get_in in H.
  rewrite Forall_forall in Hall. now destruct (Hall _ H).
Qed.

(** ** What the parser can return *)

Lemma add_seconds_raises (d n : Z) (e : exn) :
  add_seconds d n = Raise e -> e = OverflowError.
Proof. unfold add_seconds. destruct (in_range _); congruence. Qed.

Lemma replace_time_raises (d h m : Z) (e : exn) :
  replace_time d h m = Raise e -> e = ValueError.
Proof.
  unfold replace_time.
  destruct (negb _); [congruence |]. destruct (negb _); congruence.
Qed.

Lemma parse_relative_outcome (spec : str) (now : datetime) :
  match _parse_relative_time spec now with
  | Ret (_, rec, ivl) => rec = false
  | Raise e => e = OverflowError
  end.
Proof.
  unfold _parse_relative_time, parse_failure.
  destruct (_ =? 0); [reflexivity |].
  destruct (add_seconds _ _) eqn:E; simpl; [reflexivity |].
  now apply add_seconds_raises in E.
Qed.

Lemma parse_recurring_outcome (spec : str) (now : datetime) :
  match _parse_recurring_time spec now with
  | Ret (_, rec, ivl) => rec = true -> truthy_interval ivl = true
  | Raise e => e = OverflowError
  end.
Proof.
  unfold _parse_recurring_time, parse_failure.
  destruct (Z.eqb_spec (count_seconds (time_part_after re_recurring spec)) 0) as [| Hnz];
    [discriminate |].
  destruct (add_seconds _ _) eqn:E; simpl.
  - intros _. now apply negb_true_iff, Z.eqb_neq.
  - now apply add_seconds_raises in E.
Qed.

Lemma parse_absolute_outcome (spec : str) (now : datetime) :
  match _parse_absolute_time spec now with
  | Ret (_, rec, ivl) => rec = true -> truthy_interval ivl = true
  | Raise e => e = ValueError \/ e = OverflowError
  end.
Proof.
  unfold _parse_absolute_time, parse_failure.
  destruct (search re_absolute (lower spec)); [| discriminate].
  destruct (replace_time _ _ _) as [d |] eqn:E; simpl.
  - destruct (d <=? now).
    + unfold add_days. destruct (add_seconds _ _) eqn:E2; simpl.
      * now intros ->.
      * right. now apply add_seconds_raises in E2.
    + simpl. now intros ->.
  - left. now apply replace_time_raises in E.
Qed.

(** Whatever the parser returns as recurring has an interval that is not
    zero, and whatever it raises derives from [Exception]. *)
Lemma parse_time_spec_outcome (spec : str) (now : datetime) :
  match _parse_time_spec spec now with
  | Ret (_, rec, ivl) => rec = true -> truthy_interval ivl = true
  | Raise e => is_Exception e = true
  end.
Proof.
  pose proof (parse_relative_outcome spec now) as Hrel.
  pose proof (parse_recurring_outcome spec now) as Hrec.
  pose proof (parse_absolute_outcome spec now) as Habs.
  unfold _parse_time_spec.
  destruct (contains kw_cherez _).
  { destruct (_parse_relative_time spec now) as [[[nr rec] ivl] | e];
      [intros; congruence | now subst e]. }
  destruct (contains kw_kazhd _).
  { destruct (_parse_recurring_time spec now) as [[[nr rec] ivl] | e];
      [exact Hrec | now subst e]. }
  destruct (contains kw_v_space _).
  { destruct (_parse_absolute_time spec now) as [[[nr rec] ivl] | e];
      [exact Habs | now destruct Habs as [-> | ->]]. }
  cbn [try_parsers].
  destruct (_parse_relative_time spec now) as [[[[nr |] rec] ivl] | e];
    try (intros; congruence);
    (destruct (_parse_recurring_time spec now) as [[[[nr2 |] rec2] ivl2] | e2];
     try exact Hrec;
     (destruct (_parse_absolute_time spec now) as [[[[nr3 |] rec3] ivl3] | e3];
      try exact Habs; unfold parse_failure; discriminate)).
Qed.

(** ** The store under the operations *)

Lemma evolves_refl (R : timer -> timer -> Prop) (d : dict) :
  (forall t, R t t) -> evolves R d d.
Proof. intros HR q. destruct (dict_get q d); auto. Qed.

Lemma evolves_trans (R : timer -> timer -> Prop) (d1 d2 d3 : dict) :
  (forall a b c, R a b -> R b c -> R a c) ->
  evolves R d1 d2 -> evolves R d2 d3 -> evolves R d1 d3.
Proof.
  intros HR H12 H23 q. specialize (H12 q). specialize (H23 q).
  destruct (dict_get q d1), (dict_get q d2), (dict_get q d3); eauto; contradiction.
Qed.

Lemma evolves_update (R : timer -> timer -> Prop) (k : str) (f : timer -> timer)
      (d : dict) :
  (forall t, R t t) -> (forall t, dict_get k d = Some t -> R t (f t)) ->
  evolves R d (dict_update k f d).
Proof.
  intros Hrefl Hf q. rewrite dict_get_update.
  destruct (str_eqb k q) eqn:Hk.
  - apply str_eqb_eq in Hk. subst q. destruct (dict_get k d); simpl; auto.
  - destruct (dict_get q d); auto.
Qed.

Lemma fire_rel_refl (t : timer) : fire_rel t t.
Proof. split; auto. Qed.

Lemma fire_rel_trans (a b c : timer) : fire_rel a b -> fire_rel b c -> fire_rel a c.
Proof.
  intros [Hr1 Hs1] [Hr2 Hs2]. split; [congruence |].
  destruct Hs1 as [Hs1 | (Ha & Hb & Hn)], Hs2 as [Hs2 | (Ha2 & Hb2 & Hn2)].
  - left. congruence.
  - right. repeat split; congruence.
  - right. repeat split; congruence.
  - congruence.
Qed.

Lemma same_status_refl (t : timer) : same_status t t.
Proof. reflexivity. Qed.

Lemma same_status_trans (a b c : timer) :
  same_status a b -> same_status b c -> same_status a c.
Proof. unfold same_status. congruence. Qed.

Lemma store_ok_timers (st st' : state) :
  timers st' = timers st -> store_ok st -> store_ok st'.
Proof. unfold store_ok. now intros ->. Qed.

Lemma store_ok_as (st0 st' : state) (d : dict) :
  timers st' = d -> store_ok (with_timers d st0) -> store_ok st'.
Proof. unfold store_ok. simpl. now intros ->. Qed.

Section TimerToolProperties.

Variable timestamp : datetime -> Z.
Variable fromtimestamp : Z -> datetime.
Variable ast_parse : str -> option (Z * Z).

Lemma save_entry_timers (e : env) (k : str) (st : state) :
  store_ok st -> timers (save_entry e k st) = timers st.
Proof.
  intros Hok. unfold save_entry, _save_timer_to_redis.
  destruct (dict_get k (timers st)) as [t |] eqn:E; [| reflexivity].
  simpl. rewrite (stored_id k t st Hok E). now apply dict_set_stored.
Qed.


(** An assignment to a field of a stored record, then the save. *)
Lemma update_and_save (e : env) (k : str) (f : timer -> timer) (st : state) :
  keeps_record f -> store_ok st ->
  timers (save_entry e k (with_timers (dict_update k f (timers st)) st))
  = dict_update k f (timers st).
Proof.
  intros Hf Hok. rewrite save_entry_timers; [reflexivity |].
  now apply store_ok_update.
Qed.

Lemma snd_try_except {A : Type} (body : result A * state) (handler : exn -> A) :
  snd (try_except body handler) = snd body.
Proof.
  unfold try_except. destruct body as [[a | ex] st]; [reflexivity |].
  destruct (is_Exception ex); reflexivity.
Qed.

Lemma fst_try_except_contained {A : Type} (body : result A * state) (handler : exn -> A) :
  (forall ex, fst body = Raise ex -> is_Exception ex = true) ->
  exists a, fst (try_except body handler) = Ret a.
Proof.
  unfold try_except. destruct body as [[a | ex] st]; intros H; simpl.
  - eauto.
  - rewrite (H ex eq_refl). simpl. eauto.
Qed.

Lemma run_procedure_state (e : env) (t : timer) (st : state) :
  snd (run_procedure e t st) = st.
Proof.
  unfold run_procedure. destruct (truthy_str (procedure t)); [| reflexivity].
  rewrite snd_try_except. destruct (procedure_raises e); reflexivity.
Qed.

Lemma run_action_store (e : env) (t : timer) (st : state) :
  timers (snd (run_action e t st)) = timers st
  /\ redis (snd (run_action e t st)) = redis st.
Proof.
  unfold run_action. destruct (action t) as [[| c a] |]; auto.
  destruct (agent st) as [ag |]; auto.
  rewrite snd_try_except. destruct (sink_raises e); auto.
Qed.

Lemma finish_firing_timers (e : env) (id : str) (t : timer) (st : state) :
  store_ok st ->
  timers (finish_firing timestamp e id t st)
  = if is_recurring t && truthy_interval (recurrence_interval t)
    then dict_update id
           (set_next_run (reschedule (next_run t) (interval_us (recurrence_interval t))
                                     (timestamp (now e))))
           (timers st)
    else dict_update id (set_status completed) (timers st).
Proof.
  intros Hok. unfold finish_firing.
  destruct (is_recurring t && truthy_interval (recurrence_interval t)).
  - apply update_and_save; [apply keeps_set_next_run | assumption].
  - apply update_and_save; [apply keeps_set_status | assumption].
Qed.

(** A firing leaves the dictionary as it is, or finishes: the record of the
    timer, found active, gets its next occurrence or is marked completed. *)
Lemma execute_timer_timers (e : env) (id : str) (st : state) :
  store_ok st ->
  timers (snd (_execute_timer timestamp e id st)) = timers st
  \/ exists t, dict_get id (timers st) = Some t /\ timer_status t = active
               /\ timers (snd (_execute_timer timestamp e id st))
                  = if is_recurring t && truthy_interval (recurrence_interval t)
                    then dict_update id
                           (set_next_run
                              (reschedule (next_run t)
                                          (interval_us (recurrence_interval t))
                                          (timestamp (now e))))
                           (timers st)
                    else dict_update id (set_status completed) (timers st).
Proof.
  intros Hok. unfold _execute_timer. rewrite snd_try_except.
  destruct (dict_get id (timers st)) as [t |] eqn:Eget; [| now left].
  destruct (timer_status t) eqn:Est; simpl; try now left.
  pose proof (run_procedure_state e t st) as Hp.
  destruct (run_procedure e t st) as [[[] | ex] st1]; simpl in Hp; subst st1;
    [| now left].
  destruct (run_action_store e t st) as [Ha _].
  destruct (run_action e t st) as [[[] | ex] st2]; simpl in Ha; [| now left].
  right. exists t. repeat split; auto. simpl.
  rewrite finish_firing_timers by (eapply store_ok_timers; eauto).
  now rewrite Ha.
Qed.

Lemma execute_timer_store_ok (e : env) (id : str) (st : state) :
  store_ok st -> store_ok (snd (_execute_timer timestamp e id st)).
Proof.
  intros Hok. destruct (execute_timer_timers e id st Hok) as [H | (t & _ & _ & H)].
  - eapply store_ok_timers; eauto.
  - destruct (is_recurring t && truthy_interval (recurrence_interval t)).
    + eapply store_ok_as; [exact H |].
      apply store_ok_update; [apply keeps_set_next_run | exact Hok].
    + eapply store_ok_as; [exact H |].
      apply store_ok_update; [apply keeps_set_status | exact Hok].
Qed.

Lemma execute_timer_evolves (e : env) (id : str) (st : state) :
  store_ok st ->
  evolves fire_rel (timers st) (timers (snd (_execute_timer timestamp e id st))).
Proof.
  intros Hok. destruct (execute_timer_timers e id st Hok) as [-> | (t & Hget & Hact & ->)].
  - apply evolves_refl, fire_rel_refl.
  - destruct (is_recurring t && truthy_interval (recurrence_interval t)) eqn:Hrec.
    + apply evolves_update; [apply fire_rel_refl |]. intros t0 _. split; auto.
    + apply evolves_update; [apply fire_rel_refl |]. intros t0 Ht0.
      assert (t0 = t) by congruence. subst t0.
      split; [reflexivity |]. right. repeat split; auto.
      destruct (is_recurring t) eqn:Hr; [| reflexivity].
      rewrite (stored_recurring id t st Hok Hget Hr) in Hrec. discriminate.
Qed.

Lemma execute_timer_other (e : env) (id q : str) (st : state) :
  store_ok st -> q <> id ->
  dict_get q (timers (snd (_execute_timer timestamp e id st))) = dict_get q (timers st).
Proof.
  intros Hok Hq. destruct (execute_timer_timers e id st Hok) as [-> | (t & _ & _ & ->)];
    [reflexivity |].
  destruct (is_recurring t && truthy_interval (recurrence_interval t));
    rewrite dict_get_update;
    rewrite (proj2 (str_eqb_false_iff id q)) by congruence; reflexivity.
Qed.

Lemma fold_execute (e : env) (ids : list str) :
  forall st, store_ok st ->
  store_ok (fold_left (fun st id => snd (_execute_timer timestamp e id st)) ids st)
  /\ evolves fire_rel (timers st)
       (timers (fold_left (fun st id => snd (_execute_timer timestamp e id st)) ids st)).
Proof.
  induction ids as [| id ids IH]; intros st Hok; simpl.
  - split; [assumption | apply evolves_refl, fire_rel_refl].
  - destruct (IH _ (execute_timer_store_ok e id st Hok)) as [Hok' Hev].
    split; [assumption |].
    eapply evolves_trans; [apply fire_rel_trans | | exact Hev].
    now apply execute_timer_evolves.
Qed.

Lemma cancel_timer_timers (e : env) (id : str) (st : state) :
  store_ok st ->
  timers (snd (cancel_timer e id st))
  = match dict_get id (timers st) with
    | Some _ => dict_update id (set_status cancelled) (timers st)
    | None => timers st
    end.
Proof.
  intros Hok. unfold cancel_timer. destruct (dict_get id (timers st)); [| reflexivity].
  simpl. apply update_and_save; [apply keeps_set_status | assumption].
Qed.

Lemma dict_set_twice (k : str) (t : timer) (d : dict) :
  dict_set k t (dict_set k t d) = dict_set k t d.
Proof. apply dict_set_stored. now rewrite dict_get_set, str_eqb_refl. Qed.

(** [create_timer] leaves the dictionary as it is or stores one new active
    record under the identifier it drew. *)
Lemma create_timer_timers (e : env) (ts : str) (n a p : option str) (st : state) :
  timers (snd (create_timer timestamp ast_parse e ts n a p st)) = timers st
  \/ exists t, timer_id t = uuid4 e /\ timer_status t = active
               /\ (is_recurring t = true ->
                   truthy_interval (recurrence_interval t) = true)
               /\ timers (snd (create_timer timestamp ast_parse e ts n a p st))
                  = dict_set (uuid4 e) t (timers st).
Proof.
  unfold create_timer. rewrite snd_try_except.
  destruct (if truthy_str p then _ else _) as [[] | ex]; [| now left].
  pose proof (parse_time_spec_outcome ts (now e)) as Hp.
  destruct (_parse_time_spec ts (now e)) as [[[[nr |] rec] ivl] | ex]; try now left.
  right. eexists. repeat split; [| | | cbn; rewrite dict_set_twice; reflexivity];
    [reflexivity | reflexivity | exact Hp].
Qed.

(** A call of [create_timer] that does not report a created timer leaves the
    whole state as it was. *)
Lemma create_timer_failure (e : env) (ts : str) (n a p : option str) (st : state) :
  match fst (create_timer timestamp ast_parse e ts n a p st) with
  | Ret (CreatedRecurring _ _ _ _) | Ret (CreatedOneShot _ _ _) => True
  | _ => snd (create_timer timestamp ast_parse e ts n a p st) = st
  end.
Proof.
  unfold create_timer.
  destruct (if truthy_str p then _ else _) as [[] | ex].
  - destruct (_parse_time_spec ts (now e)) as [[[[nr |] rec] ivl] | ex]; simpl.
    + destruct rec; exact I.
    + reflexivity.
    + destruct (is_Exception ex); reflexivity.
  - simpl. destruct (is_Exception ex); reflexivity.
Qed.

Lemma create_timer_store_ok (e : env) (ts : str) (n a p : option str) (st : state) :
  store_ok st -> dict_get (uuid4 e) (timers st) = None ->
  store_ok (snd (create_timer timestamp ast_parse e ts n a p st)).
Proof.
  intros Hok Hfresh.
  destruct (create_timer_timers e ts n a p st) as [H | (t & Hid & _ & Hrec & H)].
  - eapply store_ok_timers; eauto.
  - destruct Hok as [Hnd Hall]. unfold store_ok. rewrite H.
    rewrite dict_set_new by assumption. unfold dict_keys. rewrite map_app. simpl. split.
    + apply NoDup_app_remove_l with (l := []). simpl.
      apply NoDup_app; [assumption | repeat constructor; auto |].
      intros x Hx [<- | []]. now apply dict_get_none_keys in Hfresh.
    + apply Forall_app. split; [assumption |].
      constructor; [| constructor]. split; assumption.
Qed.

Lemma edited_refl (st : state) : store_ok st -> edited st st.
Proof. intros H. split; [assumption | apply evolves_refl, same_status_refl]. Qed.

Lemma edited_update (st st1 : state) (k : str) (f : timer -> timer) :
  keeps_record f -> (forall t, same_status t (f t)) -> edited st st1 ->
  edited st (with_timers (dict_update k f (timers st1)) st1).
Proof.
  intros Hf Hs [Hok Hev]. split; [now apply store_ok_update |].
  eapply evolves_trans; [apply same_status_trans | exact Hev |].
  apply evolves_update; [apply same_status_refl | auto].
Qed.

Lemma edited_save (e : env) (st st1 : state) (k : str) :
  edited st st1 -> edited st (save_entry e k st1).
Proof.
  intros [Hok Hev]. split.
  - eapply store_ok_timers; [| exact Hok]. now apply save_entry_timers.
  - now rewrite save_entry_timers.
Qed.

Lemma edit_fields_edited (e : env) (id : str) (ts n a : option str) (st0 st : state) :
  edited st0 st -> edited st0 (snd (edit_fields timestamp e id ts n a st)).
Proof.
  intros H. unfold edit_fields.
  set (st1 := match n with Some n0 => _ | None => st end).
  assert (H1 : edited st0 st1).
  { unfold st1. destruct n; [| assumption].
    apply edited_update; [apply keeps_set_name | reflexivity | assumption]. }
  set (st2 := match a with Some a0 => _ | None => st1 end).
  assert (H2 : edited st0 st2).
  { unfold st2. destruct a; [| assumption].
    apply edited_update; [apply keeps_set_action | reflexivity | assumption]. }
  clearbody st2. clear H1 st1 H.
  destruct ts as [spec |]; cbn beta iota zeta.
  - pose proof (parse_time_spec_outcome spec (now e)) as Hp.
    destruct (_parse_time_spec spec (now e)) as [[[[nr |] rec] ivl] | ex];
      cbn [snd]; try assumption.
    apply edited_save, edited_update;
      [now apply keeps_set_schedule | reflexivity | assumption].
  - cbn [snd]. now apply edited_save.
Qed.

Lemma edit_timer_edited (e : env) (id : str) (ts n a p : option str) (st : state) :
  store_ok st -> edited st (snd (edit_timer timestamp ast_parse e id ts n a p st)).
Proof.
  intros Hok. unfold edit_timer.
  destruct (dict_get id (timers st)); [| now apply edited_refl].
  destruct p as [code |]; [| now apply edit_fields_edited, edited_refl].
  destruct (_validate_python_code ast_parse code) as [[] | ex].
  - apply edit_fields_edited, edited_update;
      [apply keeps_set_procedure | reflexivity | now apply edited_refl].
  - destruct (is_Exception ex); now apply edited_refl.
Qed.

Lemma run_op_store_ok (e : env) (o : op) (st : state) :
  store_ok st -> fresh_op e o st ->
  store_ok (run_op timestamp fromtimestamp ast_parse e o st).
Proof.
  intros Hok Hfresh. destruct o; simpl.
  - now apply create_timer_store_ok.
  - now apply edit_timer_edited.
  - eapply store_ok_as; [now apply cancel_timer_timers |].
    destruct (dict_get id (timers st)).
    + apply store_ok_update; [apply keeps_set_status | exact Hok].
    + exact Hok.
  - unfold list_timers. destruct (filter is_active (timers st)); exact Hok.
  - unfold get_timer_details. destruct (dict_get id (timers st)); exact Hok.
  - now apply execute_timer_store_ok.
  - now apply fold_execute.
Qed.

Lemma run_store_ok (trace : list (env * op)) :
  forall st, store_ok st -> fresh_ids timestamp fromtimestamp ast_parse trace st ->
  store_ok (run timestamp fromtimestamp ast_parse trace st).
Proof.
  induction trace as [| [e o] trace IH]; intros st Hok Hfresh; [exact Hok |].
  destruct Hfresh as [Hf Hrest]. simpl in *.
  apply IH; [now apply run_op_store_ok | exact Hrest].
Qed.


Lemma transition_unchanged (e : env) (o : op) (id : str) (before : option timer) :
  transition_ok e o id before (option_map timer_status before).
Proof.
  unfold transition_ok. destruct before as [t |]; simpl; [| now left].
  destruct (timer_status t); auto.
Qed.

Lemma transition_fired (e : env) (o : op) (id : str) (st st' : state) :
  o = Fire id \/ o = Tick ->
  evolves fire_rel (timers st) (timers st') ->
  transition_ok e o id (dict_get id (timers st)) (status_of id st').
Proof.
  intros Ho Hev. specialize (Hev id). unfold status_of, transition_ok.
  destruct (dict_get id (timers st)) as [t |], (dict_get id (timers st')) as [t' |];
    simpl; try contradiction; [| now left].
  destruct Hev as [_ [Hs | (Ha & Hc & Hn)]].
  - rewrite Hs. destruct (timer_status t); auto.
  - rewrite Ha, Hc. right. right. auto.
Qed.

Lemma step_transition (e : env) (o : op) (id : str) (st : state) :
  store_ok st -> fresh_op e o st ->
  transition_ok e o id (dict_get id (timers st))
                (status_of id (run_op timestamp fromtimestamp ast_parse e o st)).
Proof.
  intros Hok Hfresh. destruct o as [ts n a p | k ts n a p | k | | k | k |]; simpl.
  - (* create *)
    destruct (create_timer_timers e ts n a p st) as [H | (t & Hid & Hact & _ & H)];
      unfold status_of; rewrite H; [apply transition_unchanged |].
    rewrite dict_get_set. destruct (str_eqb (uuid4 e) id) eqn:Hk.
    + apply str_eqb_eq in Hk. simpl in Hfresh. subst id. rewrite Hfresh.
      simpl. right. rewrite Hact. repeat split; eauto.
    + apply transition_unchanged.
  - (* edit *)
    destruct (edit_timer_edited e k ts n a p st Hok) as [_ Hev].
    specialize (Hev id). unfold status_of.
    destruct (dict_get id (timers st)) as [t |],
             (dict_get id (timers (snd (edit_timer timestamp ast_parse e k ts n a p st))))
               as [t' |]; try contradiction.
    + simpl. rewrite Hev. apply (transition_unchanged e _ id (Some t)).
    + now left.
  - (* cancel *)
    unfold status_of. rewrite cancel_timer_timers by assumption.
    destruct (dict_get k (timers st)) as [tk |] eqn:Ek; [| apply transition_unchanged].
    rewrite dict_get_update. destruct (str_eqb k id) eqn:Hk.
    + apply str_eqb_eq in Hk. subst k. rewrite Ek. simpl.
      destruct (timer_status tk); auto.
    + apply transition_unchanged.
  - (* list *)
    unfold list_timers, status_of.
    destruct (filter is_active (timers st)); apply transition_unchanged.
  - (* describe *)
    unfold get_timer_details, status_of.
    destruct (dict_get k (timers st)); apply transition_unchanged.
  - (* fire *)
    destruct (list_eq_dec Z.eq_dec id k) as [-> | Hne].
    + apply transition_fired; [now left | now apply execute_timer_evolves].
    + unfold status_of. rewrite execute_timer_other by assumption.
      apply transition_unchanged.
  - (* tick *)
    apply transition_fired; [now right | now apply fold_execute].
Qed.






(** C7 (as amended). [list_timers] changes nothing in the state, and it
    lists the active timers in the order of the dictionary, the order in
    which they were created; it does not sort them.  Each row shows the
    [next_run] of its timer. *)
Theorem list_timers_reads_in_insertion_order (e : env) (st : state) :
  snd (list_timers fromtimestamp e st) = st
  /\ exists rows,
       fst (list_timers fromtimestamp e st)
       = Ret (match rows with
              | [] => NoActiveTimers
              | _ => ActiveTimers (length rows) rows
              end)
       /\ map row_id rows = dict_keys (filter is_active (timers st))
       /\ map row_next_run rows
          = map (fun kv => fromtimestamp (next_run (snd kv)))
                (filter is_active (timers st)).
Proof.
  unfold list_timers. split.
  - destruct (filter is_active (timers st)); reflexivity.
  - exists (map (list_row fromtimestamp e) (filter is_active (timers st))).
    unfold dict_keys. rewrite !map_map, length_map. simpl.
    destruct (filter is_active (timers st)); repeat split; reflexivity.
Qed.

End TimerToolProperties.

(** ** Examples and counterexamples *)

Lemma startup_catch_up_resolves_once_witness :
  next_run stale_timer < 25 * second_us
  /\ next_run (update_missed_timer (25 * second_us) stale_timer) = 30 * second_us
  /\ 25 * second_us < next_run (update_missed_timer (25 * second_us) stale_timer)
  /\ update_missed_timer (25 * second_us)
                         (update_missed_timer (25 * second_us) stale_timer)
     = update_missed_timer (25 * second_us) stale_timer.
Proof.
  pose proof (startup_catch_up_resolves_once
                (25 * second_us) 10 stale_timer eq_refl eq_refl eq_refl eq_refl eq_refl)
    as (H1 & H2 & _ & H4).
  split; [reflexivity |]. split; [exact H1 |]. split; [exact H2 | exact H4].
Defined.

(** C1. A recurring timer that runs every 10 seconds and fires 25 seconds
    late is rescheduled to an instant 5 seconds before the time of the
    rescheduling: it is due again at once, and the next pass of the loop
    dispatches it a second time. *)
Theorem late_firing_is_rescheduled_into_the_past :
  next_run_of id_a every_10s_state = Some (utc_timestamp (noon + 10 * second_us))
  /\ fst (_execute_timer utc_timestamp late_env id_a every_10s_state) = Ret tt
  /\ next_run_of id_a (snd (_execute_timer utc_timestamp late_env id_a every_10s_state))
     = Some (utc_timestamp (now late_env) - 5 * second_us)
  /\ dispatched utc_timestamp late_env
                (snd (_execute_timer utc_timestamp late_env id_a every_10s_state))
     = [id_a].
Proof. repeat split; vm_compute; reflexivity. Qed.

(** C6. An edit that renames the timer and gives a time spec that cannot be
    parsed reports the failure, and yet the timer carries the new name. *)
Theorem failed_edit_keeps_the_new_name :
  fst (edit_timer utc_timestamp toy_ast_parse (env_at noon id_b) id_a
                  (Some spec_nonsense) (Some name_renamed) None None one_shot_state)
  = Ret (ParseFailed spec_nonsense)
  /\ option_map name (dict_get id_a (timers one_shot_state)) = Some name_report
  /\ option_map name
       (dict_get id_a
          (timers (snd (edit_timer utc_timestamp toy_ast_parse (env_at noon id_b) id_a
                                   (Some spec_nonsense) (Some name_renamed) None None
                                   one_shot_state))))
     = Some name_renamed.
Proof. repeat split; vm_compute; reflexivity. Qed.

(** Against C7 as stated: two active timers, the second created due before
    the first; the listing shows them as created, the later one first. *)
Lemma listing_is_not_sorted :
  exists rows,
    fst (list_timers utc_fromtimestamp (env_at noon id_a) two_timers_state)
    = Ret (ActiveTimers 2 rows)
    /\ map row_id rows = [id_a; id_b]
    /\ map row_next_run rows = [noon + 300 * second_us; noon + 60 * second_us]
    /\ sorted_rows rows = false.
Proof. eexists. repeat split; vm_compute; reflexivity. Qed.




(** C10. [edit_timer] with the time spec "в 25:00" raises [ValueError] to
    its caller; [create_timer] with the same spec returns a message. *)
Theorem edit_timer_raises_on_hour_25 :
  fst (edit_timer utc_timestamp toy_ast_parse (env_at noon id_b) id_a
                  (Some spec_25_00) None None None one_shot_state)
  = Raise ValueError
  /\ fst (create_timer utc_timestamp toy_ast_parse (env_at noon id_b)
                       spec_25_00 None None None one_shot_state)
     = Ret (CreateFailed ValueError).
Proof. split; vm_compute; reflexivity. Qed.

(** ** Further properties of the code *)

Lemma reschedule_late_not_future_witness :
  0 + 10 < 25 /\ reschedule 0 10 25 = 20 /\ reschedule 0 10 25 <= 25.
Proof.
  split; [reflexivity |]. split; [reflexivity |].
  exact (reschedule_late_not_future 0 10 25 eq_refl eq_refl).
Defined.

(** Through [_parse_time_spec] the keyword "каждый день" never makes a
    daily timer: the spec contains "кажд", goes to the recurring grammar and
    is refused there, although [_parse_absolute_time] reads it as daily. *)
Lemma every_day_keyword_goes_to_recurring :
  _parse_absolute_time spec_9_every_day noon
  = Ret (Some (midnight noon + day_us + 9 * 3600 * second_us), true, Some 86400)
  /\ _parse_time_spec spec_9_every_day noon = Ret (None, false, None).
Proof. split; vm_compute; reflexivity. Qed.

(** An exception of the procedure that does not derive from [Exception]
    passes both [except Exception] clauses: the engine raises it, and the
    timer is left as it was, still due. *)
Lemma exit_in_procedure_escapes :
  fst (_execute_timer utc_timestamp exiting_env id_a every_10s_state)
  = Raise BaseException_only
  /\ snd (_execute_timer utc_timestamp exiting_env id_a every_10s_state)
     = every_10s_state
  /\ dispatched utc_timestamp exiting_env every_10s_state = [id_a].
Proof. repeat split; vm_compute; reflexivity. Qed.

Section MoreProperties.

Variable timestamp : datetime -> Z.
Variable fromtimestamp : Z -> datetime.
Variable ast_parse : str -> option (Z * Z).

(** [create_timer] always returns a message. *)
Lemma create_timer_returns (e : env) (ts : str) (n a p : option str) (st : state) :
  exists r, fst (create_timer timestamp ast_parse e ts n a p st) = Ret r.
Proof.
  unfold create_timer. apply fst_try_except_contained.
  intros ex. destruct (truthy_str p).
  - unfold _validate_python_code. destruct (ast_parse _) as [[l o] |]; simpl.
    + now intros [= <-].
    + pose proof (parse_time_spec_outcome ts (now e)) as Hp.
      destruct (_parse_time_spec ts (now e)) as [[[[nr |] rec] ivl] | ex'];
        simpl; try discriminate. now intros [= <-].
  - pose proof (parse_time_spec_outcome ts (now e)) as Hp.
    destruct (_parse_time_spec ts (now e)) as [[[[nr |] rec] ivl] | ex'];
      simpl; try discriminate. now intros [= <-].
Qed.


(** An edit whose procedure has a syntax error reports it and leaves the
    whole state as it was. *)
Lemma edit_timer_invalid_procedure
      (e : env) (id : str) (ts n a : option str) (code : str) (line offset : Z)
      (st : state) :
  ast_parse code = Some (line, offset) ->
  snd (edit_timer timestamp ast_parse e id ts n a (Some code) st) = st
  /\ (dict_get id (timers st) <> None ->
      fst (edit_timer timestamp ast_parse e id ts n a (Some code) st)
      = Ret (ProcedureInvalid (SyntaxError line offset))).
Proof.
  intros H. unfold edit_timer, _validate_python_code. rewrite H.
  destruct (dict_get id (timers st)); simpl; split; congruence.
Qed.

(** Once cancelled, a timer stays cancelled whatever runs afterwards. *)
Lemma cancelled_is_terminal (trace : list (env * op)) (id : str) :
  forall st, store_ok st -> fresh_ids timestamp fromtimestamp ast_parse trace st ->
  status_of id st = Some cancelled ->
  status_of id (run timestamp fromtimestamp ast_parse trace st) = Some cancelled.
Proof.
  induction trace as [| [e o] trace IH]; intros st Hok Hfresh Hc; [exact Hc |].
  destruct Hfresh as [Hop Hrest]. simpl in *.
  apply IH; [now apply run_op_store_ok | exact Hrest |].
  pose proof (step_transition timestamp fromtimestamp ast_parse e o id st Hok Hop) as Ht.
  unfold status_of in Hc. unfold transition_ok in Ht.
  destruct (dict_get id (timers st)) as [t |]; [| discriminate].
  simpl in Hc. injection Hc as Hc. rewrite Hc in Ht. exact Ht.
Qed.

End MoreProperties.

Lemma edit_timer_invalid_procedure_witness :
  toy_ast_parse bad_program = Some (1, 4)
  /\ snd (edit_timer utc_timestamp toy_ast_parse (env_at noon id_b) id_a
                     None (Some name_renamed) None (Some bad_program) one_shot_state)
     = one_shot_state.
Proof.
  split; [reflexivity |].
  exact (proj1 (edit_timer_invalid_procedure
                  utc_timestamp toy_ast_parse (env_at noon id_b) id_a
                  None (Some name_renamed) None bad_program 1 4 one_shot_state eq_refl)).
Defined.

Lemma cancelled_is_terminal_witness :
  status_of id_a
    (run utc_timestamp utc_fromtimestamp toy_ast_parse
         [ (env_at noon id_b, Cancel id_a);
           (env_at (noon + 300 * second_us) id_b, Fire id_a);
           (env_at (noon + 400 * second_us) id_b,
            Edit id_a (Some spec_every_10s) None None None);
           (env_at (noon + 500 * second_us) id_b, Tick) ]
         one_shot_state)
  = Some cancelled.
Proof.
  assert (Hok : store_ok one_shot_state).
  { apply (run_op_store_ok utc_timestamp utc_fromtimestamp toy_ast_parse
             (env_at noon id_a)
             (Create spec_in_5_min (Some name_report) (Some action_ping) None)
             empty_state); [split; constructor | reflexivity]. }
  pose proof (cancelled_is_terminal
                utc_timestamp utc_fromtimestamp toy_ast_parse
                [ (env_at (noon + 300 * second_us) id_b, Fire id_a);
                  (env_at (noon + 400 * second_us) id_b,
                   Edit id_a (Some spec_every_10s) None None None);
                  (env_at (noon + 500 * second_us) id_b, Tick) ]
                id_a
                (run_op utc_timestamp utc_fromtimestamp toy_ast_parse
                        (env_at noon id_b) (Cancel id_a) one_shot_state)) as H.
  apply H.
  - apply run_op_store_ok; [exact Hok | exact I].
  - simpl. repeat split.
  - reflexivity.
Defined.

(** ** The engine, the loop and the persistence *)

(** Whenever the engine reschedules a recurring timer, the new [next_run]
    lies on the timer's grid, at least one interval after the old one, and
    less than one interval before [now]. *)
Theorem reschedule_moves_forward_on_the_grid (t interval now : Z) :
  0 < interval ->
  (reschedule t interval now - t) mod interval = 0
  /\ t + interval <= reschedule t interval now
  /\ now - interval < reschedule t interval now.
Proof.
  intros Hi. unfold reschedule.
  destruct (Z.ltb_spec (t + interval) now) as [Hlate | Hok].
  - replace (now - (t + interval)) with ((now - t) + (-1) * interval) by lia.
    rewrite Z.div_add by lia.
    replace (t + ((now - t) / interval + -1 + 1) * interval - t)
      with (((now - t) / interval) * interval) by lia.
    pose proof (Z.div_mod (now - t) interval ltac:(lia)) as Hdm.
    pose proof (Z.mod_pos_bound (now - t) interval Hi) as Hb.
    assert (1 <= (now - t) / interval) by (apply Z.div_le_lower_bound; lia).
    split; [apply Z_mod_mult |]. split; nia.
  - replace (t + interval - t) with (1 * interval) by lia.
    split; [apply Z_mod_mult |]. split; lia.
Qed.

Lemma reschedule_moves_forward_on_the_grid_witness :
  (reschedule 0 10 25 - 0) mod 10 = 0
  /\ 0 + 10 <= reschedule 0 10 25 /\ 25 - 10 < reschedule 0 10 25.
Proof. exact (reschedule_moves_forward_on_the_grid 0 10 25 eq_refl). Defined.

(** However late a recurring timer fires, a second firing at the same
    instant puts its [next_run] strictly after [now]: a delayed timer fires at
    most once more before it is on schedule again. *)
Theorem second_firing_catches_up (t interval now : Z) :
  0 < interval ->
  now < reschedule (reschedule t interval now) interval now.
Proof.
  intros Hi.
  assert (Hr : now - interval < reschedule t interval now).
  { unfold reschedule.
    destruct (Z.ltb_spec (t + interval) now) as [Hlate | Hok]; [| lia].
    replace (now - (t + interval)) with ((now - t) + (-1) * interval) by lia.
    rewrite Z.div_add by lia.
    pose proof (Z.div_mod (now - t) interval ltac:(lia)) as Hdm.
    pose proof (Z.mod_pos_bound (now - t) interval Hi) as Hb.
    nia. }
  set (r := reschedule t interval now) in *.
  unfold reschedule. destruct (Z.ltb_spec (r + interval) now); lia.
Qed.

Lemma second_firing_catches_up_witness :
  reschedule 0 10 25 = 20 /\ 25 < reschedule (reschedule 0 10 25) 10 25.
Proof.
  split; [reflexivity |]. exact (second_firing_catches_up 0 10 25 eq_refl).
Defined.

(** What [update_missed_timer] does to one record at start-up. *)
Lemma update_missed_timer_cases (now : Z) (t : timer) :
  update_missed_timer now t = t
  \/ (timer_status t = active /\ is_recurring t = true /\ next_run t < now
      /\ truthy_interval (recurrence_interval t) = true
      /\ update_missed_timer now t
         = set_next_run (catch_up (next_run t) (interval_us (recurrence_interval t)) now) t).
Proof.
  unfold update_missed_timer.
  destruct (timer_status t) eqn:Hs; simpl; auto.
  destruct (is_recurring t) eqn:Hr; simpl; auto.
  destruct (Z.ltb_spec (next_run t) now); simpl; auto.
  destruct (truthy_interval (recurrence_interval t)) eqn:Hi; auto.
  right. auto.
Qed.

Lemma set_next_run_same (t : timer) : set_next_run (next_run t) t = t.
Proof. destruct t; reflexivity. Qed.

Lemma update_missed_timer_caught_up (now : Z) (t : timer) :
  caught_up now t (update_missed_timer now t).
Proof.
  destruct (update_missed_timer_cases now t) as [Heq | (Hs & Hr & Hlt & Htr & Heq)];
    rewrite Heq.
  - split; [now rewrite set_next_run_same |]. split; [reflexivity |].
    intros i Hs Hr Hi Hpos.
    assert (Hge : now <= next_run t).
    { destruct (Z.lt_ge_cases (next_run t) now) as [Hlt | Hge]; [| exact Hge].
      exfalso.
      pose proof (update_missed_timer_stale now i t Hs Hr Hi ltac:(lia) Hlt) as Hu.
      pose proof (catch_up_future (next_run t) (i * second_us) now
                    ltac:(unfold second_us; lia)) as Hf.
      rewrite Heq in Hu. apply (f_equal next_run) in Hu. simpl in Hu. lia. }
    split; [exact Hge |]. split; [lia |].
    rewrite Z.sub_diag. apply Z.mod_0_l. unfold second_us. lia.
  - split; [reflexivity |]. split.
    + intros [H | H]; congruence.
    + intros i _ _ Hi Hpos. rewrite Hi. simpl.
      pose proof (catch_up_future (next_run t) (i * second_us) now
                    ltac:(unfold second_us; lia)) as Hf.
      split; [lia |]. split; [lia |]. apply catch_up_on_grid.
Qed.

Lemma dict_get_unique (k : str) (t : timer) (d : dict) :
  NoDup (dict_keys d) -> In (k, t) d -> dict_get k d = Some t.
Proof.
  induction d as [| [k' v] d IH]; simpl; intros Hnd Hin; [contradiction |].
  inversion Hnd as [| ? ? Hnotin Hnd']; subst.
  destruct Hin as [[= -> ->] | Hin].
  - now rewrite str_eqb_refl.
  - destruct (str_eqb k' k) eqn:Hk.
    + apply str_eqb_eq in Hk. subst k'. exfalso. apply Hnotin.
      unfold dict_keys. apply (in_map fst) in Hin. exact Hin.
    + auto.
Qed.

Lemma dispatched_is_due (timestamp : datetime -> Z) (e : env) (id : str) (st : state) :
  store_ok st -> In id (dispatched timestamp e st) ->
  exists t, dict_get id (timers st) = Some t /\ timer_status t = active
            /\ next_run t <= timestamp (now e).
Proof.
  intros [Hnd _] Hin. unfold dispatched, dict_keys in Hin.
  apply in_map_iff in Hin as [[k t] [Hk Hin]]. simpl in Hk. subst k.
  apply filter_In in Hin as [Hin Hdue]. unfold is_due, is_active in Hdue. simpl in Hdue.
  apply andb_prop in Hdue as [Ha Hd].
  exists t. split; [now apply dict_get_unique |].
  split; [destruct (timer_status t); (reflexivity || discriminate) | now apply Z.leb_le].
Qed.

Lemma due_is_dispatched (timestamp : datetime -> Z) (e : env) (id : str) (t : timer)
      (st : state) :
  dict_get id (timers st) = Some t -> timer_status t = active ->
  next_run t <= timestamp (now e) -> In id (dispatched timestamp e st).
Proof.
  intros Hget Hs Hdue. unfold dispatched, dict_keys.
  apply in_map_iff. exists (id, t). split; [reflexivity |].
  apply filter_In. split; [now apply dict_get_in |].
  unfold is_due, is_active. simpl. rewrite Hs. simpl. now apply Z.leb_le.
Qed.


Section EngineAndLoop.

Variable timestamp : datetime -> Z.
Variable fromtimestamp : Z -> datetime.
Variable ast_parse : str -> option (Z * Z).

(** At start-up the stored dictionary comes back key by key, in its order,
    and each record is caught up: a one-shot or inactive record is as it was
    stored (an overdue one-shot timer is still overdue, so it fires once at
    the first pass of the loop), and no active recurring timer with a
    positive interval is left due before [now]. *)
Theorem startup_restores_and_catches_up (e : env) (st : state) (d : dict) :
  redis_up e = true -> redis st = Some d ->
  Forall2 (fun kv kv' : str * timer =>
             fst kv' = fst kv /\ caught_up (timestamp (now e)) (snd kv) (snd kv'))
          d (timers (_load_timers_from_redis timestamp e st)).
Proof.
  intros Hup Hd. unfold _load_timers_from_redis. rewrite Hup, Hd. simpl.
  unfold _update_missed_recurring_timers.
  clear Hd. induction d as [| kv d IH]; simpl; constructor; [| exact IH].
  split; [reflexivity | apply update_missed_timer_caught_up].
Qed.

(** A start-up that cannot read Redis begins with no timers, and the first
    timer created afterwards overwrites what Redis held: the stored map then
    consists of the new timer alone. *)
Theorem failed_load_loses_the_stored_timers
        (e0 e : env) (ts : str) (n a p : option str) (st : state) :
  redis_up e0 = false -> redis_up e = true ->
  created (fst (create_timer timestamp ast_parse e ts n a p
                             (_load_timers_from_redis timestamp e0 st))) = true ->
  timers (_load_timers_from_redis timestamp e0 st) = []
  /\ exists t, redis (snd (create_timer timestamp ast_parse e ts n a p
                                        (_load_timers_from_redis timestamp e0 st)))
               = Some [(uuid4 e, t)].
Proof.
  intros Hdown Hup Hc. unfold _load_timers_from_redis in *. rewrite Hdown in *.
  split; [reflexivity |].
  unfold create_timer in *.
  destruct (if truthy_str p then _ else _) as [[] | ex].
  - destruct (_parse_time_spec ts (now e)) as [[[[nr |] rec] ivl] | ex]; simpl in *.
    + rewrite Hup. rewrite str_eqb_refl. eexists. reflexivity.
    + discriminate.
    + destruct (is_Exception ex); discriminate.
  - simpl in Hc. destruct (is_Exception ex); discriminate.
Qed.

Lemma save_entry_persisted (e : env) (k : str) (st : state) :
  dict_get k (timers st) <> None -> persisted e st (save_entry e k st).
Proof.
  unfold persisted, save_entry, _save_timer_to_redis.
  destruct (dict_get k (timers st)); [| congruence]. intros _. simpl.
  destruct (redis_up e); reflexivity.
Qed.

Lemma dict_get_update_present (k : str) (f : timer -> timer) (d : dict) :
  dict_get k d <> None -> dict_get k (dict_update k f d) <> None.
Proof.
  intros H. rewrite dict_get_update, str_eqb_refl.
  destruct (dict_get k d); [discriminate | congruence].
Qed.

Lemma persisted_frame (e : env) (st st1 st' : state) :
  redis st1 = redis st -> persisted e st1 st' -> persisted e st st'.
Proof. unfold persisted. now intros <-. Qed.

(** Redis and a failed or successful edit: the fields assigned before the
    time spec is parsed change the record in memory only. *)
Lemma edit_fields_redis (e : env) (id : str) (ts n a : option str) (st : state) :
  dict_get id (timers st) <> None ->
  match fst (edit_fields timestamp e id ts n a st) with
  | Ret (TimerUpdated _ _) => persisted e st (snd (edit_fields timestamp e id ts n a st))
  | _ => redis (snd (edit_fields timestamp e id ts n a st)) = redis st
  end.
Proof.
  intros Hget. unfold edit_fields.
  set (st1 := match n with Some n0 => _ | None => st end).
  assert (H1 : redis st1 = redis st /\ dict_get id (timers st1) <> None).
  { unfold st1. destruct n; [| auto]. split; [reflexivity |].
    now apply dict_get_update_present. }
  set (st2 := match a with Some a0 => _ | None => st1 end).
  assert (H2 : redis st2 = redis st /\ dict_get id (timers st2) <> None).
  { unfold st2. destruct a; [| auto]. destruct H1 as [H1 H1']. split; [exact H1 |].
    now apply dict_get_update_present. }
  clearbody st2. clear H1 st1. destruct H2 as [Hr Hg].
  destruct ts as [spec |]; cbn beta iota zeta.
  - destruct (_parse_time_spec spec (now e)) as [[[[nr |] rec] ivl] | ex]; cbn [fst snd];
      try exact Hr.
    eapply persisted_frame; [| apply save_entry_persisted].
    + exact Hr.
    + now apply dict_get_update_present.
  - cbn [fst snd]. eapply persisted_frame; [exact Hr |]. now apply save_entry_persisted.
Qed.

(** Every call of the API that reports success has written the whole
    dictionary, as it then is in memory, to Redis when Redis answers, and
    has left Redis alone when it does not (the change then lives in memory
    only).  A call of [edit_timer] or [create_timer] that reports a failure
    writes nothing to Redis. *)
Theorem successful_calls_persist_the_dictionary
        (e : env) (id ts : str) (ots n a p : option str) (st : state) :
  (if created (fst (create_timer timestamp ast_parse e ts n a p st))
   then persisted e st (snd (create_timer timestamp ast_parse e ts n a p st))
   else redis (snd (create_timer timestamp ast_parse e ts n a p st)) = redis st)
  /\ match fst (cancel_timer e id st) with
     | Ret (TimerCancelled _ _) => persisted e st (snd (cancel_timer e id st))
     | _ => redis (snd (cancel_timer e id st)) = redis st
     end
  /\ match fst (edit_timer timestamp ast_parse e id ots n a p st) with
     | Ret (TimerUpdated _ _) =>
         persisted e st (snd (edit_timer timestamp ast_parse e id ots n a p st))
     | _ => redis (snd (edit_timer timestamp ast_parse e id ots n a p st)) = redis st
     end.
Proof.
  split; [| split].
  - unfold create_timer.
    destruct (if truthy_str p then _ else _) as [[] | ex].
    + destruct (_parse_time_spec ts (now e)) as [[[[nr |] rec] ivl] | ex]; simpl.
      * unfold persisted. destruct rec; simpl; destruct (redis_up e); reflexivity.
      * reflexivity.
      * destruct (is_Exception ex); reflexivity.
    + simpl. destruct (is_Exception ex); reflexivity.
  - unfold cancel_timer. destruct (dict_get id (timers st)) eqn:Hget; [| reflexivity].
    cbn [fst snd]. eapply persisted_frame; [| apply save_entry_persisted].
    + reflexivity.
    + apply dict_get_update_present. congruence.
  - unfold edit_timer. destruct (dict_get id (timers st)) eqn:Hget; [| reflexivity].
    assert (Hne : dict_get id (timers st) <> None) by congruence.
    destruct p as [code |].
    + destruct (_validate_python_code ast_parse code) as [[] | ex].
      * pose proof (edit_fields_redis e id ots n a
                      (with_timers (dict_update id (set_procedure (Some code)) (timers st)) st)
                      (dict_get_update_present _ _ _ Hne)) as H.
        destruct (fst (edit_fields timestamp e id ots n a _)) as [[] |]; exact H.
      * destruct (is_Exception ex); reflexivity.
    + apply edit_fields_redis. exact Hne.
Qed.











(** After [cancel_timer] a timer is cancelled for good and the loop never
    dispatches it again, whatever operations follow and whatever the clock
    shows. *)
Theorem cancelled_timer_is_never_dispatched
        (e e' : env) (id : str) (trace : list (env * op)) (st : state) :
  store_ok st -> dict_get id (timers st) <> None ->
  fresh_ids timestamp fromtimestamp ast_parse trace (snd (cancel_timer e id st)) ->
  status_of id (run timestamp fromtimestamp ast_parse trace (snd (cancel_timer e id st)))
  = Some cancelled
  /\ ~ In id (dispatched timestamp e'
                (run timestamp fromtimestamp ast_parse trace (snd (cancel_timer e id st)))).
Proof.
  intros Hok Hget Hfresh.
  assert (Hok1 : store_ok (snd (cancel_timer e id st)))
    by (apply (run_op_store_ok timestamp fromtimestamp ast_parse e (Cancel id) st Hok I)).
  assert (Hc : status_of id (snd (cancel_timer e id st)) = Some cancelled).
  { unfold status_of. rewrite cancel_timer_timers by assumption.
    destruct (dict_get id (timers st)) as [t |] eqn:E; [| congruence].
    rewrite dict_get_update, str_eqb_refl, E. reflexivity. }
  pose proof (cancelled_is_terminal timestamp fromtimestamp ast_parse trace id
                _ Hok1 Hfresh Hc) as Hrun.
  split; [exact Hrun |].
  intros Hin. apply dispatched_is_due in Hin as (t & Hget' & Hact & _).
  - unfold status_of in Hrun. rewrite Hget' in Hrun. simpl in Hrun. congruence.
  - now apply run_store_ok.
Qed.

End EngineAndLoop.

Lemma empty_state_ok : store_ok empty_state.
Proof. split; constructor. Defined.

Lemma one_shot_state_ok : store_ok one_shot_state.
Proof.
  exact (run_op_store_ok utc_timestamp utc_fromtimestamp toy_ast_parse
           (env_at noon id_a)
           (Create spec_in_5_min (Some name_report) (Some action_ping) None)
           empty_state empty_state_ok eq_refl).
Defined.

Lemma every_10s_state_ok : store_ok every_10s_state.
Proof.
  exact (run_op_store_ok utc_timestamp utc_fromtimestamp toy_ast_parse
           (env_at noon id_a)
           (Create spec_every_10s None (Some action_ping) (Some code_pass))
           empty_state empty_state_ok eq_refl).
Defined.


Lemma startup_restores_and_catches_up_witness :
  redis every_10s_state <> None
  /\ Forall2 (fun kv kv' : str * timer =>
                fst kv' = fst kv
                /\ caught_up (utc_timestamp (noon + 3600 * second_us)) (snd kv) (snd kv'))
             (timers every_10s_state)
             (timers (_load_timers_from_redis utc_timestamp
                        (env_at (noon + 3600 * second_us) id_b) every_10s_state)).
Proof.
  split; [discriminate |].
  exact (startup_restores_and_catches_up utc_timestamp
           (env_at (noon + 3600 * second_us) id_b) every_10s_state
           (timers every_10s_state) eq_refl eq_refl).
Defined.

Lemma failed_load_loses_the_stored_timers_witness :
  redis every_10s_state <> None
  /\ timers (_load_timers_from_redis utc_timestamp
               (mk_env noon id_b false None None) every_10s_state) = []
  /\ exists t,
       redis (snd (create_timer utc_timestamp toy_ast_parse (env_at noon id_b)
                                spec_in_5_min None None None
                                (_load_timers_from_redis utc_timestamp
                                   (mk_env noon id_b false None None) every_10s_state)))
       = Some [(id_b, t)].
Proof.
  split; [discriminate |].
  exact (failed_load_loses_the_stored_timers utc_timestamp toy_ast_parse
           (mk_env noon id_b false None None) (env_at noon id_b)
           spec_in_5_min None None None every_10s_state eq_refl eq_refl eq_refl).
Defined.




Lemma cancelled_timer_is_never_dispatched_witness :
  ~ In id_a (dispatched utc_timestamp (env_at (noon + 900 * second_us) id_b)
               (run utc_timestamp utc_fromtimestamp toy_ast_parse
                    [ (env_at (noon + 400 * second_us) id_b,
                       Edit id_a (Some spec_every_10s) None None None);
                      (env_at (noon + 500 * second_us) id_b, Tick) ]
                    (snd (cancel_timer (env_at noon id_b) id_a one_shot_state)))).
Proof.
  refine (proj2 (cancelled_timer_is_never_dispatched
                   utc_timestamp utc_fromtimestamp toy_ast_parse
                   (env_at noon id_b) (env_at (noon + 900 * second_us) id_b) id_a
                   [ (env_at (noon + 400 * second_us) id_b,
                      Edit id_a (Some spec_every_10s) None None None);
                     (env_at (noon + 500 * second_us) id_b, Tick) ]
                   one_shot_state one_shot_state_ok _ _)).
  - discriminate.
  - simpl. repeat split.
Defined.

(** ** The parser: every spec *)

(** *** Quantities are never negative *)

Lemma rmatch_alts_groups (words : list str) (s : str) (g : groups) (t : thread) :
  In t (rmatch (alts (map lits words)) s g) -> snd t = g.
Proof.
  induction words as [| w words IH]; intros Hin.
  - destruct s; simpl in Hin; contradiction.
  - destruct words as [| w' words].
    + simpl in Hin. rewrite rmatch_lits in Hin.
      destruct (startswith w s); [| contradiction].
      destruct Hin as [<- | []]. reflexivity.
    + change (alts (map lits (w :: w' :: words)))
        with (Or (lits w) (alts (map lits (w' :: words)))) in Hin.
      rewrite rmatch_Or, rmatch_lits in Hin. apply in_app_iff in Hin as [Hin | Hin].
      * destruct (startswith w s); [| contradiction].
        destruct Hin as [<- | []]. reflexivity.
      * auto.
Qed.

Lemma forallb_take_while (p : Z -> bool) (s : str) : forallb p (take_while p s) = true.
Proof.
  induction s as [| x s IH]; simpl; [reflexivity |].
  destruct (p x) eqn:Hp; simpl; [now rewrite Hp | reflexivity].
Qed.

Lemma finditer_n_quantities (x : unit_of_time) (fuel : nat) :
  forall s, Forall quantity_match (finditer_n fuel (unit_pattern (unit_words x)) s).
Proof.
  induction fuel as [| fuel IH]; intros s; [constructor |].
  rewrite finditer_n_S.
  destruct (rmatch (unit_pattern (unit_words x)) s []) as [| t tl] eqn:E.
  - destruct s; [constructor | apply IH].
  - constructor.
    + rewrite rmatch_unit_pattern in E
        by auto using unit_words_avoid_digit, unit_words_avoid_space.
      destruct (headp is_digit s); [| discriminate].
      assert (Hin : In t (t :: tl)) by now left. rewrite <- E in Hin.
      apply rmatch_alts_groups in Hin. exists (take_while is_digit s).
      split; [exact Hin | apply forallb_take_while].
    + destruct (_ <? _)%nat; [apply IH |]. destruct s; [constructor | apply IH].
Qed.

Lemma fold_quantity_matches (k acc : Z) (ms : list groups) :
  0 <= k -> Forall quantity_match ms ->
  acc <= fold_left (fun seconds m => seconds + int_group 1 m * k) ms acc.
Proof.
  intros Hk H. revert acc. induction H as [| m ms [q [-> Hq]] _ IH]; intros acc; simpl.
  - lia.
  - specialize (IH (acc + int_group 1 [(1%nat, q)] * k)).
    unfold int_group in *. simpl in *.
    pose proof (int_of_digits_nonneg q Hq). nia.
Qed.

Lemma count_seconds_nonneg (s : str) : 0 <= count_seconds s.
Proof.
  unfold count_seconds, time_patterns. cbn [fold_left fst snd].
  change words_seconds with (unit_words Seconds).
  change words_minutes with (unit_words Minutes).
  change words_hours with (unit_words Hours).
  change words_days with (unit_words Days).
  change words_weeks with (unit_words Weeks).
  change words_months with (unit_words Months).
  change words_years with (unit_words Years).
  repeat (eapply Z.le_trans;
          [| apply fold_quantity_matches;
             [simpl; lia | apply finditer_n_quantities]]).
  lia.
Qed.

(** *** Every parsed schedule lies in the future *)

Lemma parse_relative_bounds (spec : str) (now : datetime) :
  schedule_ok now (_parse_relative_time spec now).
Proof.
  unfold _parse_relative_time, parse_failure, add_seconds.
  pose proof (count_seconds_nonneg (time_part_after re_relative spec)) as H0.
  destruct (Z.eqb_spec (count_seconds (time_part_after re_relative spec)) 0);
    [exact I |].
  destruct (in_range _); simpl; [| exact I]. unfold second_us. lia.
Qed.

Lemma parse_recurring_bounds (spec : str) (now : datetime) :
  schedule_ok now (_parse_recurring_time spec now).
Proof.
  unfold _parse_recurring_time, parse_failure, add_seconds.
  pose proof (count_seconds_nonneg (time_part_after re_recurring spec)) as H0.
  destruct (Z.eqb_spec (count_seconds (time_part_after re_recurring spec)) 0);
    [exact I |].
  destruct (in_range _); simpl; [| exact I]. unfold second_us. lia.
Qed.

Lemma replace_time_same_day (now h m d : Z) :
  replace_time now h m = Ret d ->
  midnight now <= d < midnight now + day_us.
Proof.
  unfold replace_time.
  destruct (Z.leb_spec 0 h), (Z.leb_spec h 23); simpl; try discriminate.
  destruct (Z.leb_spec 0 m), (Z.leb_spec m 59); simpl; try discriminate.
  intros [= <-]. unfold day_us, day_seconds, second_us. lia.
Qed.

Lemma midnight_bounds (now : Z) : midnight now <= now < midnight now + day_us.
Proof.
  unfold midnight.
  pose proof (Z.mod_pos_bound now day_us ltac:(reflexivity)). lia.
Qed.

Lemma parse_absolute_bounds (spec : str) (now : datetime) :
  schedule_ok now (_parse_absolute_time spec now).
Proof.
  unfold _parse_absolute_time, parse_failure.
  destruct (search re_absolute (lower spec)); [| exact I].
  destruct (replace_time _ _ _) as [d |] eqn:E; simpl; [| exact I].
  apply replace_time_same_day in E. pose proof (midnight_bounds now) as Hn.
  assert (Hday : day_us = 86400 * second_us) by reflexivity.
  destruct (Z.leb_spec d now).
  - unfold add_days, add_seconds.
    replace (d + 1 * day_seconds * second_us) with (d + day_us) by (unfold day_us; lia).
    destruct (in_range _); simpl; [| exact I].
    destruct (contains kw_ezhednevno (lower spec) || contains kw_kazhdyj_den (lower spec));
      lia.
  - simpl.
    destruct (contains kw_ezhednevno (lower spec) || contains kw_kazhdyj_den (lower spec));
      lia.
Qed.

Lemma parse_time_spec_bounds (spec : str) (now : datetime) :
  schedule_ok now (_parse_time_spec spec now).
Proof.
  pose proof (parse_relative_bounds spec now) as Hrel.
  pose proof (parse_recurring_bounds spec now) as Hrec.
  pose proof (parse_absolute_bounds spec now) as Habs.
  unfold _parse_time_spec.
  destruct (contains kw_cherez _); [exact Hrel |].
  destruct (contains kw_kazhd _); [exact Hrec |].
  destruct (contains kw_v_space _); [exact Habs |].
  cbn [try_parsers].
  destruct (_parse_relative_time spec now) as [[[[nr |] rec] ivl] | e]; try exact Hrel;
    (destruct (_parse_recurring_time spec now) as [[[[nr2 |] rec2] ivl2] | e2];
     try exact Hrec;
     (destruct (_parse_absolute_time spec now) as [[[[nr3 |] rec3] ivl3] | e3];
      try exact Habs; exact I)).
Qed.

(** Whatever the time spec, a schedule that [_parse_time_spec] returns lies
    strictly after [now]; if it is recurring its interval is positive and the
    first occurrence is at most one interval away; if it is one-shot it has no
    interval. *)
Theorem parsed_schedule_is_in_the_future
        (spec : str) (now next_run : datetime) (is_recurring : bool)
        (interval : option Z) :
  _parse_time_spec spec now = Ret (Some next_run, is_recurring, interval) ->
  now < next_run
  /\ (is_recurring = true ->
      exists i, interval = Some i /\ 0 < i /\ next_run - now <= i * second_us)
  /\ (is_recurring = false -> interval = None).
Proof.
  intros H. pose proof (parse_time_spec_bounds spec now) as Hb.
  rewrite H in Hb. unfold schedule_ok in Hb.
  destruct is_recurring, interval as [i |]; try contradiction.
  - destruct Hb as (H1 & H2 & H3). split; [exact H1 |].
    split; [intros _; exists i; auto | discriminate].
  - split; [exact Hb |]. split; [discriminate | reflexivity].
Qed.

Lemma parsed_schedule_is_in_the_future_witness :
  _parse_time_spec spec_daily_1530 noon
  = Ret (Some (noon + 12600 * second_us), true, Some 86400)
  /\ noon < noon + 12600 * second_us.
Proof.
  split; [vm_compute; reflexivity |].
  exact (proj1 (parsed_schedule_is_in_the_future
                  spec_daily_1530 noon (noon + 12600 * second_us) true (Some 86400)
                  eq_refl)).
Defined.

(** *** The order of the keywords *)

Lemma startswith_app (a b s : str) :
  startswith (a ++ b) s = true -> startswith a s = true.
Proof.
  revert s. induction a as [| c a IH]; intros s H; [reflexivity |].
  destruct s as [| x s]; [discriminate |]. simpl in *.
  apply andb_prop in H as [-> H]. simpl. auto.
Qed.

Lemma contains_prefix (a b s : str) :
  contains (a ++ b) s = true -> contains a s = true.
Proof.
  induction s as [| x s IH]; simpl; intros H.
  - apply orb_prop in H as [H | H]; [| discriminate].
    apply startswith_app in H. now rewrite H.
  - apply orb_prop in H as [H | H].
    + apply startswith_app in H. now rewrite H.
    + rewrite IH by assumption. apply orb_true_r.
Qed.

Lemma parse_recurring_shape (spec : str) (now nr : datetime) (i : Z) :
  _parse_recurring_time spec now = Ret (Some nr, true, Some i) ->
  nr = now + i * second_us.
Proof.
  unfold _parse_recurring_time, parse_failure, add_seconds.
  destruct (_ =? 0); [discriminate |].
  destruct (in_range _); simpl; [| discriminate].
  now intros [= <- <-].
Qed.

Lemma parse_relative_not_recurring (spec : str) (now nr : datetime) (i : option Z) :
  _parse_relative_time spec now <> Ret (Some nr, true, i).
Proof.
  unfold _parse_relative_time, parse_failure, add_seconds.
  destruct (_ =? 0); [discriminate |].
  destruct (in_range _); simpl; discriminate.
Qed.

(** A time spec that contains "каждый день" is never read by the absolute
    grammar, although that grammar knows the phrase: the spec contains
    "кажд" (or "через"), so the dispatcher hands it to the recurring (or the
    relative) grammar.  Whatever hour the spec names, a recurring result
    therefore runs one interval from [now], not at that hour. *)
Theorem every_day_keyword_is_not_read_as_daily (spec : str) (now : datetime) :
  contains kw_kazhdyj_den (lower spec) = true ->
  _parse_time_spec spec now
  = (if contains kw_cherez (lower spec) then _parse_relative_time spec now
     else _parse_recurring_time spec now)
  /\ (forall next_run i,
        _parse_time_spec spec now = Ret (Some next_run, true, Some i) ->
        next_run = now + i * second_us).
Proof.
  intros H.
  assert (Hd : _parse_time_spec spec now
               = if contains kw_cherez (lower spec) then _parse_relative_time spec now
                 else _parse_recurring_time spec now).
  { unfold _parse_time_spec.
    destruct (contains kw_cherez (lower spec)); [reflexivity |].
    change kw_kazhdyj_den with (kw_kazhd ++ skipn 4 kw_kazhdyj_den) in H.
    apply contains_prefix in H. now rewrite H. }
  split; [exact Hd |]. intros nr i. rewrite Hd.
  destruct (contains kw_cherez (lower spec)).
  - intros Hr. now apply parse_relative_not_recurring in Hr.
  - apply parse_recurring_shape.
Qed.

Lemma every_day_keyword_is_not_read_as_daily_witness :
  contains kw_kazhdyj_den (lower spec_9_every_day) = true
  /\ _parse_absolute_time spec_9_every_day noon
     = Ret (Some (midnight noon + day_us + 9 * 3600 * second_us), true, Some 86400)
  /\ _parse_time_spec spec_9_every_day noon = _parse_recurring_time spec_9_every_day noon.
Proof.
  split; [reflexivity |]. split; [vm_compute; reflexivity |].
  exact (proj1 (every_day_keyword_is_not_read_as_daily spec_9_every_day noon eq_refl)).
Defined.

(** *** The interval that is shown parses back *)

Lemma digits_n_app (fuel : nat) (n : Z) (acc : str) :
  digits_n fuel n acc = digits_n fuel n [] ++ acc.
Proof.
  revert n acc. induction fuel as [| f IH]; intros n acc; [reflexivity |].
  cbn [digits_n]. destruct (n <? 10); [reflexivity |].
  rewrite (IH _ (_ :: acc)), (IH _ [_]), <- app_assoc. reflexivity.
Qed.

Lemma int_of_digits_snoc (s : str) (c : Z) :
  int_of_digits (s ++ [c]) = int_of_digits s * 10 + (c - 48).
Proof. unfold int_of_digits. rewrite fold_left_app. reflexivity. Qed.

Lemma int_of_digits_n (fuel : nat) (n : Z) :
  0 <= n -> (Z.to_nat n < fuel)%nat -> int_of_digits (digits_n fuel n []) = n.
Proof.
  revert n. induction fuel as [| f IH]; intros n H0 Hf; [lia |].
  cbn [digits_n]. destruct (Z.ltb_spec n 10).
  - unfold int_of_digits. cbn [fold_left]. rewrite Z.mod_small by lia. lia.
  - rewrite digits_n_app, int_of_digits_snoc, IH.
    + pose proof (Z.div_mod n 10 ltac:(lia)). lia.
    + apply Z.div_pos; lia.
    + assert (n / 10 < n) by (apply Z.div_lt; lia).
      assert (0 <= n / 10) by (apply Z.div_pos; lia). lia.
Qed.

Lemma digits_n_digits (fuel : nat) (n : Z) (acc : str) :
  0 <= n -> forallb is_digit acc = true ->
  forallb is_digit (digits_n fuel n acc) = true.
Proof.
  revert n acc. induction fuel as [| f IH]; intros n acc H0 Hacc; [exact Hacc |].
  assert (Hd : is_digit (48 + n mod 10) = true).
  { pose proof (Z.mod_pos_bound n 10 ltac:(lia)). unfold is_digit.
    apply andb_true_intro. split; apply Z.leb_le; lia. }
  cbn [digits_n]. destruct (n <? 10).
  - cbn [forallb]. now rewrite Hd.
  - apply IH; [apply Z.div_pos; lia |]. cbn [forallb]. now rewrite Hd.
Qed.

Lemma digits_n_nonempty (fuel : nat) (n : Z) (acc : str) :
  digits_n (S fuel) n acc <> [].
Proof.
  cbn [digits_n]. destruct (n <? 10); [discriminate |].
  rewrite digits_n_app. destruct (digits_n fuel (n / 10) []); discriminate.
Qed.

(** [int(str(n)) = n], and [str(n)] is a non-empty run of digits. *)
Lemma str_of_Z_digits (n : Z) :
  0 <= n ->
  str_of_Z n <> [] /\ forallb is_digit (str_of_Z n) = true
  /\ int_of_digits (str_of_Z n) = n.
Proof.
  intros H0. unfold str_of_Z. destruct (Z.ltb_spec n 0); [lia |].
  split; [apply digits_n_nonempty |].
  split; [now apply digits_n_digits | apply int_of_digits_n; lia].
Qed.

Lemma lower_digits (s : str) : forallb is_digit s = true -> lower s = s.
Proof.
  induction s as [| c s IH]; [reflexivity |]. simpl. intros H.
  apply andb_prop in H as [Hc Hs]. rewrite (IH Hs). f_equal.
  unfold is_digit in Hc. apply andb_prop in Hc as [H1 H2].
  apply Z.leb_le in H1, H2. unfold lower_char.
  destruct (Z.leb_spec 65 c); [lia |]. simpl.
  destruct (Z.leb_spec 1040 c); [lia |]. simpl.
  destruct (Z.leb_spec 1024 c); [lia |]. reflexivity.
Qed.

Lemma contains_skip_prefix (c : Z) (kw pre s : str) :
  forallb (fun x => negb (x =? c)) pre = true ->
  contains (c :: kw) (pre ++ s) = contains (c :: kw) s.
Proof.
  induction pre as [| x pre IH]; [reflexivity |]. simpl. intros H.
  apply andb_prop in H as [Hx Hp]. rewrite (IH Hp).
  rewrite Z.eqb_sym. apply negb_true_iff in Hx. rewrite Hx. reflexivity.
Qed.

Lemma digits_avoid (c : Z) (s : str) :
  is_digit c = false -> forallb is_digit s = true ->
  forallb (fun x => negb (x =? c)) s = true.
Proof.
  intros Hc. induction s as [| x s IH]; [reflexivity |]. simpl. intros H.
  apply andb_prop in H as [Hx Hs]. rewrite (IH Hs), andb_true_r.
  apply negb_true_iff. destruct (Z.eqb_spec x c); [congruence | reflexivity].
Qed.

(** "каждые", one quantity and its unit, read by the dispatcher. *)
Lemma parse_every_token (t : token) (now : datetime) :
  token_ok t = true ->
  lower (tk_gap t ++ tk_word t ++ tk_tail t) = tk_gap t ++ tk_word t ++ tk_tail t ->
  contains kw_cherez (tk_gap t ++ tk_word t ++ tk_tail t) = false ->
  token_seconds t <> 0 ->
  in_range (now + token_seconds t * second_us) = true ->
  _parse_time_spec (txt_kazhdye ++ token_text t) now
  = Ret (Some (now + token_seconds t * second_us), true, Some (token_seconds t)).
Proof.
  intros Hok Hlow Hch Hnz Hr.
  assert (Hq : forallb is_digit (tk_quantity t) = true).
  { unfold token_ok in Hok. repeat (apply andb_prop in Hok as [Hok ?]). assumption. }
  assert (Hl : lower (txt_kazhdye ++ token_text t)
               = [] ++ recurring_text (skipn 4 (firstn 6 txt_kazhdye)) [32] [] [t]).
  { unfold lower, token_text. rewrite !map_app.
    change (map lower_char) with lower. rewrite (lower_digits _ Hq).
    change (lower (tk_gap t)) with (map lower_char (tk_gap t)).
    change (lower (tk_word t)) with (map lower_char (tk_word t)).
    change (lower (tk_tail t)) with (map lower_char (tk_tail t)).
    rewrite <- !map_app. change (map lower_char) with lower. rewrite Hlow.
    unfold recurring_text, tokens_text, token_text. simpl.
    rewrite app_nil_r. reflexivity. }
  assert (Htoks : forallb token_ok [t] = true) by (simpl; now rewrite Hok).
  assert (Htp := time_part_recurring _ [] _ [32] [] [t] Hl eq_refl
                   ltac:(simpl; auto) ltac:(discriminate) eq_refl eq_refl Htoks).
  assert (Hc : count_seconds (time_part_after re_recurring (txt_kazhdye ++ token_text t))
               = token_seconds t).
  { rewrite Htp. simpl skip_while.
    rewrite (count_seconds_tokens [] [t] eq_refl Htoks). simpl. lia. }
  unfold _parse_time_spec.
  replace (contains kw_cherez (lower (txt_kazhdye ++ token_text t))) with false.
  2:{ rewrite Hl. unfold recurring_text, tokens_text, token_text.
      simpl. rewrite app_nil_r. symmetry.
      repeat (rewrite Z.eqb_compare; simpl).
      change (tk_quantity t ++ tk_gap t ++ tk_word t ++ tk_tail t)
        with (tk_quantity t ++ (tk_gap t ++ tk_word t ++ tk_tail t)).
      change kw_cherez with (1095 :: tl kw_cherez) in *.
      rewrite contains_skip_prefix by (apply digits_avoid; [reflexivity | exact Hq]).
      exact Hch. }
  replace (contains kw_kazhd (lower (txt_kazhdye ++ token_text t))) with true.
  2:{ rewrite Hl. unfold recurring_text. symmetry. apply (contains_app kw_kazhd []). }
  destruct (parse_recurring_of_count (txt_kazhdye ++ token_text t) now) as [_ H1].
  rewrite Hc in H1. now apply H1.
Qed.

Lemma parse_shown (n : Z) (x : unit_of_time) (gap word tail : str) (now : datetime) :
  1 <= n ->
  token_ok (mk_token [48] gap x word tail) = true ->
  lower (gap ++ word ++ tail) = gap ++ word ++ tail ->
  contains kw_cherez (gap ++ word ++ tail) = false ->
  in_range (now + n * unit_seconds x * second_us) = true ->
  _parse_time_spec (txt_kazhdye ++ str_of_Z n ++ gap ++ word ++ tail) now
  = Ret (Some (now + n * unit_seconds x * second_us), true, Some (n * unit_seconds x)).
Proof.
  intros Hn Hok Hlow Hch Hr.
  destruct (str_of_Z_digits n ltac:(lia)) as (Hne & Hd & Hi).
  pose (t := mk_token (str_of_Z n) gap x word tail).
  assert (Hs : token_seconds t = n * unit_seconds x).
  { unfold token_seconds, t. cbn [tk_quantity tk_unit]. now rewrite Hi. }
  rewrite <- Hs in *.
  apply (parse_every_token t now); try assumption.
  - unfold token_ok, t in *. cbn [tk_quantity tk_gap tk_unit tk_word tk_tail] in *.
    rewrite Hd. destruct (str_of_Z n); [congruence |]. exact Hok.
  - rewrite Hs. destruct x; cbn [unit_seconds]; lia.
Qed.

(** The text [_format_recurrence_interval] shows for an interval of at least
    one second is a time spec that [_parse_time_spec] reads as a recurring
    schedule; the interval read back is the one shown, that is the original
    rounded down to whole units of the largest unit that fits (so nothing is
    lost exactly when the interval is a whole number of such units). *)
Theorem shown_interval_parses_back (seconds : Z) (now : datetime) :
  1 <= seconds ->
  in_range (now + shown_seconds seconds * second_us) = true ->
  _parse_time_spec (_format_recurrence_interval (Some seconds)) now
  = Ret (Some (now + shown_seconds seconds * second_us), true,
         Some (shown_seconds seconds))
  /\ 1 <= shown_seconds seconds <= seconds
  /\ seconds < shown_seconds seconds + unit_seconds (shown_unit seconds).
Proof.
  intros H1 Hr. unfold _format_recurrence_interval.
  unfold shown_seconds, shown_unit in *.
  destruct (Z.ltb_spec seconds 60).
  { cbn [unit_seconds] in *. rewrite Z.div_1_r in *. split; [| lia].
    apply (parse_shown seconds Seconds [32] (tl txt_sekund) []);
      (assumption || reflexivity). }
  destruct (Z.ltb_spec seconds 3600).
  { cbn [unit_seconds] in *.
    pose proof (Z.div_mod seconds 60 ltac:(lia)).
    pose proof (Z.mod_pos_bound seconds 60 ltac:(lia)).
    assert (1 <= seconds / 60) by (apply Z.div_le_lower_bound; lia).
    split; [| lia].
    destruct (seconds / 60 =? 1); [| destruct (seconds / 60 <? 5)].
    - apply (parse_shown (seconds / 60) Minutes [32] (tl txt_minut) txt_u);
        (assumption || reflexivity).
    - apply (parse_shown (seconds / 60) Minutes [32] (tl txt_minut) txt_y);
        (assumption || reflexivity).
    - apply (parse_shown (seconds / 60) Minutes [32] (tl txt_minut) []);
        (assumption || reflexivity). }
  destruct (Z.ltb_spec seconds 86400).
  { cbn [unit_seconds] in *.
    pose proof (Z.div_mod seconds 3600 ltac:(lia)).
    pose proof (Z.mod_pos_bound seconds 3600 ltac:(lia)).
    assert (1 <= seconds / 3600) by (apply Z.div_le_lower_bound; lia).
    split; [| lia].
    destruct ((1 <? seconds / 3600) && (seconds / 3600 <? 5));
      [| destruct (5 <=? seconds / 3600)].
    - apply (parse_shown (seconds / 3600) Hours [32] (tl txt_chas) txt_latin_a);
        (assumption || reflexivity).
    - apply (parse_shown (seconds / 3600) Hours [32] (tl txt_chas) txt_ov);
        (assumption || reflexivity).
    - apply (parse_shown (seconds / 3600) Hours [32] (tl txt_chas) []);
        (assumption || reflexivity). }
  destruct (Z.ltb_spec seconds 604800).
  { cbn [unit_seconds] in *.
    pose proof (Z.div_mod seconds 86400 ltac:(lia)).
    pose proof (Z.mod_pos_bound seconds 86400 ltac:(lia)).
    assert (1 <= seconds / 86400) by (apply Z.div_le_lower_bound; lia).
    split; [| lia].
    destruct (seconds / 86400 =? 1); [| destruct (seconds / 86400 <? 5)].
    - apply (parse_shown (seconds / 86400) Days [32] txt_den []);
        (assumption || reflexivity).
    - apply (parse_shown (seconds / 86400) Days [32] txt_dnya []);
        (assumption || reflexivity).
    - apply (parse_shown (seconds / 86400) Days [32] txt_dnej []);
        (assumption || reflexivity). }
  destruct (Z.ltb_spec seconds 2592000).
  { cbn [unit_seconds] in *.
    pose proof (Z.div_mod seconds 604800 ltac:(lia)).
    pose proof (Z.mod_pos_bound seconds 604800 ltac:(lia)).
    assert (1 <= seconds / 604800) by (apply Z.div_le_lower_bound; lia).
    split; [| lia].
    destruct (seconds / 604800 =? 1); [| destruct (seconds / 604800 <? 5)].
    - apply (parse_shown (seconds / 604800) Weeks [32]
                         (firstn 5 txt_nedelyu) (skipn 5 txt_nedelyu));
        (assumption || reflexivity).
    - apply (parse_shown (seconds / 604800) Weeks [32]
                         (firstn 5 txt_nedeli) (skipn 5 txt_nedeli));
        (assumption || reflexivity).
    - apply (parse_shown (seconds / 604800) Weeks [32] txt_nedel []);
        (assumption || reflexivity). }
  destruct (Z.ltb_spec seconds 31536000).
  { cbn [unit_seconds] in *.
    pose proof (Z.div_mod seconds 2592000 ltac:(lia)).
    pose proof (Z.mod_pos_bound seconds 2592000 ltac:(lia)).
    assert (1 <= seconds / 2592000) by (apply Z.div_le_lower_bound; lia).
    split; [| lia].
    destruct (seconds / 2592000 =? 1); [| destruct (seconds / 2592000 <? 5)].
    - apply (parse_shown (seconds / 2592000) Months [32] txt_mesyac []);
        (assumption || reflexivity).
    - apply (parse_shown (seconds / 2592000) Months [32] txt_mesyaca []);
        (assumption || reflexivity).
    - apply (parse_shown (seconds / 2592000) Months [32] txt_mesyacev []);
        (assumption || reflexivity). }
  cbn [unit_seconds] in *.
  pose proof (Z.div_mod seconds 31536000 ltac:(lia)).
  pose proof (Z.mod_pos_bound seconds 31536000 ltac:(lia)).
  assert (1 <= seconds / 31536000) by (apply Z.div_le_lower_bound; lia).
  split; [| lia].
  destruct (seconds / 31536000 =? 1); [| destruct (seconds / 31536000 <? 5)].
  - apply (parse_shown (seconds / 31536000) Years [32] txt_god []);
      (assumption || reflexivity).
  - apply (parse_shown (seconds / 31536000) Years [32] txt_goda []);
      (assumption || reflexivity).
  - apply (parse_shown (seconds / 31536000) Years [32] txt_let []);
      (assumption || reflexivity).
Qed.

Lemma shown_interval_parses_back_witness :
  _parse_time_spec (_format_recurrence_interval (Some 5400)) noon
  = Ret (Some (noon + 3600 * second_us), true, Some 3600)
  /\ 1 <= shown_seconds 5400 <= 5400
  /\ 5400 < shown_seconds 5400 + unit_seconds (shown_unit 5400).
Proof.
  exact (shown_interval_parses_back 5400 noon ltac:(lia) eq_refl).
Defined.

(** ** The monitor *)

Lemma insert_by_next_run_perm (kv : str * timer) (l : list (str * timer)) :
  Permutation (insert_by_next_run kv l) (kv :: l).
Proof.
  induction l as [| y l IH]; simpl; [reflexivity |].
  destruct (_ <=? _); [reflexivity |]. rewrite IH. apply perm_swap.
Qed.

Lemma sorted_by_next_run_perm (l : list (str * timer)) :
  Permutation (sorted_by_next_run l) l.
Proof.
  induction l as [| x l IH]; simpl; [constructor |].
  rewrite insert_by_next_run_perm. now constructor.
Qed.

Lemma insert_by_next_run_sorted (kv : str * timer) (l : list (str * timer)) :
  StronglySorted next_run_le l -> StronglySorted next_run_le (insert_by_next_run kv l).
Proof.
  induction 1 as [| y l Hs IH Hall]; simpl.
  - repeat constructor.
  - destruct (Z.leb_spec (next_run (snd kv)) (next_run (snd y))).
    + constructor; [constructor; assumption |].
      constructor; [assumption |].
      eapply Forall_impl; [| exact Hall]. unfold next_run_le. intros; lia.
    + constructor; [assumption |].
      apply Forall_forall. intros z Hz.
      apply (Permutation_in _ (insert_by_next_run_perm kv l)) in Hz.
      destruct Hz as [<- | Hz]; [unfold next_run_le; lia |].
      rewrite Forall_forall in Hall. now apply Hall.
Qed.

Lemma sorted_by_next_run_sorted (l : list (str * timer)) :
  StronglySorted next_run_le (sorted_by_next_run l).
Proof.
  induction l as [| x l IH]; simpl; [constructor |].
  now apply insert_by_next_run_sorted.
Qed.

Lemma insert_by_next_run_stable (k : Z) (kv : str * timer) (l : list (str * timer)) :
  filter (runs_at k) (insert_by_next_run kv l) = filter (runs_at k) (kv :: l).
Proof.
  induction l as [| y l IH]; [reflexivity |].
  cbn [insert_by_next_run].
  destruct (Z.leb_spec (next_run (snd kv)) (next_run (snd y))); [reflexivity |].
  cbn [filter] in *. rewrite IH. unfold runs_at.
  destruct (Z.eqb_spec (next_run (snd kv)) k), (Z.eqb_spec (next_run (snd y)) k);
    try reflexivity. lia.
Qed.

Lemma sorted_by_next_run_stable (k : Z) (l : list (str * timer)) :
  filter (runs_at k) (sorted_by_next_run l) = filter (runs_at k) l.
Proof.
  induction l as [| x l IH]; [reflexivity |].
  cbn [sorted_by_next_run fold_right]. rewrite insert_by_next_run_stable.
  cbn [filter]. fold (sorted_by_next_run l). now rewrite IH.
Qed.

Lemma startswith_split (kw s : str) :
  startswith kw s = true -> exists s', s = kw ++ s'.
Proof.
  revert s. induction kw as [| c kw IH]; intros s H; [now exists s |].
  destruct s as [| x s]; [discriminate |]. simpl in H.
  apply andb_prop in H as [Hc H]. apply Z.eqb_eq in Hc. subst x.
  destruct (IH s H) as [s' ->]. now exists s'.
Qed.

Lemma contains_split (kw s : str) :
  contains kw s = true -> exists p s', s = p ++ kw ++ s'.
Proof.
  induction s as [| x s IH]; simpl; intros H.
  - apply orb_prop in H as [H | H]; [| discriminate].
    apply startswith_split in H as [s' ->]. now exists [], s'.
  - apply orb_prop in H as [H | H].
    + apply startswith_split in H as [s' ->]. now exists [], s'.
    + destruct (IH H) as (p & s' & ->). now exists (x :: p), s'.
Qed.

Lemma contains_inside (kw p a s : str) :
  contains kw a = true -> contains kw (p ++ a ++ s) = true.
Proof.
  intros H. apply contains_split in H as (p' & s' & ->).
  replace (p ++ (p' ++ kw ++ s') ++ s) with ((p ++ p') ++ kw ++ (s' ++ s))
    by (now rewrite <- !app_assoc).
  apply contains_app.
Qed.

Lemma join_split (sep line : str) (lines : list str) :
  In line lines -> exists p s, join sep lines = p ++ line ++ s.
Proof.
  induction lines as [| l lines IH]; [contradiction |].
  intros [-> | Hin].
  - destruct lines as [| l' lines].
    + exists [], []. simpl. now rewrite app_nil_r.
    + exists [], (sep ++ join sep (l' :: lines)). reflexivity.
  - destruct (IH Hin) as (p & s & Hj).
    destruct lines as [| l' lines]; [contradiction |].
    exists (l ++ sep ++ p), s.
    change (join sep (l :: l' :: lines)) with (l ++ sep ++ join sep (l' :: lines)).
    rewrite Hj, <- !app_assoc. reflexivity.
Qed.

Lemma escape_no_brackets (s : str) :
  forallb (fun c => negb ((c =? 60) || (c =? 62))) (escape s) = true.
Proof.
  induction s as [| c s IH]; [reflexivity |].
  unfold escape in *. cbn [flat_map]. rewrite forallb_app, IH, andb_true_r.
  unfold escape_char.
  destruct (Z.eqb_spec c 38); [reflexivity |].
  destruct (Z.eqb_spec c 62); [reflexivity |].
  destruct (Z.eqb_spec c 60); [reflexivity |].
  cbn [forallb]. rewrite andb_true_r.
  destruct (Z.eqb_spec c 60), (Z.eqb_spec c 62); try contradiction. reflexivity.
Qed.

Section MonitorProperties.

Variable fromtimestamp : Z -> datetime.
Variable strftime : datetime -> str.

(** The monitor shows the active timers that run first, at most five of
    them, in the order they will run, timers due at the same instant in the
    order they were created; the timers it leaves out run no earlier, and its
    last line counts them. *)
Theorem monitor_shows_the_earliest_active_timers (e : env) (st : state) :
  exists later,
    Permutation (shown_timers st ++ later) (filter is_active (timers st))
    /\ StronglySorted next_run_le (shown_timers st ++ later)
    /\ (forall k, filter (runs_at k) (shown_timers st ++ later)
                  = filter (runs_at k) (filter is_active (timers st)))
    /\ length (shown_timers st) = Nat.min 5 (length (filter is_active (timers st)))
    /\ get_raw_data fromtimestamp strftime e st
       = match filter is_active (timers st) with
         | [] => txt_no_active_timers
         | _ => join [10] (map (monitor_line fromtimestamp strftime e) (shown_timers st)
                           ++ match later with
                              | [] => []
                              | _ => [more_line (Z.of_nat (length later))]
                              end)
         end.
Proof.
  exists (skipn 5 (sorted_by_next_run (filter is_active (timers st)))).
  unfold shown_timers. rewrite firstn_skipn.
  pose proof (sorted_by_next_run_perm (filter is_active (timers st))) as Hp.
  pose proof (Permutation_length Hp) as Hl.
  split; [exact Hp |].
  split; [apply sorted_by_next_run_sorted |].
  split; [intros k; apply sorted_by_next_run_stable |].
  split; [rewrite length_firstn, Hl; reflexivity |].
  unfold get_raw_data, shown_timers.
  destruct (filter is_active (timers st)) as [| kv l] eqn:E; [reflexivity |].
  pose proof (length_skipn 5 (sorted_by_next_run (kv :: l))) as Hs.
  rewrite Hl in Hs.
  destruct (Nat.ltb_spec 5 (length (kv :: l))) as [Hlt | Hge];
    destruct (skipn 5 (sorted_by_next_run (kv :: l))) as [| x later] eqn:Es.
  - cbn [length] in *. lia.
  - rewrite Hs. do 4 f_equal. lia.
  - now rewrite app_nil_r.
  - cbn [length] in *. lia.
Qed.

(** A timer the monitor would show whose name contains the phrase "Нет
    активных таймеров" hides the whole monitor: [render] looks for the
    phrase in the text and returns nothing. *)
Theorem timer_name_can_hide_the_monitor (e : env) (st : state) (kv : str * timer) :
  In kv (shown_timers st) ->
  contains txt_no_active (name (snd kv)) = true ->
  render fromtimestamp strftime e st = [].
Proof.
  intros Hin Hname. unfold render.
  replace (contains txt_no_active (get_raw_data fromtimestamp strftime e st)) with true;
    [reflexivity |].
  symmetry. unfold get_raw_data.
  destruct (filter is_active (timers st)) as [| kv0 l] eqn:E; [reflexivity |].
  set (lines := map (monitor_line fromtimestamp strftime e) (shown_timers st)).
  assert (Hl : In (monitor_line fromtimestamp strftime e kv) lines)
    by (now apply in_map).
  set (all := if (5 <? length (kv0 :: l))%nat then _ else _).
  assert (Ha : In (monitor_line fromtimestamp strftime e kv) all).
  { unfold all. destruct (_ <? _)%nat; [apply in_or_app; now left | exact Hl]. }
  destruct (join_split [10] _ _ Ha) as (p & s & ->).
  unfold monitor_line.
  set (sign := if is_recurring (snd kv) then _ else _).
  match goal with
  | |- contains _ (p ++ (sign ++ [32] ++ name (snd kv) ++ ?post) ++ s) = true =>
      replace (p ++ (sign ++ [32] ++ name (snd kv) ++ post) ++ s)
        with ((p ++ sign ++ [32]) ++ name (snd kv) ++ (post ++ s))
        by (now rewrite <- !app_assoc)
  end.
  now apply contains_inside.
Qed.

End MonitorProperties.

Lemma timer_name_can_hide_the_monitor_witness :
  In (id_a, mk_timer id_a txt_no_active spec_in_5_min
                     (utc_timestamp (noon + 300 * second_us)) false None None None
                     (utc_timestamp noon) active)
     (shown_timers hidden_state)
  /\ render utc_fromtimestamp no_strftime (env_at noon id_b) hidden_state = [].
Proof.
  assert (H : In (id_a, mk_timer id_a txt_no_active spec_in_5_min
                                 (utc_timestamp (noon + 300 * second_us)) false None
                                 None None (utc_timestamp noon) active)
                 (shown_timers hidden_state)) by (left; reflexivity).
  split; [exact H |].
  exact (timer_name_can_hide_the_monitor utc_fromtimestamp no_strftime
           (env_at noon id_b) hidden_state _ H eq_refl).
Defined.

(** [wrap_in_xml] escapes a content that lacks a "<" or lacks a ">": what
    stands between the tags is then the escaped content, which has neither
    character. *)
Theorem wrap_in_xml_escapes (tag content : str) (attributes : list (str * str)) :
  contains [60] content = false \/ contains [62] content = false ->
  exists opening,
    wrap_in_xml tag content attributes
    = opening ++ escape content ++ [60; 47] ++ tag ++ [62]
    /\ forallb (fun c => negb ((c =? 60) || (c =? 62))) (escape content) = true.
Proof.
  intros H. unfold wrap_in_xml.
  replace (negb (contains [60] content) || negb (contains [62] content)) with true
    by (destruct H as [-> | ->]; [reflexivity | now rewrite orb_true_r]).
  set (attr_str := match attributes with [] => [] | _ => _ end).
  exists ([60] ++ tag ++ attr_str ++ [62]). split; [| apply escape_no_brackets].
  rewrite <- !app_assoc. reflexivity.
Qed.

Lemma wrap_in_xml_escapes_witness :
  exists opening,
    wrap_in_xml txt_timers [10; 97; 60; 98; 10] [(txt_source, txt_timer_manager)]
    = opening ++ escape [10; 97; 60; 98; 10] ++ [60; 47] ++ txt_timers ++ [62]
    /\ forallb (fun c => negb ((c =? 60) || (c =? 62))) (escape [10; 97; 60; 98; 10])
       = true.
Proof.
  exact (wrap_in_xml_escapes txt_timers [10; 97; 60; 98; 10]
           [(txt_source, txt_timer_manager)] (or_intror eq_refl)).
Defined.

(** ** The staff timers *)

Lemma lower_app (a b : str) : lower (a ++ b) = lower a ++ lower b.
Proof. apply map_app. Qed.

Lemma parse_absolute_text
      (spec pre ws hh : str) (mm : option str) (suf : str) (now : datetime) :
  lower spec = pre ++ absolute_text ws hh mm ++ suf ->
  no_digit pre = true -> ws <> [] -> forallb is_space ws = true ->
  time_of_day_ok hh mm = true ->
  headp (fun c => is_digit c || (c =? 58)) suf = false ->
  (next_at now hh mm <> today_at now (int_of_digits hh)
                          (match mm with Some m => int_of_digits m | None => 0 end) ->
   in_range (next_at now hh mm) = true) ->
  _parse_absolute_time spec now
  = Ret (Some (next_at now hh mm),
         contains kw_ezhednevno (lower spec) || contains kw_kazhdyj_den (lower spec),
         if contains kw_ezhednevno (lower spec) || contains kw_kazhdyj_den (lower spec)
         then Some 86400 else None).
Proof.
  intros Hl Hpre Hne Hws Hok Hsuf Hrange.
  unfold time_of_day_ok in Hok.
  apply andb_prop in Hok as [Hok Hm]. apply andb_prop in Hok as [Hok Hh].
  apply andb_prop in Hok as [Hok Hmm]. apply andb_prop in Hok as [Hlen Hd].
  apply Z.leb_le in Hm, Hh.
  assert (Hlen' : (length hh = 1 \/ length hh = 2)%nat).
  { apply orb_prop in Hlen as [H | H]; apply Nat.eqb_eq in H; auto. }
  unfold _parse_absolute_time. rewrite Hl at 1.
  destruct (search_absolute_text pre ws hh mm suf Hpre Hne Hws Hlen' Hd Hmm Hsuf)
    as (g & -> & Hg1 & Hg2).
  unfold int_group. rewrite Hg1, Hg2.
  assert (Hmin : (if truthy_str mm
                  then match mm with Some d => int_of_digits d | None => 0 end
                  else 0) = match mm with Some m => int_of_digits m | None => 0 end).
  { destruct mm as [[| c m] |]; reflexivity. }
  rewrite Hmin.
  set (hour := int_of_digits hh) in *.
  set (minute := match mm with Some m => int_of_digits m | None => 0 end) in *.
  assert (H0h : 0 <= hour) by now apply int_of_digits_nonneg.
  assert (H0m : 0 <= minute).
  { unfold minute. destruct mm as [m |]; [| lia].
    simpl in Hmm. apply andb_prop in Hmm as [_ Hmd]. now apply int_of_digits_nonneg. }
  rewrite replace_time_ok by lia. cbn [bind].
  unfold next_at in *. fold hour minute in Hrange |- *.
  destruct (Z.leb_spec (today_at now hour minute) now) as [Hle | Hgt].
  - unfold add_days, add_seconds.
    replace (today_at now hour minute + 1 * day_seconds * second_us)
      with (today_at now hour minute + day_us) by (unfold day_us; lia).
    rewrite Hrange by (unfold day_us, day_seconds, second_us; lia). reflexivity.
  - reflexivity.
Qed.

Lemma next_at_bounds (now : datetime) (hh : str) (mm : option str) :
  time_of_day_ok hh mm = true ->
  now < next_at now hh mm <= now + day_us.
Proof.
  intros Hok. unfold time_of_day_ok in Hok.
  apply andb_prop in Hok as [Hok Hm]. apply andb_prop in Hok as [Hok Hh].
  apply andb_prop in Hok as [Hok Hmm]. apply andb_prop in Hok as [_ Hd].
  apply Z.leb_le in Hm, Hh.
  pose proof (int_of_digits_nonneg hh Hd) as H0h.
  assert (H0m : 0 <= match mm with Some m => int_of_digits m | None => 0 end).
  { destruct mm as [m |]; [| lia].
    simpl in Hmm. apply andb_prop in Hmm as [_ Hmd]. now apply int_of_digits_nonneg. }
  pose proof (midnight_bounds now) as Hn.
  unfold next_at, today_at.
  set (hour := int_of_digits hh) in *.
  set (minute := match mm with Some m => int_of_digits m | None => 0 end) in *.
  assert (Hday : day_us = 86400 * second_us) by reflexivity.
  assert (Hs : 0 < second_us) by reflexivity.
  destruct (Z.leb_spec (midnight now + (hour * 3600 + minute * 60) * second_us) now); nia.
Qed.

Lemma next_at_in_range (now : datetime) (hh : str) (mm : option str) :
  time_of_day_ok hh mm = true ->
  in_range now = true -> in_range (now + day_us) = true ->
  in_range (next_at now hh mm) = true.
Proof.
  intros Hok H0 H1. pose proof (next_at_bounds now hh mm Hok) as Hb.
  unfold in_range in *.
  apply andb_prop in H0 as [H0 _]. apply andb_prop in H1 as [_ H1].
  apply Z.leb_le in H0, H1.
  apply andb_true_intro. split; apply Z.leb_le; lia.
Qed.

Lemma avoid_time_of_day (c : Z) (hh : str) (mm : option str) :
  is_digit c = false -> (c =? 58) = false ->
  forallb is_digit hh = true -> minutes_ok mm = true ->
  forallb (fun x => negb (x =? c)) (hh ++ minutes_text mm) = true.
Proof.
  intros Hc H58 Hd Hmm. rewrite forallb_app, (digits_avoid c hh Hc Hd).
  destruct mm as [m |]; [| reflexivity].
  simpl in Hmm. apply andb_prop in Hmm as [_ Hmd].
  cbn [minutes_text forallb andb]. rewrite Z.eqb_sym, H58.
  now apply digits_avoid.
Qed.

Lemma lower_time_of_day (hh : str) (mm : option str) :
  forallb is_digit hh = true -> minutes_ok mm = true ->
  lower (hh ++ minutes_text mm) = hh ++ minutes_text mm.
Proof.
  intros Hd Hmm. rewrite lower_app, (lower_digits hh Hd).
  destruct mm as [m |]; [| reflexivity].
  simpl in Hmm. apply andb_prop in Hmm as [_ Hmd].
  cbn [minutes_text]. change (lower (58 :: m)) with (58 :: lower m).
  now rewrite (lower_digits m Hmd).
Qed.

(** "в", a time of day and "ежедневно", read by the dispatcher. *)
Lemma parse_daily_at (hh : str) (mm : option str) (now : datetime) :
  time_of_day_ok hh mm = true ->
  (next_at now hh mm <> today_at now (int_of_digits hh)
                          (match mm with Some m => int_of_digits m | None => 0 end) ->
   in_range (next_at now hh mm) = true) ->
  _parse_time_spec (kw_v_space ++ (hh ++ minutes_text mm) ++ txt_daily) now
  = Ret (Some (next_at now hh mm), true, Some 86400).
Proof.
  intros Hok Hrange.
  pose proof Hok as Hok'. unfold time_of_day_ok in Hok'.
  apply andb_prop in Hok' as [Hok' _]. apply andb_prop in Hok' as [Hok' _].
  apply andb_prop in Hok' as [Hok' Hmm]. apply andb_prop in Hok' as [_ Hd].
  set (spec := kw_v_space ++ (hh ++ minutes_text mm) ++ txt_daily).
  assert (Hlow : lower spec = spec).
  { unfold spec.
    rewrite (lower_app kw_v_space), (lower_app (hh ++ minutes_text mm)),
      lower_time_of_day by assumption.
    reflexivity. }
  assert (Hsplit : spec = (kw_v_space ++ (hh ++ minutes_text mm)) ++ txt_daily)
    by (unfold spec; now rewrite app_assoc).
  assert (Hshape : lower spec = [] ++ absolute_text [32] hh mm ++ txt_daily).
  { rewrite Hlow. unfold spec, absolute_text. fold (minutes_text mm).
    cbn [app kw_v_space kw_v]. now rewrite <- !app_assoc. }
  assert (Hc : contains kw_cherez (lower spec) = false).
  { rewrite Hlow, Hsplit. change kw_cherez with (1095 :: tl kw_cherez).
    rewrite contains_skip_prefix; [reflexivity |].
    rewrite forallb_app, avoid_time_of_day by (assumption || reflexivity).
    reflexivity. }
  assert (Hk : contains kw_kazhd (lower spec) = false).
  { rewrite Hlow, Hsplit. change kw_kazhd with (1082 :: tl kw_kazhd).
    rewrite contains_skip_prefix; [reflexivity |].
    rewrite forallb_app, avoid_time_of_day by (assumption || reflexivity).
    reflexivity. }
  assert (Hv : contains kw_v_space (lower spec) = true).
  { rewrite Hlow. apply (contains_app kw_v_space []). }
  assert (He : contains kw_ezhednevno (lower spec) = true).
  { rewrite Hlow. unfold spec.
    replace (kw_v_space ++ (hh ++ minutes_text mm) ++ txt_daily)
      with ((kw_v_space ++ (hh ++ minutes_text mm) ++ [32]) ++ kw_ezhednevno ++ [])
      by (rewrite <- !app_assoc; reflexivity).
    apply contains_app. }
  unfold _parse_time_spec. fold spec. rewrite Hc, Hk, Hv.
  rewrite (parse_absolute_text spec [] [32] hh mm txt_daily now Hshape eq_refl
             ltac:(discriminate) eq_refl Hok eq_refl Hrange).
  rewrite He. reflexivity.
Qed.

Section StaffProperties.

Variable timestamp : datetime -> Z.
Variable ast_parse : str -> option (Z * Z).

Lemma create_for_staff_daily
      (e : env) (title action_ : str) (s : staff) (hh : str) (mm : option str)
      (st : state) :
  title <> [] ->
  time_of_day_ok hh mm = true ->
  (next_at (now e) hh mm
   <> today_at (now e) (int_of_digits hh)
               (match mm with Some m => int_of_digits m | None => 0 end) ->
   in_range (next_at (now e) hh mm) = true) ->
  dict_get (uuid4 e) (timers st) = None ->
  create_for_staff timestamp ast_parse e
                   (kw_v_space ++ (hh ++ minutes_text mm) ++ txt_daily)
                   (title ++ staff_name_of s) action_ st
  = (Ret (ToolReply (CreatedRecurring (title ++ staff_name_of s) (uuid4 e)
                                      (next_at (now e) hh mm) (Some 86400))),
     Some (with_new_timer e (daily_timer timestamp e title action_ s hh mm) st)).
Proof.
  intros Ht Hok Hrange Hfresh.
  destruct title as [| c title]; [congruence |].
  unfold create_for_staff, create_timer.
  change (truthy_str None) with false. cbv iota.
  rewrite (parse_daily_at hh mm (now e) Hok Hrange). cbv iota.
  cbn [app truthy_str].
  unfold try_except, _save_timer_to_redis, with_timers.
  cbn [timers redis agent timer_id fst snd].
  rewrite dict_set_twice, (dict_set_new _ _ _ Hfresh). reflexivity.
Qed.

(** For a staff member with a user name and a planning time [hh] or
    [hh]:[mm], [setup_task_planning_timer] adds one timer to the store, under
    the new identifier: active, recurring every 86400 seconds, named "Task
    Planning - " and the staff name, with the planning action, and first due
    at the next occurrence of that time of day, less than a day ahead.  The
    timers already stored stay as they are, so every call adds one more. *)
Theorem planning_timer_is_daily_at_the_given_time
        (e : env) (s : staff) (hh : str) (mm : option str) (uname : str) (st : state) :
  telegram_username s = Some uname -> uname <> [] ->
  task_planning_at s = Some (hh ++ minutes_text mm) ->
  time_of_day_ok hh mm = true ->
  in_range (now e) = true -> in_range (now e + day_us) = true ->
  dict_get (uuid4 e) (timers st) = None ->
  let t := daily_timer timestamp e txt_task_planning (create_planning_action s) s hh mm in
  setup_task_planning_timer timestamp ast_parse e s (Some st)
  = (Ret (ToolReply (CreatedRecurring (name t) (uuid4 e) (next_at (now e) hh mm)
                                      (Some 86400))),
     Some (with_new_timer e t st))
  /\ now e < next_at (now e) hh mm <= now e + day_us
  /\ truthy_str (action t) = true.
Proof.
  intros Hu Hne Hat Hok Hr' Hr Hfresh t.
  pose proof (next_at_bounds (now e) hh mm Hok) as Hb.
  split; [| split; [exact Hb | reflexivity]].
  unfold setup_task_planning_timer. rewrite Hu, Hat.
  assert (H1 : truthy_str (Some uname) = true) by (destruct uname; [congruence | reflexivity]).
  assert (H2 : truthy_str (Some (hh ++ minutes_text mm)) = true).
  { unfold time_of_day_ok in Hok. destruct hh; [discriminate | reflexivity]. }
  rewrite H1, H2. cbn [negb orb shown].
  apply create_for_staff_daily; try assumption; [discriminate |].
  intros _. now apply next_at_in_range.
Qed.

(** The same for [setup_task_reporting_timer] and the reporting time. *)
Theorem reporting_timer_is_daily_at_the_given_time
        (e : env) (s : staff) (hh : str) (mm : option str) (uname : str) (st : state) :
  telegram_username s = Some uname -> uname <> [] ->
  task_reporting_at s = Some (hh ++ minutes_text mm) ->
  time_of_day_ok hh mm = true ->
  in_range (now e) = true -> in_range (now e + day_us) = true ->
  dict_get (uuid4 e) (timers st) = None ->
  let t := daily_timer timestamp e txt_task_reporting (create_reporting_action s) s hh mm in
  setup_task_reporting_timer timestamp ast_parse e s (Some st)
  = (Ret (ToolReply (CreatedRecurring (name t) (uuid4 e) (next_at (now e) hh mm)
                                      (Some 86400))),
     Some (with_new_timer e t st))
  /\ now e < next_at (now e) hh mm <= now e + day_us
  /\ truthy_str (action t) = true.
Proof.
  intros Hu Hne Hat Hok Hr' Hr Hfresh t.
  pose proof (next_at_bounds (now e) hh mm Hok) as Hb.
  split; [| split; [exact Hb | reflexivity]].
  unfold setup_task_reporting_timer. rewrite Hu, Hat.
  assert (H1 : truthy_str (Some uname) = true) by (destruct uname; [congruence | reflexivity]).
  assert (H2 : truthy_str (Some (hh ++ minutes_text mm)) = true).
  { unfold time_of_day_ok in Hok. destruct hh; [discriminate | reflexivity]. }
  rewrite H1, H2. cbn [negb orb shown].
  apply create_for_staff_daily; try assumption; [discriminate |].
  intros _. now apply next_at_in_range.
Qed.

(** [setup_task_sync_timer] adds one timer to the store, under the new
    identifier: active, recurring every 1800 seconds, first due 30 minutes
    from now, with the synchronisation action. *)
Theorem sync_timer_runs_every_30_minutes (e : env) (st : state) :
  in_range (now e + 1800 * second_us) = true ->
  dict_get (uuid4 e) (timers st) = None ->
  let t := mk_timer (uuid4 e) txt_sync_name txt_sync_spec
                    (timestamp (now e + 1800 * second_us)) true (Some 1800)
                    (Some txt_sync_action) None (timestamp (now e)) active in
  setup_task_sync_timer timestamp ast_parse e (Some st)
  = (Ret (ToolReply (CreatedRecurring txt_sync_name (uuid4 e)
                                      (now e + 1800 * second_us) (Some 1800))),
     Some (with_new_timer e t st)).
Proof.
  intros Hr Hfresh t.
  assert (Hc : count_seconds (time_part_after re_recurring txt_sync_spec) = 1800)
    by (vm_compute; reflexivity).
  assert (Hp : _parse_time_spec txt_sync_spec (now e)
               = Ret (Some (now e + 1800 * second_us), true, Some 1800)).
  { unfold _parse_time_spec.
    change (contains kw_cherez (lower txt_sync_spec)) with false.
    change (contains kw_kazhd (lower txt_sync_spec)) with true. cbv iota.
    destruct (parse_recurring_of_count txt_sync_spec (now e)) as [_ H1].
    rewrite Hc in H1. apply H1; [discriminate | exact Hr]. }
  unfold setup_task_sync_timer, create_for_staff, create_timer.
  change (truthy_str None) with false. cbv iota. rewrite Hp. cbv iota.
  change (truthy_str (Some txt_sync_name)) with true. cbv iota.
  unfold try_except, _save_timer_to_redis, with_timers.
  cbn [timers redis agent timer_id fst snd].
  rewrite dict_set_twice, (dict_set_new _ _ _ Hfresh). reflexivity.
Qed.

End StaffProperties.

Lemma planning_timer_is_daily_at_the_given_time_witness :
  fst (setup_task_planning_timer utc_timestamp toy_ast_parse (env_at noon id_a)
                                 staff_ivanov (Some empty_state))
  = Ret (ToolReply (CreatedRecurring (txt_task_planning ++ staff_name_of staff_ivanov)
                                     id_a (noon + 77400 * second_us) (Some 86400))).
Proof.
  rewrite (proj1 (planning_timer_is_daily_at_the_given_time
                    utc_timestamp toy_ast_parse (env_at noon id_a) staff_ivanov
                    [57] (Some [51; 48]) _ empty_state
                    eq_refl ltac:(discriminate) eq_refl eq_refl eq_refl eq_refl eq_refl)).
  reflexivity.
Defined.

Lemma reporting_timer_is_daily_at_the_given_time_witness :
  fst (setup_task_reporting_timer utc_timestamp toy_ast_parse (env_at noon id_a)
                                  staff_ivanov (Some empty_state))
  = Ret (ToolReply (CreatedRecurring (txt_task_reporting ++ staff_name_of staff_ivanov)
                                     id_a (noon + 21600 * second_us) (Some 86400))).
Proof.
  rewrite (proj1 (reporting_timer_is_daily_at_the_given_time
                    utc_timestamp toy_ast_parse (env_at noon id_a) staff_ivanov
                    [49; 56] (Some [48; 48]) _ empty_state
                    eq_refl ltac:(discriminate) eq_refl eq_refl eq_refl eq_refl eq_refl)).
  reflexivity.
Defined.

Lemma sync_timer_runs_every_30_minutes_witness :
  fst (setup_task_sync_timer utc_timestamp toy_ast_parse (env_at noon id_a)
                             (Some empty_state))
  = Ret (ToolReply (CreatedRecurring txt_sync_name id_a (noon + 1800 * second_us)
                                     (Some 1800))).
Proof.
  rewrite (sync_timer_runs_every_30_minutes
             utc_timestamp toy_ast_parse (env_at noon id_a) empty_state
             eq_refl eq_refl).
  reflexivity.
Defined.

(** ** Timers that are over, and outcomes that are not errors *)

Section OverAndOut.

Variable timestamp : datetime -> Z.
Variable fromtimestamp : Z -> datetime.
Variable ast_parse : str -> option (Z * Z).



(** When the procedure of an active timer, or the delivery of its action,
    ends in an exception that does not derive from [Exception] (a
    [SystemExit], say), no [except Exception] clause of [_execute_timer]
    catches it: the firing raises it and leaves the state as it was, so the
    timer is neither rescheduled nor completed and every later pass of the
    loop dispatches it as this one did. *)
Theorem non_exception_outcome_escapes
        (e : env) (id : str) (t : timer) (st : state) (ex : exn) :
  dict_get id (timers st) = Some t -> timer_status t = active ->
  is_Exception ex = false ->
  (truthy_str (procedure t) = true /\ procedure_raises e = Some ex)
  \/ ((truthy_str (procedure t) = false \/ procedure_raises e = None)
      /\ truthy_str (action t) = true /\ agent st <> None
      /\ sink_raises e = Some ex) ->
  _execute_timer timestamp e id st = (Raise ex, st)
  /\ (forall e', dispatched timestamp e' (snd (_execute_timer timestamp e id st))
                 = dispatched timestamp e' st).
Proof.
  intros Hget Hact Hex Hcase.
  assert (H : _execute_timer timestamp e id st = (Raise ex, st)).
  { unfold _execute_timer. rewrite Hget, Hact. cbn [status_eqb negb].
    destruct Hcase as [[Hp Hr] | (Hp & Ha & Hag & Hs)].
    - unfold run_procedure. rewrite Hp, Hr. unfold try_except. rewrite Hex.
      cbv iota. rewrite Hex. reflexivity.
    - assert (Hrp : run_procedure e t st = (Ret tt, st)).
      { unfold run_procedure. destruct Hp as [-> | ->]; [reflexivity |].
        destruct (truthy_str (procedure t)); reflexivity. }
      rewrite Hrp. unfold run_action.
      destruct (action t) as [[| c a] |]; try discriminate.
      destruct (agent st) as [ag |]; [| congruence].
      rewrite Hs. unfold try_except. rewrite Hex. cbv iota. rewrite Hex. reflexivity. }
  split; [exact H |]. intros e'. now rewrite H.
Qed.

End OverAndOut.


Lemma non_exception_outcome_escapes_witness :
  _execute_timer utc_timestamp exiting_env id_a every_10s_state
  = (Raise BaseException_only, every_10s_state).
Proof.
  refine (proj1 (non_exception_outcome_escapes
                   utc_timestamp exiting_env id_a _ every_10s_state BaseException_only
                   _ _ eq_refl (or_introl (conj _ eq_refl)))); reflexivity.
Defined.

(** ** The task list *)

Lemma hash_get_set (k q : Z) (f : option task -> task) (h : list (Z * task)) :
  hash_get q (hash_set k f h)
  = if k =? q then Some (f (hash_get k h)) else hash_get q h.
Proof.
  induction h as [| [k' t] h IH]; cbn [hash_set hash_get].
  - destruct (k =? q); reflexivity.
  - destruct (Z.eqb_spec k' k) as [-> | Hk]; cbn [hash_get].
    + destruct (Z.eqb_spec k q); reflexivity.
    + rewrite IH. destruct (Z.eqb_spec k' q) as [-> | Hq]; [| reflexivity].
      destruct (Z.eqb_spec k q); [congruence | reflexivity].
Qed.

Lemma hash_get_update (k q : Z) (f : task -> task) (h : list (Z * task)) :
  hash_get q (hash_update k f h)
  = if k =? q then option_map f (hash_get k h) else hash_get q h.
Proof.
  induction h as [| [k' t] h IH]; cbn [hash_update hash_get].
  - destruct (k =? q); reflexivity.
  - destruct (Z.eqb_spec k' k) as [-> | Hk]; cbn [hash_get].
    + destruct (Z.eqb_spec k q); reflexivity.
    + rewrite IH. destruct (Z.eqb_spec k' q) as [-> | Hq]; [| reflexivity].
      destruct (Z.eqb_spec k q); [congruence | reflexivity].
Qed.

Lemma hash_keys_update (k : Z) (f : task -> task) (h : list (Z * task)) :
  map fst (hash_update k f h) = map fst h.
Proof.
  induction h as [| [k' t] h IH]; [reflexivity |]. cbn [hash_update].
  destruct (k' =? k); cbn [map fst]; [reflexivity | now rewrite IH].
Qed.

Lemma hash_keys_set (k : Z) (f : option task -> task) (h : list (Z * task)) (q : Z) :
  In q (map fst (hash_set k f h)) -> q = k \/ In q (map fst h).
Proof.
  induction h as [| [k' t] h IH]; cbn [hash_set map fst In].
  - intros [<- | []]. now left.
  - destruct (k' =? k); cbn [map fst In]; intros [H | H]; auto.
    destruct (IH H); auto.
Qed.

Lemma hash_get_none (k : Z) (h : list (Z * task)) :
  ~ In k (map fst h) -> hash_get k h = None.
Proof.
  induction h as [| [k' t] h IH]; [reflexivity |]. cbn [map fst In hash_get].
  intros H. destruct (Z.eqb_spec k' k); [tauto | apply IH; tauto].
Qed.

Lemma tasks_ok_keys (s : task_store) :
  tasks_ok s <-> (forall q, In q (map fst (task_hashes s)) -> q <= task_id_counter s).
Proof.
  unfold tasks_ok. rewrite Forall_forall. split.
  - intros H q Hq. apply in_map_iff in Hq as [[k t] [<- Hin]]. now apply (H (k, t)).
  - intros H [k t] Hin. apply H. apply in_map_iff. now exists (k, t).
Qed.

Lemma check_one_status (current_time m : Z) (acc : list (Z * task) * Z) (id q : Z) :
  kept_or_timed_out (option_map task_state (hash_get q (fst acc)))
                    (option_map task_state
                       (hash_get q (fst (check_one current_time m acc id)))).
Proof.
  unfold check_one.
  destruct (hash_get id (fst acc)) as [t |] eqn:E; [| now left].
  destruct (task_status_eqb (task_state t) task_pending && _) eqn:C; [| now left].
  cbn [fst]. rewrite hash_get_update.
  destruct (Z.eqb_spec id q) as [<- | Hq]; [| now left].
  rewrite E. apply andb_prop in C as [C _]. right. cbn [option_map].
  destruct (task_state t); try discriminate. split; reflexivity.
Qed.

Lemma check_fold_status (current_time m : Z) (ids : list Z) (q : Z) :
  forall acc,
  kept_or_timed_out
    (option_map task_state (hash_get q (fst acc)))
    (option_map task_state
       (hash_get q (fst (fold_left (check_one current_time m) ids acc)))).
Proof.
  induction ids as [| id ids IH]; intros acc; [now left |].
  cbn [fold_left].
  pose proof (check_one_status current_time m acc id q) as H1.
  pose proof (IH (check_one current_time m acc id)) as H2.
  destruct H1 as [H1 | [H1a H1b]].
  - rewrite <- H1. exact H2.
  - destruct H2 as [H2 | [H2a H2b]].
    + right. split; [exact H1a | now rewrite H2].
    + rewrite H1b in H2a. discriminate.
Qed.

Lemma check_fold_keys (current_time m : Z) (ids : list Z) :
  forall acc,
  map fst (fst (fold_left (check_one current_time m) ids acc)) = map fst (fst acc).
Proof.
  induction ids as [| id ids IH]; intros acc; [reflexivity |].
  cbn [fold_left]. rewrite IH. unfold check_one.
  destruct (hash_get id (fst acc)); [| reflexivity].
  destruct (_ && _); [| reflexivity]. cbn [fst]. apply hash_keys_update.
Qed.

Section TaskToolProperties.

Variable timestamp : datetime -> Z.

Lemma task_run_op_ok (e : env) (o : task_op) (s : task_store) :
  tasks_ok s -> tasks_ok (task_run_op timestamp e o s).
Proof.
  rewrite !tasks_ok_keys. intros Hok.
  destruct o as [d | id | id | n | m]; cbn [task_run_op].
  - unfold create_task. destruct (redis_up e); [| exact Hok].
    cbn [snd task_hashes task_id_counter]. intros q Hq.
    apply hash_keys_set in Hq as [-> | Hq]; [lia |]. specialize (Hok q Hq). lia.
  - unfold finish_task. destruct (redis_up e); [| exact Hok].
    destruct (hash_get id (task_hashes s)) as [t |]; [| exact Hok].
    destruct (task_state t); try exact Hok;
      cbn [snd with_hashes task_hashes task_id_counter];
      now rewrite hash_keys_update.
  - unfold cancel_task. destruct (redis_up e); [| exact Hok].
    destruct (hash_get id (task_hashes s)) as [t |]; [| exact Hok].
    destruct (task_state t); try exact Hok;
      cbn [snd with_hashes task_hashes task_id_counter];
      now rewrite hash_keys_update.
  - unfold show_pending_tasks. destruct (redis_up e); [| exact Hok].
    destruct (collect_pending _ _ _ _); exact Hok.
  - unfold check_timeouts. destruct (redis_up e); [| exact Hok].
    cbn [snd with_hashes task_hashes task_id_counter].
    now rewrite check_fold_keys.
Qed.

Lemma task_run_ok (trace : list (env * task_op)) :
  forall s, tasks_ok s -> tasks_ok (task_run timestamp trace s).
Proof.
  induction trace as [| [e o] trace IH]; intros s Hok; [exact Hok |].
  apply IH. now apply task_run_op_ok.
Qed.

Lemma task_transition_refl (e : env) (o : task_op) (id : Z) (s : task_store)
      (x : option task_status) :
  task_transition_ok e o id s x x.
Proof. destruct x as [[] |]; cbn; auto. Qed.

Lemma task_step_transition (e : env) (o : task_op) (id : Z) (s : task_store) :
  tasks_ok s ->
  task_transition_ok e o id s (task_status_of id s)
                     (task_status_of id (task_run_op timestamp e o s)).
Proof.
  intros Hok. unfold task_status_of.
  destruct o as [d | k | k | n | m]; cbn [task_run_op].
  - unfold create_task. destruct (redis_up e); [| apply task_transition_refl].
    cbn [snd task_hashes]. rewrite hash_get_set.
    destruct (Z.eqb_spec (task_id_counter s + 1) id) as [<- | Hne];
      [| apply task_transition_refl].
    rewrite hash_get_none.
    + cbn. right. repeat split; eauto.
    + intros Hin. pose proof (proj1 (tasks_ok_keys s) Hok _ Hin). lia.
  - unfold finish_task. destruct (redis_up e); [| apply task_transition_refl].
    destruct (hash_get k (task_hashes s)) as [t |] eqn:E; [| apply task_transition_refl].
    destruct (task_state t) eqn:Et; try apply task_transition_refl;
      cbn [snd with_hashes task_hashes]; rewrite hash_get_update;
      (destruct (Z.eqb_spec k id) as [<- | Hne]; [| apply task_transition_refl]);
      rewrite E; cbn; rewrite Et; auto.
  - unfold cancel_task. destruct (redis_up e); [| apply task_transition_refl].
    destruct (hash_get k (task_hashes s)) as [t |] eqn:E; [| apply task_transition_refl].
    destruct (task_state t) eqn:Et; try apply task_transition_refl;
      cbn [snd with_hashes task_hashes]; rewrite hash_get_update;
      (destruct (Z.eqb_spec k id) as [<- | Hne]; [| apply task_transition_refl]);
      rewrite E; cbn; rewrite Et; auto.
  - unfold show_pending_tasks. destruct (redis_up e); [| apply task_transition_refl].
    destruct (collect_pending _ _ _ _); apply task_transition_refl.
  - unfold check_timeouts. destruct (redis_up e); [| apply task_transition_refl].
    cbn [snd with_hashes task_hashes].
    destruct (check_fold_status (now e) m (zrange (task_set s)) id (task_hashes s, 0))
      as [H | [H1 H2]]; cbn [fst] in *.
    + rewrite H. apply task_transition_refl.
    + rewrite H1, H2. cbn. right. right. right. eauto.
Qed.

(** Along every run of the task tool from a store whose identifiers do not
    exceed the counter, the status of a task changes only as follows: a task
    appears as pending, under the next value of the counter, by
    [create_task]; a pending task becomes finished by [finish_task],
    canceled by [cancel_task] or timeout by [check_timeouts]; a task in
    timeout can still be finished or canceled; finished and canceled are
    final. *)
Theorem task_status_changes_follow_the_machine
        (s0 : task_store) (trace : list (env * task_op)) (e : env) (o : task_op) (id : Z) :
  tasks_ok s0 ->
  task_transition_ok e o id (task_run timestamp trace s0)
    (task_status_of id (task_run timestamp trace s0))
    (task_status_of id (task_run_op timestamp e o (task_run timestamp trace s0))).
Proof.
  intros Hok. apply task_step_transition. now apply task_run_ok.
Qed.

Lemma collect_pending_firstn (n : Z) (h : list (Z * task)) (ids : list Z) :
  forall acc,
  (length acc < Z.to_nat (Z.max n 1))%nat ->
  collect_pending n h ids acc
  = firstn (Z.to_nat (Z.max n 1))
           (acc ++ flat_map (fun id => match hash_get id h with
                                       | Some t =>
                                           if task_status_eqb (task_state t) task_pending
                                           then [(task_id t, task_description t,
                                                  task_created_at t)]
                                           else []
                                       | None => []
                                       end) ids).
Proof.
  induction ids as [| id ids IH]; intros acc Hacc.
  - cbn [collect_pending flat_map]. rewrite app_nil_r, firstn_all2; [reflexivity | lia].
  - cbn [collect_pending flat_map].
    destruct (hash_get id h) as [t |]; [| now apply IH].
    destruct (task_status_eqb (task_state t) task_pending); [| now apply IH].
    set (row := (task_id t, task_description t, task_created_at t)).
    assert (Hlen : length (acc ++ [row]) = S (length acc))
      by (rewrite length_app; cbn [length]; lia).
    change ([row] ++ ?x) with (row :: x).
    replace (acc ++ row :: flat_map _ ids) with ((acc ++ [row]) ++ flat_map
      (fun id => match hash_get id h with
                 | Some t => if task_status_eqb (task_state t) task_pending
                             then [(task_id t, task_description t, task_created_at t)]
                             else []
                 | None => []
                 end) ids)
      by (now rewrite <- app_assoc).
    destruct (Z.leb_spec n (Z.of_nat (length (acc ++ [row])))) as [Hn | Hn].
    + rewrite firstn_app.
      replace (Z.to_nat (Z.max n 1) - length (acc ++ [row]))%nat with 0%nat by lia.
      cbn [firstn]. rewrite app_nil_r, firstn_all2; [reflexivity | lia].
    + apply IH. lia.
Qed.

(** [show_pending_tasks(n)] lists the first [n] pending tasks in the order
    of the sorted set, all of them when there are fewer, and changes
    nothing; for [n] below 1 it lists one task, since it tests [n] only
    after it has added a task. *)
Theorem show_pending_tasks_lists_the_first_pending_tasks
        (e : env) (n : Z) (s : task_store) :
  redis_up e = true ->
  show_pending_tasks e n s
  = (match firstn (Z.to_nat (Z.max n 1)) (pending_rows s) with
     | [] => NoPendingTasks
     | rows => CurrentTasks rows
     end, s).
Proof.
  intros Hup. unfold show_pending_tasks, pending_rows. rewrite Hup.
  rewrite collect_pending_firstn by (cbn [length]; lia).
  cbn [app]. destruct (firstn _ _); reflexivity.
Qed.

Lemma check_fold_result (current_time m : Z) (ids : list Z) (q : Z) :
  forall acc,
  (In q ids ->
   forall t, hash_get q (fst (fold_left (check_one current_time m) ids acc)) = Some t ->
             task_state t = task_pending ->
             current_time - task_created_at t <= m * 60 * second_us)
  /\ (hash_get q (fst (fold_left (check_one current_time m) ids acc))
      = hash_get q (fst acc)
      \/ exists t0, hash_get q (fst acc) = Some t0
                    /\ task_state t0 = task_pending
                    /\ m * 60 * second_us < current_time - task_created_at t0
                    /\ hash_get q (fst (fold_left (check_one current_time m) ids acc))
                       = Some (set_timeout current_time t0)).
Proof.
  induction ids as [| id ids IH]; intros acc.
  - split; [contradiction | now left].
  - cbn [fold_left].
    destruct (IH (check_one current_time m acc id)) as [IH1 IH2].
    assert (Hstep : hash_get q (fst (check_one current_time m acc id))
                    = hash_get q (fst acc)
                    \/ exists t0, hash_get q (fst acc) = Some t0
                                  /\ task_state t0 = task_pending
                                  /\ m * 60 * second_us < current_time - task_created_at t0
                                  /\ hash_get q (fst (check_one current_time m acc id))
                                     = Some (set_timeout current_time t0)).
    { unfold check_one.
      destruct (hash_get id (fst acc)) as [t |] eqn:E; [| now left].
      destruct (task_status_eqb (task_state t) task_pending && _) eqn:C; [| now left].
      cbn [fst]. rewrite hash_get_update.
      destruct (Z.eqb_spec id q) as [<- | Hq]; [| now left].
      right. exists t. apply andb_prop in C as [C1 C2]. apply Z.ltb_lt in C2.
      rewrite E. repeat split; try assumption.
      destruct (task_state t); (reflexivity || discriminate). }
    split.
    + intros [-> | Hin] t Ht Hp; [| now apply (IH1 Hin t)].
      destruct IH2 as [IH2 | (t0 & H0 & _ & _ & H3)].
      * rewrite IH2 in Ht. unfold check_one in Ht.
        destruct (hash_get q (fst acc)) as [t1 |] eqn:E.
        -- destruct (task_status_eqb (task_state t1) task_pending
                     && (m * 60 * second_us <? current_time - task_created_at t1)) eqn:C.
           ++ cbn [fst] in Ht. rewrite hash_get_update, Z.eqb_refl, E in Ht.
              injection Ht as <-. discriminate.
           ++ rewrite E in Ht. injection Ht as <-. rewrite Hp in C. cbn in C.
              apply Z.ltb_ge in C. exact C.
        -- rewrite E in Ht. discriminate.
      * rewrite H3 in Ht. injection Ht as <-. discriminate.
    + destruct Hstep as [Hs | (t0 & H0 & H1 & H2 & H3)].
      * rewrite <- Hs. exact IH2.
      * right. exists t0. repeat split; try assumption.
        destruct IH2 as [IH2 | (t1 & H4 & H5 & _)].
        -- now rewrite IH2.
        -- rewrite H3 in H4. injection H4 as <-. discriminate.
Qed.

(** After [check_timeouts(m)] no task of the sorted set is still pending
    more than [m] minutes after its creation; the call changes exactly the
    tasks that were: each of them is now in timeout, stamped with the current
    time, and every other task is as it was. *)
Theorem check_timeouts_leaves_no_old_pending_task
        (e : env) (m : Z) (s : task_store) (id : Z) :
  redis_up e = true ->
  let s' := snd (check_timeouts e m s) in
  (In id (zrange (task_set s)) ->
   forall t, hash_get id (task_hashes s') = Some t -> task_state t = task_pending ->
             now e - task_created_at t <= m * 60 * second_us)
  /\ (hash_get id (task_hashes s') = hash_get id (task_hashes s)
      \/ exists t0, hash_get id (task_hashes s) = Some t0
                    /\ task_state t0 = task_pending
                    /\ m * 60 * second_us < now e - task_created_at t0
                    /\ hash_get id (task_hashes s') = Some (set_timeout (now e) t0)).
Proof.
  intros Hup s'. unfold s', check_timeouts. rewrite Hup.
  cbn [snd with_hashes task_hashes].
  exact (check_fold_result (now e) m (zrange (task_set s)) id (task_hashes s, 0)).
Qed.

End TaskToolProperties.

Lemma task_status_changes_follow_the_machine_witness :
  task_transition_ok (env_at (noon + 900 * second_us) id_a) (CheckTimeouts 5) 1
    (task_run utc_timestamp [(env_at (noon + 120 * second_us) id_a, FinishTask 2)] two_tasks)
    (Some task_pending) (Some task_timeout).
Proof.
  exact (task_status_changes_follow_the_machine utc_timestamp two_tasks
           [(env_at (noon + 120 * second_us) id_a, FinishTask 2)]
           (env_at (noon + 900 * second_us) id_a) (CheckTimeouts 5) 1
           ltac:(repeat constructor; cbn; lia)).
Defined.

Lemma show_pending_tasks_lists_the_first_pending_tasks_witness :
  show_pending_tasks (env_at (noon + 120 * second_us) id_a) 0 two_tasks
  = (CurrentTasks [(1, name_report, noon)], two_tasks).
Proof.
  exact (show_pending_tasks_lists_the_first_pending_tasks
           (env_at (noon + 120 * second_us) id_a) 0 two_tasks eq_refl).
Defined.

Lemma check_timeouts_leaves_no_old_pending_task_witness :
  hash_get 1 (task_hashes (snd (check_timeouts (env_at (noon + 330 * second_us) id_a) 5
                                               two_tasks)))
  = Some (mk_task 1 name_report task_timeout noon None None (Some (noon + 330 * second_us)))
  /\ hash_get 2 (task_hashes (snd (check_timeouts (env_at (noon + 330 * second_us) id_a) 5
                                                  two_tasks)))
     = hash_get 2 (task_hashes two_tasks).
Proof.
  split.
  - destruct (proj2 (check_timeouts_leaves_no_old_pending_task
                       (env_at (noon + 330 * second_us) id_a) 5 two_tasks 1 eq_refl))
      as [H | (t0 & _ & _ & _ & H)]; reflexivity.
  - destruct (proj2 (check_timeouts_leaves_no_old_pending_task
                       (env_at (noon + 330 * second_us) id_a) 5 two_tasks 2 eq_refl))
      as [H | (t0 & _ & _ & _ & H)]; reflexivity.
Defined.

(** ** What is shown and stored at creation *)

(** The remaining time that [list_timers] and the monitor show is the whole
    number of seconds from [now] to [next_run], split into days, hours below
    24, minutes below 60 and seconds below 60; a timer that is overdue has
    none. *)
Theorem time_left_is_the_remaining_time (next_run now : datetime) :
  (next_run < now -> time_left next_run now = None)
  /\ (now <= next_run ->
      exists days hours minutes seconds,
        time_left next_run now = Some (days, hours, minutes, seconds)
        /\ 0 <= days /\ 0 <= hours < 24 /\ 0 <= minutes < 60 /\ 0 <= seconds < 60
        /\ ((days * 24 + hours) * 60 + minutes) * 60 + seconds
           = (next_run - now) / second_us).
Proof.
  unfold time_left. split; intros H.
  - destruct (Z.ltb_spec (next_run - now) 0); [reflexivity | lia].
  - destruct (Z.ltb_spec (next_run - now) 0); [lia |].
    set (delta := next_run - now) in *.
    set (secs := delta mod day_us / second_us).
    exists (delta / day_us), (secs / 3600), (secs mod 3600 / 60), (secs mod 3600 mod 60).
    split; [reflexivity |].
    assert (Hs : 0 < second_us) by reflexivity.
    assert (Hday : day_us = second_us * 86400) by reflexivity.
    assert (Hsecs : secs = (delta / second_us) mod 86400).
    { unfold secs. rewrite Hday, Z.rem_mul_r by lia.
      rewrite Z.add_comm, Z.mul_comm, Z.div_add_l by lia.
      rewrite (Z.div_small (delta mod second_us)) by (apply Z.mod_pos_bound; lia). lia. }
    assert (Hd : delta / day_us = delta / second_us / 86400)
      by (rewrite Hday, <- Z.div_div by lia; reflexivity).
    pose proof (Z.div_pos delta second_us ltac:(lia) Hs) as Hq.
    set (q := delta / second_us) in *.
    pose proof (Z.mod_pos_bound q 86400 ltac:(lia)) as Hb.
    pose proof (Z.div_mod q 86400 ltac:(lia)) as Hq1.
    pose proof (Z.div_mod secs 3600 ltac:(lia)) as Hq2.
    pose proof (Z.mod_pos_bound secs 3600 ltac:(lia)) as Hb2.
    pose proof (Z.div_mod (secs mod 3600) 60 ltac:(lia)) as Hq3.
    pose proof (Z.mod_pos_bound (secs mod 3600) 60 ltac:(lia)) as Hb3.
    assert (0 <= secs / 3600 < 24).
    { split; [apply Z.div_pos; lia | apply Z.div_lt_upper_bound; lia]. }
    assert (0 <= secs mod 3600 / 60 < 60).
    { split; [apply Z.div_pos; lia | apply Z.div_lt_upper_bound; lia]. }
    assert (0 <= q / 86400) by (apply Z.div_pos; lia).
    rewrite Hd. repeat split; try lia.
Qed.

Lemma time_left_is_the_remaining_time_witness :
  time_left (noon + 93784 * second_us) noon = Some (1, 2, 3, 4)
  /\ time_left noon (noon + 1) = None.
Proof.
  split.
  - destruct (proj2 (time_left_is_the_remaining_time (noon + 93784 * second_us) noon)
                    ltac:(unfold second_us; lia))
      as (d & h & m & s & _); reflexivity.
  - exact (proj1 (time_left_is_the_remaining_time noon (noon + 1)) ltac:(lia)).
Defined.

Section AtCreation.

Variable timestamp : datetime -> Z.
Variable fromtimestamp : Z -> datetime.
Variable ast_parse : str -> option (Z * Z).

(** With a clock whose timestamps grow with time, a timer that
    [create_timer] has just stored under a new identifier is active, created
    now and due strictly later: the pass of the loop that reads the same
    clock does not dispatch it.  When it is recurring, its interval is
    positive. *)
Theorem created_timer_is_not_due_yet
        (e : env) (ts : str) (n a p : option str) (st : state) :
  (forall x y, x < y -> timestamp x < timestamp y) ->
  store_ok st -> dict_get (uuid4 e) (timers st) = None ->
  created (fst (create_timer timestamp ast_parse e ts n a p st)) = true ->
  exists t,
    dict_get (uuid4 e) (timers (snd (create_timer timestamp ast_parse e ts n a p st)))
    = Some t
    /\ timer_status t = active /\ created_at t = timestamp (now e)
    /\ timestamp (now e) < next_run t
    /\ (is_recurring t = true -> exists i, recurrence_interval t = Some i /\ 0 < i)
    /\ ~ In (uuid4 e)
         (dispatched timestamp e (snd (create_timer timestamp ast_parse e ts n a p st))).
Proof.
  intros Hmono Hok Hfresh Hc.
  pose proof (run_op_store_ok timestamp fromtimestamp ast_parse e (Create ts n a p) st
                Hok Hfresh) as Hok'.
  cbn [run_op] in Hok'.
  pose proof (parse_time_spec_bounds ts (now e)) as Hb.
  revert Hc Hok'. unfold create_timer.
  destruct (if truthy_str p then _ else _) as [[] | ex];
    [| cbn; destruct (is_Exception ex); discriminate].
  destruct (_parse_time_spec ts (now e)) as [[[[nr |] rec] ivl] | ex];
    [| cbn; discriminate | cbn; destruct (is_Exception ex); discriminate].
  cbn [try_except fst snd]. intros _ Hok'.
  unfold _save_timer_to_redis, with_timers in *.
  cbn [timers redis agent timer_id] in *. rewrite dict_set_twice in *.
  eexists. split; [now rewrite dict_get_set, str_eqb_refl |].
  cbn [timer_status created_at next_run is_recurring recurrence_interval].
  assert (Hnr : now e < nr).
  { unfold schedule_ok in Hb. destruct rec, ivl; try contradiction; tauto. }
  repeat split; try reflexivity.
  - now apply Hmono.
  - intros ->. unfold schedule_ok in Hb. destruct ivl as [i |]; [| contradiction].
    exists i. tauto.
  - intros Hin. apply dispatched_is_due in Hin as (t & Hget & _ & Hdue); [| exact Hok'].
    cbn [timers] in Hget. rewrite dict_get_set, str_eqb_refl in Hget.
    injection Hget as <-. cbn [next_run] in Hdue.
    specialize (Hmono _ _ Hnr). lia.
Qed.

End AtCreation.

Lemma created_timer_is_not_due_yet_witness :
  exists t,
    dict_get id_b (timers two_timers_state) = Some t
    /\ timer_status t = active /\ created_at t = utc_timestamp noon
    /\ utc_timestamp noon < next_run t
    /\ (is_recurring t = true -> exists i, recurrence_interval t = Some i /\ 0 < i)
    /\ ~ In id_b (dispatched utc_timestamp (env_at noon id_b) two_timers_state).
Proof.
  exact (created_timer_is_not_due_yet utc_timestamp utc_fromtimestamp toy_ast_parse
           (env_at noon id_b) spec_in_1_min None None None one_shot_state
           ltac:(unfold utc_timestamp; intros; lia) one_shot_state_ok eq_refl eq_refl).
Defined.
